(** * Velha: a tic-tac-toe engine with a depth-bounded minimax opponent

    Shallow embedding of [velha.py] and the properties of its board rules,
    its search, its sessions and its session registry.

    Python values are modelled as follows.
    - A grid ([estado]) is a Python list of one-character strings, here a
      [list string]; [" "] is a free cell.
    - Python integers (indices, scores, levels) are [Z]; list indexing
      follows Python, negative indices counting from the end.
    - A [dict] of scores keeps insertion order, which [melhor_jogada]
      exposes: it is an association list updated in place or extended at
      its end.
    - A Python [set] of indices is a [gset Z].
    - The registry [Partidas.partidas] is a [gmap] from user id to session.
    - [time.time()] yields a binary64 float, here a primitive [float].
    - Exceptions are values of [excecao], carried by [res].

    Logging and [dump_estado], which only feeds the log, are left out, and
    so is the endless loop of [stats] around [limpa_antigas]. Handlers
    are taken one at a time, each running to its end. *)

From Stdlib Require Import ZArith List Bool Lia PrimFloat.
From stdpp Require Import base option list sorting gmap strings.

Local Open Scope Z_scope.

(** ** Exceptions and results *)

Inductive excecao : Set :=
| ValueError
| IndexError
| UnboundLocalError
| RecursionError
| TelegramError.

#[global] Instance excecao_eq_dec : EqDecision excecao.
Proof. solve_decision. Defined.

Inductive res (A : Type) : Type :=
| Ok (a : A)
| Raise (e : excecao).
Arguments Ok {A} a.
Arguments Raise {A} e.

(** ** Python lists *)

Module Py.

(** Position designated by index [i] in a list of [n] elements. *)
Definition indice (n : nat) (i : Z) : option nat :=
  if 0 <=? i then (if i <? Z.of_nat n then Some (Z.to_nat i) else None)
  else if - Z.of_nat n <=? i then Some (Z.to_nat (Z.of_nat n + i))
  else None.

(** [l[i]] *)
Definition getitem {A} (l : list A) (i : Z) : res A :=
  match indice (length l) i with
  | Some k => match l !! k with Some x => Ok x | None => Raise IndexError end
  | None => Raise IndexError
  end.

(** [l[i] = x], the list after the assignment *)
Definition setitem {A} (l : list A) (i : Z) (x : A) : res (list A) :=
  match indice (length l) i with
  | Some k => Ok (<[k := x]> l)
  | None => Raise IndexError
  end.

(** [enumerate(l)], counting from [i] *)
Fixpoint enumerate_de {A} (i : Z) (l : list A) : list (Z * A) :=
  match l with
  | [] => []
  | x :: r => (i, x) :: enumerate_de (i + 1) r
  end.

Definition enumerate {A} (l : list A) : list (Z * A) := enumerate_de 0 l.

(** truth value of a list (and of a dict): non-empty *)
Definition verdadeiro {A} (l : list A) : bool :=
  match l with [] => false | _ => true end.

(** [max(l)] and [min(l)] over integers *)
Definition max (l : list Z) : res Z :=
  match l with
  | [] => Raise ValueError
  | x :: r => Ok (fold_left Z.max r x)
  end.

Definition min (l : list Z) : res Z :=
  match l with
  | [] => Raise ValueError
  | x :: r => Ok (fold_left Z.min r x)
  end.

End Py.

(** ** Dictionaries from move to score, in insertion order *)

Module Dict.

Definition t : Type := list (Z * Z).

Definition vazio : t := [].

Fixpoint get (d : t) (k : Z) : option Z :=
  match d with
  | [] => None
  | (k', v) :: r => if k' =? k then Some v else get r k
  end.

(** [d[k] = v] *)
Fixpoint set (d : t) (k v : Z) : t :=
  match d with
  | [] => [(k, v)]
  | (k', v') :: r => if k' =? k then (k', v) :: r else (k', v') :: set r k v
  end.

Definition values (d : t) : list Z := snd <$> d.

Definition items (d : t) : list (Z * Z) := d.

End Dict.

(** [posicoes_de(fonte, caracter)] *)
Definition posicoes_de (fonte : list string) (caracter : string) : list Z :=
  fst <$> filter (fun ic => String.eqb (snd ic) caracter) (Py.enumerate fonte).

(** ** Class [Velhus]: the grid and the search

    An instance holds one attribute, [estado]; methods take it as
    [self_estado]. *)

Module Velhus.

Definition GANHANTES : list (gset Z) :=
  list_to_set <$>
      [[0; 1; 2]; [3; 4; 5]; [6; 7; 8];
       [0; 4; 8]; [6; 4; 2];
       [0; 3; 6]; [1; 4; 7]; [2; 5; 8]].

(** [__init__]: [estado or [" "] * 9]; an empty list is false. *)
Definition init (estado : list string) : list string :=
  match estado with
  | [] => replicate 9 " "%string
  | _ => estado
  end.

Definition jogadas_possiveis (self_estado : list string) : list Z :=
  posicoes_de self_estado " ".

Definition posicoes_por_jogador (self_estado : list string) : list Z * list Z :=
  (posicoes_de self_estado "X", posicoes_de self_estado "O").

Definition ganhou (posicoes : list Z) (jogador : string) : bool :=
  let s : gset Z := list_to_set posicoes in
  existsb (fun p : gset Z => Nat.eqb (size (p ∖ s)) 0) GANHANTES.

(** [joga]: the outcome and the grid the instance holds afterwards. *)
Definition joga (self_estado : list string) (posicao : Z) (jogador : string)
  : res unit * list string :=
  match Py.getitem self_estado posicao with
  | Raise e => (Raise e, self_estado)
  | Ok c =>
      if String.eqb c " " then
        match Py.setitem self_estado posicao jogador with
        | Ok e' => (Ok tt, e')
        | Raise e => (Raise e, self_estado)
        end
      else (Raise ValueError, self_estado)
  end.

Definition resultado (self_estado : list string) : string :=
  let '(jX, jO) := posicoes_por_jogador self_estado in
  if ganhou jX "X" then "X"
  else if ganhou jO "O" then "O"
  else if negb (Py.verdadeiro (jogadas_possiveis self_estado)) then "*"
  else "?".

Definition alterna (jogador : string) : string :=
  if String.eqb jogador "O" then "X" else "O".

Definition melhor (result : Dict.t) (jogador : string) : res Z :=
  if String.eqb jogador "X" then Py.max (Dict.values result)
  else Py.min (Dict.values result).

(** One turn of the loop of [proxima] over the possible moves: the
    dict [result] after the turn for move [possivel]. [recursa j outro n]
    stands for the call [j.proxima(outro, j.estado, n, nmax)]. *)
Definition passo (recursa : list string -> string -> Z -> res Dict.t)
           (jogador : string) (estado : list string) (nivel nmax : Z)
           (possivel : Z) (result : Dict.t) : res Dict.t :=
  let j := init estado in  (* [Velhus(estado[:])], a copy of the grid *)
  match joga j possivel jogador with
  | (Raise e, _) => Raise e
  | (Ok _, j) =>
      let resultado := resultado j in
      if String.eqb resultado "X" || String.eqb resultado "O" then
        let rlocal := 10 - nivel in
        Ok (Dict.set result possivel
              (if String.eqb resultado "X" then rlocal else - rlocal))
      else if String.eqb resultado "?" && (nivel <? nmax) then
        let outro := alterna jogador in
        match recursa j outro (nivel + 1) with
        | Raise e => Raise e
        | Ok lresult =>
            match (if Py.verdadeiro lresult then melhor lresult outro
                   else Ok 0) with
            | Raise e => Raise e
            | Ok v => Ok (Dict.set result possivel v)
            end
        end
      else Ok result
  end.

(** The [for] loop: the turns in order, stopping at the first exception. *)
Fixpoint percorre (corpo : Z -> Dict.t -> res Dict.t)
         (possiveis : list Z) (result : Dict.t) : res Dict.t :=
  match possiveis with
  | [] => Ok result
  | possivel :: resto =>
      match corpo possivel result with
      | Raise e => Raise e
      | Ok result' => percorre corpo resto result'
      end
  end.

(** [proxima] with a bound [limite] on the depth of its recursion: a call
    that would nest deeper ends with [RecursionError]. *)
Fixpoint proxima_ate (limite : nat) (self_estado : list string)
         (jogador : string) (estado : list string) (nivel nmax : Z)
  : res Dict.t :=
  percorre
    (passo
       (match limite with
        | O => fun _ _ _ => Raise RecursionError
        | S limite' =>
            fun j outro n => proxima_ate limite' j outro j n nmax
        end)
       jogador estado nivel nmax)
    (jogadas_possiveis self_estado) Dict.vazio.

(** [proxima] recurses only while [nivel < nmax], one level at a time:
    [nmax - nivel] nested calls are all it can make, and with that bound
    it obeys the recursive equation of the method ([proxima_eq]). *)
Definition proxima (self_estado : list string) (jogador : string)
           (estado : list string) (nivel nmax : Z) : res Dict.t :=
  proxima_ate (Z.to_nat (nmax - nivel)) self_estado jogador estado nivel nmax.

Definition melhor_jogada (self_estado : list string) (jogador : string)
           (estado : list string) (dmax : Z) : res (list Z) :=
  match proxima self_estado jogador estado 0 dmax with
  | Raise e => Raise e
  | Ok result =>
      match melhor result jogador with
      | Raise e => Raise e
      | Ok melhor =>
          Ok (fst <$> filter (fun pr => snd pr =? melhor) (Dict.items result))
      end
  end.

End Velhus.

(** ** Class [Velha]: the session of one user *)

Module Velha.

Record t : Type := Cria {
  estado : list string;
  ultima_jogada : float;
  mensagem : string;
  tela : Z;
  dificuldade : Z;
  jogador : string;
  computador : string;
  user_id : Z;
  message : option (Z * Z)
}.

Definition com_estado (v : t) (e : list string) : t :=
  Cria e (ultima_jogada v) (mensagem v) (tela v) (dificuldade v)
       (jogador v) (computador v) (user_id v) (message v).
Definition com_ultima_jogada (v : t) (a : float) : t :=
  Cria (estado v) a (mensagem v) (tela v) (dificuldade v)
       (jogador v) (computador v) (user_id v) (message v).
Definition com_mensagem (v : t) (m : string) : t :=
  Cria (estado v) (ultima_jogada v) m (tela v) (dificuldade v)
       (jogador v) (computador v) (user_id v) (message v).
Definition com_tela (v : t) (n : Z) : t :=
  Cria (estado v) (ultima_jogada v) (mensagem v) n (dificuldade v)
       (jogador v) (computador v) (user_id v) (message v).
Definition com_dificuldade (v : t) (n : Z) : t :=
  Cria (estado v) (ultima_jogada v) (mensagem v) (tela v) n
       (jogador v) (computador v) (user_id v) (message v).
Definition com_jogadores (v : t) (j c : string) : t :=
  Cria (estado v) (ultima_jogada v) (mensagem v) (tela v) (dificuldade v)
       j c (user_id v) (message v).
Definition com_message (v : t) (m : option (Z * Z)) : t :=
  Cria (estado v) (ultima_jogada v) (mensagem v) (tela v) (dificuldade v)
       (jogador v) (computador v) (user_id v) m.

(** [__init__]; [agora] is what [time.time()] returns. *)
Definition init (agora : float) (uid : Z) : t :=
  {| estado := replicate 9 " "%string;
     ultima_jogada := agora;
     mensagem := "Olá!";
     tela := 0;
     dificuldade := 0;
     jogador := "X";
     computador := "O";
     user_id := uid;
     message := None |}.

(** [joga]: the value returned and the session afterwards. *)
Definition joga (agora : float) (self : t) (posicao : Z) (jog : string)
  : res bool * t :=
  let self := com_ultima_jogada self agora in
  match Py.getitem (estado self) posicao with
  | Raise e => (Raise e, self)
  | Ok c =>
      if String.eqb c " " then
        match Py.setitem (estado self) posicao jog with
        | Ok e' => (Ok true, com_mensagem (com_estado self e') "OK")
        | Raise e => (Raise e, self)
        end
      else
        (Ok false,
         com_mensagem self "Você já jogou nesta posição, escolha outra")
  end.

(** An inline keyboard: rows of buttons, each a text and its
    [callback_data]. *)
Definition Markup : Type := list (list (string * string)).

Definition botao (self : t) (i : Z) (dado : string) : res (string * string) :=
  match Py.getitem (estado self) i with
  | Ok c => Ok (c, dado)
  | Raise e => Raise e
  end.

Fixpoint todos {A} (l : list (res A)) : res (list A) :=
  match l with
  | [] => Ok []
  | Raise e :: _ => Raise e
  | Ok x :: r => match todos r with Ok xs => Ok (x :: xs) | Raise e => Raise e end
  end.

Definition constroi_grelha (self : t) : res Markup :=
  match todos [todos [botao self 0 "1"; botao self 1 "2"; botao self 2 "3"];
               todos [botao self 3 "4"; botao self 4 "5"; botao self 5 "6"];
               todos [botao self 6 "7"; botao self 7 "8"; botao self 8 "9"]] with
  | Ok linhas => Ok (app linhas [[("Recomeçar"%string, "recomecar"%string)]])
  | Raise e => Raise e
  end.

Definition nivel_de_dificuldade (self : t) : Markup :=
  [[("Fácil", "facil")]; [("Médio", "medio")]; [("Difícil", "dificil")]]%string.

Definition tipo_jogador (self : t) : Markup :=
  [[("X", "X")]; [("O", "O")]]%string.

End Velha.

(** ** The world outside the sessions

    A handler reads the clock, draws random numbers and calls the bot.
    [Ambiente] fixes the answers of the outside: the [n]-th interaction
    of a run reads component [n] of the stream it concerns. [Mundo] is
    everything the program holds and has done: the registry (sessions
    are objects shared by reference between the registry and a handler;
    a handler names the session it works on by its key, [guarda] being
    the mutation of that object), the number of interactions so far and
    the calls made to the bot. *)

Inductive Chamada : Type :=
| SendMessage (chat_id : Z) (texto : string) (markup : Velha.Markup)
| EditMessageText (ident : option (Z * Z)) (texto : string) (markup : Velha.Markup)
| AnswerCallbackQuery (query_id : Z) (texto : string).

Record Ambiente : Type := {
  relogio : nat -> float;            (* time.time() *)
  sorteio : nat -> nat;              (* the draw behind random.choice *)
  identificador : nat -> Z * Z;      (* message_identifier of a message sent *)
  falha : nat -> option excecao      (* exception raised by a bot call *)
}.

Record Mundo : Type := {
  partidas : gmap Z Velha.t;
  interacoes : nat;
  chamadas : list Chamada
}.

Definition M (A : Type) : Type := Ambiente -> Mundo -> res A * Mundo.

Definition ret {A} (a : A) : M A := fun _ w => (Ok a, w).

Definition levanta {A} (e : excecao) : M A := fun _ w => (Raise e, w).

Definition liga {A B} (m : M A) (k : A -> M B) : M B :=
  fun amb w =>
    match m amb w with
    | (Ok a, w') => k a amb w'
    | (Raise e, w') => (Raise e, w')
    end.

Notation "x <- m ;; k" := (liga m (fun x => k))
  (at level 100, m at next level, right associativity).
Notation "m ;;; k" := (liga m (fun _ => k))
  (at level 100, right associativity).

Definition de_res {A} (r : res A) : M A :=
  match r with Ok a => ret a | Raise e => levanta e end.

(** [try: m except e: pass] *)
Definition tenta (e : excecao) (m : M unit) : M unit :=
  fun amb w =>
    match m amb w with
    | (Raise e', w') =>
        if bool_decide (e' = e) then (Ok tt, w') else (Raise e', w')
    | r => r
    end.

Definition avanca (w : Mundo) : Mundo :=
  {| partidas := partidas w; interacoes := S (interacoes w);
     chamadas := chamadas w |}.

Definition com_partidas (w : Mundo) (p : gmap Z Velha.t) : Mundo :=
  {| partidas := p; interacoes := interacoes w; chamadas := chamadas w |}.

Definition time_time : M float :=
  fun amb w => (Ok (relogio amb (interacoes w)), avanca w).

Definition random_choice (l : list Z) : M Z :=
  match l with
  | [] => levanta IndexError
  | x :: _ =>
      fun amb w =>
        (Ok (nth (sorteio amb (interacoes w) mod length l)%nat l x), avanca w)
  end.

(** A call to the bot: logged, then it raises or returns. *)
Definition chama (c : Chamada) : M nat :=
  fun amb w =>
    let n := interacoes w in
    let w' := {| partidas := partidas w; interacoes := S n;
                 chamadas := chamadas w ++ [c] |} in
    match falha amb n with
    | Some e => (Raise e, w')
    | None => (Ok n, w')
    end.

Definition sendMessage (chat_id : Z) (texto : string) (markup : Velha.Markup)
  : M (Z * Z) :=
  n <- chama (SendMessage chat_id texto markup) ;;
  fun amb w => (Ok (identificador amb n), w).

Definition editMessageText (ident : option (Z * Z)) (texto : string)
           (markup : Velha.Markup) : M unit :=
  chama (EditMessageText ident texto markup) ;;; ret tt.

Definition answerCallbackQuery (query_id : Z) (texto : string) : M unit :=
  chama (AnswerCallbackQuery query_id texto) ;;; ret tt.

Definition le_partidas : M (gmap Z Velha.t) :=
  fun _ w => (Ok (partidas w), w).

Definition muda_partidas (f : gmap Z Velha.t -> gmap Z Velha.t) : M unit :=
  fun _ w => (Ok tt, com_partidas w (f (partidas w))).

(** The session object held under key [k] becomes [jogo]. *)
Definition guarda (k : Z) (jogo : Velha.t) : M unit :=
  muda_partidas (fun p => <[k := jogo]> p).

(** ** Class [Partidas]: the registry *)

Module Partidas.

Definition TIMEOUT : float := 900%float.  (* 15 * 60 *)

Definition pega_jogo (user_id : Z) : M Velha.t :=
  p <- le_partidas ;;
  match p !! user_id with
  | Some jogo => ret jogo
  | None =>
      agora <- time_time ;;
      let jogo := Velha.init agora user_id in
      muda_partidas (fun p => <[user_id := jogo]> p) ;;;
      ret jogo
  end.

Definition len : M nat :=
  p <- le_partidas ;; ret (size p).

Definition apaga (user_id : Z) : M unit :=
  p <- le_partidas ;;
  if bool_decide (is_Some (p !! user_id))
  then muda_partidas (fun p => delete user_id p)
  else ret tt.

(** The new session, held under the key [user_id] of the old one. *)
Definition novo_jogo (jogo : Velha.t) : M Velha.t :=
  let '(message, user_id) := (Velha.message jogo, Velha.user_id jogo) in
  apaga user_id ;;;
  novo <- pega_jogo user_id ;;
  let novo := Velha.com_message novo message in
  guarda user_id novo ;;;
  ret novo.

Fixpoint para_cada {A} (f : A -> M unit) (l : list A) : M unit :=
  match l with
  | [] => ret tt
  | x :: r => f x ;;; para_cada f r
  end.

Definition limpa_antigas : M unit :=
  agora <- time_time ;;
  p <- le_partidas ;;
  let a_remover :=
    fold_left
      (fun a_remover up =>
         if PrimFloat.ltb TIMEOUT
              (PrimFloat.sub agora (Velha.ultima_jogada (snd up)))
         then a_remover ++ [fst up] else a_remover)
      (map_to_list p) [] in
  para_cada apaga a_remover.

End Partidas.

(** ** Class [JogoDaVelha]: the controller *)

Module JogoDaVelha.

(** What the handlers read from a Telegram update. *)
Record Msg : Type := {
  query_id : Z;
  from_id : Z;
  chat_id : Z;
  query_data : string
}.

Definition msg_user_id (msg : Msg) : Z := from_id msg.
Definition msg_chat_id (msg : Msg) : Z := chat_id msg.

Definition pega_jogo (msg : Msg) : M Velha.t :=
  Partidas.pega_jogo (msg_user_id msg).

(** [reply_markup]; the session lives under key [k]. Returns the
    session afterwards. *)
Definition reply_markup (k : Z) (jogo : Velha.t) (chat : option Z)
  : M Velha.t :=
  let conteudo : res (Velha.Markup * string) :=
    if Velha.tela jogo =? 0 then
      Ok (Velha.nivel_de_dificuldade jogo,
          "Jogo da Velha - Escolha o nível de dificuldade"%string)
    else if Velha.tela jogo =? 1 then
      Ok (Velha.tipo_jogador jogo,
          "X sempre joga primeiro. Você quer jogar como X ou O?"%string)
    else if Velha.tela jogo =? 2 then
      match Velha.constroi_grelha jogo with
      | Ok g => Ok (g, if String.eqb (Velha.mensagem jogo) ""
                       then "Jogo da Velha"%string else Velha.mensagem jogo)
      | Raise e => Raise e
      end
    else Raise UnboundLocalError in
  match Velha.message jogo, chat with
  | None, Some c =>
      mm <- de_res conteudo ;;
      message <- sendMessage c (snd mm) (fst mm) ;;
      let jogo := Velha.com_message jogo (Some message) in
      guarda k jogo ;;; ret jogo
  | _, _ =>
      mm <- de_res conteudo ;;
      tenta TelegramError
            (editMessageText (Velha.message jogo) (snd mm) (fst mm)) ;;;
      ret jogo
  end.

Definition chat_handler (msg : Msg) : M unit :=
  jogo <- pega_jogo msg ;;
  reply_markup (msg_user_id msg) jogo (Some (msg_chat_id msg)) ;;; ret tt.

Definition configura_dificuldade (jogo : Velha.t) (query_data : string)
  : Velha.t :=
  if existsb (String.eqb query_data) ["facil"; "medio"; "dificil"]%string then
    let jogo :=
      if String.eqb query_data "facil" then Velha.com_dificuldade jogo 1
      else if String.eqb query_data "medio" then Velha.com_dificuldade jogo 2
      else if String.eqb query_data "dificil" then Velha.com_dificuldade jogo 3
      else jogo in
    Velha.com_tela jogo 1
  else jogo.

Definition configura_primeiro_jogador (jogo : Velha.t) (query_data : string)
  : Velha.t :=
  if existsb (String.eqb query_data) ["X"; "O"]%string then
    Velha.com_tela
      (Velha.com_jogadores jogo query_data
         (if String.eqb query_data "O" then "X" else "O"))
      2
  else jogo.

(** [verifica_resultado], with [vez_do_computador] for the call it makes
    to [joga_pelo_computador] when [computador] is false. *)
Definition verifica_resultado_com
           (vez_do_computador : Z -> Velha.t -> list string -> M Velha.t)
           (k : Z) (jogo : Velha.t) (computador : bool)
  : M (bool * Velha.t) :=
  let velha := Velhus.init (Velha.estado jogo) in
  let resultado := Velhus.resultado velha in
  if String.eqb resultado "?" then
    jogo <- (if negb computador then vez_do_computador k jogo velha
             else ret jogo) ;;
    ret (false, jogo)
  else
    let jogo :=
      if String.eqb resultado "*" then Velha.com_mensagem jogo "Empate"
      else if String.eqb resultado (Velha.jogador jogo)
           then Velha.com_mensagem jogo "Você ganhou!"
      else Velha.com_mensagem jogo "Você perdeu!" in
    let jogo := Velha.com_tela jogo 3 in
    guarda k jogo ;;; ret (true, jogo).

(** [joga_pelo_computador]; [velha] is the grid of the [Velhus] passed,
    [None] when the argument is left out. It ends with
    [verifica_resultado(jogo, computador=True)], which makes no further
    call to [joga_pelo_computador]. *)
Definition joga_pelo_computador_com (k : Z) (jogo : Velha.t)
           (velha : option (list string)) : M Velha.t :=
  let velha := match velha with
               | None => Velhus.init (Velha.estado jogo)
               | Some v => v
               end in
  let posicoes := Velhus.jogadas_possiveis velha in
  posicao <-
    (if (length posicoes =? 9)%nat || (Velha.dificuldade jogo =? 1) then
       random_choice posicoes
     else if Velha.dificuldade jogo =? 2 then
       l <- de_res (Velhus.melhor_jogada velha (Velha.computador jogo)
                                         (Velha.estado jogo) 2) ;;
       random_choice l
     else if Velha.dificuldade jogo =? 3 then
       l <- de_res (Velhus.melhor_jogada velha (Velha.computador jogo)
                                         (Velha.estado jogo) 9) ;;
       random_choice l
     else levanta UnboundLocalError) ;;
  agora <- time_time ;;
  let '(r, jogo) := Velha.joga agora jogo posicao (Velha.computador jogo) in
  guarda k jogo ;;;
  de_res r ;;;
  rj <- verifica_resultado_com (fun _ j _ => ret j) k jogo true ;;
  ret (snd rj).

Definition verifica_resultado (k : Z) (jogo : Velha.t) (computador : bool)
  : M (bool * Velha.t) :=
  verifica_resultado_com
    (fun k jogo velha => joga_pelo_computador_com k jogo (Some velha))
    k jogo computador.

Definition joga_pelo_computador (k : Z) (jogo : Velha.t) : M Velha.t :=
  joga_pelo_computador_com k jogo None.

Definition verifica_jogada (k : Z) (jogo : Velha.t) : M Velha.t :=
  rj <- verifica_resultado k jogo false ;; ret (snd rj).

(** [int(s)] for a string [s] of length 1 with [s.isdigit()] *)
Definition digito (s : string) : option Z :=
  match s with
  | String c EmptyString =>
      let n := Z.of_N (Ascii.N_of_ascii c) in
      if (48 <=? n) && (n <=? 57) then Some (n - 48) else None
  | _ => None
  end.

Definition callback_query (msg : Msg) : M unit :=
  let query_data := query_data msg in
  let k := msg_user_id msg in
  jogo <- pega_jogo msg ;;
  if Velha.tela jogo =? 0 then
    let jogo := configura_dificuldade jogo query_data in
    guarda k jogo ;;;
    reply_markup k jogo (Some (msg_chat_id msg)) ;;; ret tt
  else if Velha.tela jogo =? 1 then
    let jogo := configura_primeiro_jogador jogo query_data in
    guarda k jogo ;;;
    jogo <- (if String.eqb (Velha.computador jogo) "X"
             then joga_pelo_computador k jogo else ret jogo) ;;
    reply_markup k jogo (Some (msg_chat_id msg)) ;;; ret tt
  else if String.eqb query_data "recomecar" then
    jogo <- Partidas.novo_jogo jogo ;;
    reply_markup (Velha.user_id jogo) jogo (Some (msg_chat_id msg)) ;;; ret tt
  else
    match digito query_data with
    | Some d =>
        if Velha.tela jogo =? 2 then
          let posicao := d - 1 in
          agora <- time_time ;;
          let '(r, jogo) := Velha.joga agora jogo posicao (Velha.jogador jogo) in
          guarda k jogo ;;;
          jogou <- de_res r ;;
          if jogou : bool then
            jogo <- verifica_jogada k jogo ;;
            grelha <- de_res (Velha.constroi_grelha jogo) ;;
            editMessageText (Velha.message jogo)
                            (String.append "Velha: " (Velha.mensagem jogo))
                            grelha
          else answerCallbackQuery (query_id msg) "Escolha outra posição"
        else if Velha.tela jogo =? 3 then
          answerCallbackQuery
            (query_id msg)
            "Partida terminada. Escolha recomeçar para jogar de novo"
        else ret tt
    | None =>
        if Velha.tela jogo =? 3 then
          answerCallbackQuery
            (query_id msg)
            "Partida terminada. Escolha recomeçar para jogar de novo"
        else ret tt
    end.

End JogoDaVelha.

(** * Vocabulary of the properties *)

(** A cell of a well-formed grid. *)
Definition celula_valida (c : string) : Prop :=
  c = " "%string \/ c = "X"%string \/ c = "O"%string.

(** Symbol [s] holds every cell of one of the winning lines. *)
Definition vence (estado : list string) (s : string) : Prop :=
  exists p : gset Z,
    p ∈ Velhus.GANHANTES /\ forall i : Z, i ∈ p -> Py.getitem estado i = Ok s.

(** The score one turn of the loop records for a move, [None] when it
    records nothing. *)
Definition pontos (jogador : string) (estado : list string) (nivel nmax : Z)
           (recursa : list string -> string -> Z -> res Dict.t)
           (possivel : Z) : res (option Z) :=
  match Velhus.joga (Velhus.init estado) possivel jogador with
  | (Raise e, _) => Raise e
  | (Ok _, j) =>
      if String.eqb (Velhus.resultado j) "X" then Ok (Some (10 - nivel))
      else if String.eqb (Velhus.resultado j) "O" then Ok (Some (- (10 - nivel)))
      else if String.eqb (Velhus.resultado j) "?" && (nivel <? nmax) then
        match recursa j (Velhus.alterna jogador) (nivel + 1) with
        | Raise e => Raise e
        | Ok [] => Ok (Some 0)
        | Ok lresult =>
            match Velhus.melhor lresult (Velhus.alterna jogador) with
            | Raise e => Raise e
            | Ok v => Ok (Some v)
            end
        end
      else Ok None
  end.

(** The dict after a turn that records [o] for [possivel]. *)
Definition regista (o : res (option Z)) (possivel : Z) (result : Dict.t)
  : res Dict.t :=
  match o with
  | Raise e => Raise e
  | Ok None => Ok result
  | Ok (Some v) => Ok (Dict.set result possivel v)
  end.

(** The moves a score dict holds, in its order. *)
Definition chaves (d : Dict.t) : list Z := fst <$> d.

(** One turn of the loop records a score for the move. *)
Definition pontuada (jogador : string) (estado : list string) (nivel nmax : Z)
           (recursa : list string -> string -> Z -> res Dict.t)
           (possivel : Z) : bool :=
  match pontos jogador estado nivel nmax recursa possivel with
  | Ok (Some _) => true
  | _ => false
  end.

(** The score [proxima] gives at level [nivel] to a move that wins the
    game for [jogador]. *)
Definition pontos_de_vitoria (jogador : string) (nivel : Z) : Z :=
  if String.eqb jogador "X" then 10 - nivel else - (10 - nivel).

(** Move [p] is possible on the grid and wins the game for [jogador] at
    once. *)
Definition vitoria_imediata (estado : list string) (jogador : string) (p : Z)
  : Prop :=
  p ∈ Velhus.jogadas_possiveis estado /\
  exists estado' : list string,
    Velhus.joga (Velhus.init estado) p jogador = (Ok tt, estado') /\
    Velhus.resultado estado' = jogador.

(** Move [p] of [jogador] leaves the game undecided and the opponent a
    move that wins at once. *)
Definition deixa_vitoria (estado : list string) (jogador : string) (p : Z)
  : Prop :=
  p ∈ Velhus.jogadas_possiveis estado /\
  exists estado' : list string,
    Velhus.joga (Velhus.init estado) p jogador = (Ok tt, estado') /\
    Velhus.resultado estado' = "?"%string /\
    exists q : Z, vitoria_imediata estado' (Velhus.alterna jogador) q.

(** Move [p] of [jogador] wins the game, or leaves it undecided and the
    opponent no move that wins at once. *)
Definition segura (estado : list string) (jogador : string) (p : Z) : Prop :=
  p ∈ Velhus.jogadas_possiveis estado /\
  exists estado' : list string,
    Velhus.joga (Velhus.init estado) p jogador = (Ok tt, estado') /\
    (Velhus.resultado estado' = jogador \/
     Velhus.resultado estado' = "?"%string /\
     forall q : Z, ~ vitoria_imediata estado' (Velhus.alterna jogador) q).

(** A session is old at time [agora] when [agora - ultima_jogada], in
    binary64 arithmetic, exceeds 900 seconds. *)
Definition antiga (agora : float) (p : Velha.t) : bool :=
  PrimFloat.ltb Partidas.TIMEOUT (PrimFloat.sub agora (Velha.ultima_jogada p)).

(** An outside world where the clock stands at 5000, every draw is 0,
    messages sent get identifier (1, 1) and the bot never fails. *)
Definition ambiente_calmo : Ambiente :=
  {| relogio := fun _ => 5000%float;
     sorteio := fun _ => 0%nat;
     identificador := fun _ => (1, 1);
     falha := fun _ => None |}.

(** User 7 plays O against X at the highest level; X has moved four
    times, O three, and O is to move. *)
Definition partida_quase_cheia : Velha.t :=
  {| Velha.estado := ["X"; "O"; "X"; "X"; "O"; "O"; " "; "X"; " "]%string;
     Velha.ultima_jogada := 4990%float;
     Velha.mensagem := "OK";
     Velha.tela := 2;
     Velha.dificuldade := 3;
     Velha.jogador := "O";
     Velha.computador := "X";
     Velha.user_id := 7;
     Velha.message := Some (1, 1) |}.

(** User 7 presses the button that carries [dado]. *)
Definition toque (dado : string) : JogoDaVelha.Msg :=
  {| JogoDaVelha.query_id := 1; JogoDaVelha.from_id := 7;
     JogoDaVelha.chat_id := 1; JogoDaVelha.query_data := dado |}.

(** The program at its start: no session, nothing done. *)
Definition mundo_inicial : Mundo :=
  {| partidas := ∅; interacoes := 0; chamadas := [] |}.

(** User 7 presses buttons one after the other from the start, in the
    calm world; an exception ends its handler only. Returns what the last
    handler returned and the world left. *)
Definition corre (dados : list string) : res unit * Mundo :=
  fold_left
    (fun rw dado =>
       JogoDaVelha.callback_query (toque dado) ambiente_calmo (snd rw))
    dados (Ok tt, mundo_inicial).

(** The session [novo_jogo] leaves in place of [jogo], made at time
    [agora]. *)
Definition recomecada (agora : float) (jogo : Velha.t) : Velha.t :=
  Velha.com_message (Velha.init agora (Velha.user_id jogo)) (Velha.message jogo).

(** ** Well-formed sessions *)

(** The human and the computer hold the two symbols. *)
Definition simbolos (v : Velha.t) : Prop :=
  (Velha.jogador v = "X"%string /\ Velha.computador v = "O"%string) \/
  (Velha.jogador v = "O"%string /\ Velha.computador v = "X"%string).

(** The shape of a session held under key [k]: it belongs to user [k],
    its grid has 9 cells, each free, X or O; its stage is one of the four;
    a level is set from the second stage on, and not before; in the
    stages of the two menus no move has been made and the symbols are
    those of a new session. *)
Definition forma (k : Z) (v : Velha.t) : Prop :=
  Velha.user_id v = k /\
  length (Velha.estado v) = 9%nat /\
  Forall celula_valida (Velha.estado v) /\
  simbolos v /\
  0 <= Velha.tela v <= 3 /\
  (Velha.tela v = 0 -> Velha.dificuldade v = 0) /\
  (1 <= Velha.tela v -> 1 <= Velha.dificuldade v <= 3) /\
  (Velha.tela v <= 1 ->
   Velha.estado v = replicate 9 " "%string /\
   Velha.computador v = "O"%string).

(** The stage agrees with the grid: a game being played is undecided, a
    finished game is decided. *)
Definition coerente (v : Velha.t) : Prop :=
  (Velha.tela v = 2 -> Velhus.resultado (Velha.estado v) = "?"%string) /\
  (Velha.tela v = 3 -> Velhus.resultado (Velha.estado v) <> "?"%string).

Definition boa (k : Z) (v : Velha.t) : Prop := forma k v /\ coerente v.

(** Every session of the registry is well formed. *)
Definition registo_bom (w : Mundo) : Prop :=
  forall (k : Z) (v : Velha.t), partidas w !! k = Some v -> boa k v.

(** The exceptions a handler may end with: the [ValueError] of a search
    that found nothing, or what a call to the bot raised. *)
Definition permitida (amb : Ambiente) (e : excecao) : Prop :=
  e = ValueError \/ exists n : nat, falha amb n = Some e.

(** What a computation does to the session held under key [k], which is
    [jogo] when it starts: it leaves every other key alone, and the
    session it leaves under [k] and what it returns satisfy [Q]. *)
Definition efeito {A} (amb : Ambiente) (k : Z) (jogo : Velha.t) (m : M A)
           (Q : res A -> Velha.t -> Prop) : Prop :=
  forall w : Mundo,
    partidas w !! k = Some jogo ->
    exists jogo' : Velha.t,
      partidas (snd (m amb w)) = <[k := jogo']> (partidas w) /\
      Q (fst (m amb w)) jogo'.

(** ** The course of a game *)

(** The message that closes a game whose grid gives [resultado], for the
    human playing [jogador]. *)
Definition mensagem_final (resultado jogador : string) : string :=
  if String.eqb resultado "*" then "Empate"
  else if String.eqb resultado jogador then "Você ganhou!"
  else "Você perdeu!".

(** The session once its game is closed. *)
Definition terminada (v : Velha.t) : Velha.t :=
  Velha.com_tela
    (Velha.com_mensagem
       v (mensagem_final (Velhus.resultado (Velha.estado v)) (Velha.jogador v)))
    3.

(** The session after its grid is looked at: closed if the grid is
    decided, as it was if not. *)
Definition verificada (v : Velha.t) : Velha.t :=
  if String.eqb (Velhus.resultado (Velha.estado v)) "?" then v
  else terminada v.

(** The session after [jog] marks the free cell [n] at time [agora]. *)
Definition jogada (v : Velha.t) (agora : float) (n : nat) (jog : string)
  : Velha.t :=
  Velha.com_mensagem
    (Velha.com_estado (Velha.com_ultima_jogada v agora)
                      (<[n := jog]> (Velha.estado v)))
    "OK".

(** The session [j'] and the outcome [r] after the grid of [jogo] is
    looked at following a move of the human: a decided game is closed;
    otherwise the computer marks a free cell and the grid is looked at
    again, unless its search raises, which leaves the session as it
    was. *)
Definition resposta {A} (jogo : Velha.t) (r : res A) (j' : Velha.t) : Prop :=
  if String.eqb (Velhus.resultado (Velha.estado jogo)) "?" then
    match r with
    | Ok _ =>
        exists (p : Z) (agora : float),
          p ∈ Velhus.jogadas_possiveis (Velha.estado jogo) /\
          j' = verificada (jogada jogo agora (Z.to_nat p)
                                  (Velha.computador jogo))
    | Raise _ => j' = jogo
    end
  else j' = terminada jogo /\ exists a : A, r = Ok a.

(** The depth of the search of the computer at the level of session
    [v]: 2 at level 2, 9 at level 3. *)
Definition profundidade (v : Velha.t) : Z :=
  if Velha.dificuldade v =? 2 then 2 else 9.

(** The cells the computer draws its move from in session [v]: the free
    cells when the grid is empty or the level is 1; otherwise the moves
    its search returns. *)
Definition escolha (v : Velha.t) (p : Z) : Prop :=
  if (length (Velhus.jogadas_possiveis (Velha.estado v)) =? 9)%nat
     || (Velha.dificuldade v =? 1)
  then p ∈ Velhus.jogadas_possiveis (Velha.estado v)
  else exists l : list Z,
         Velhus.melhor_jogada (Velha.estado v) (Velha.computador v)
                              (Velha.estado v) (profundidade v) = Ok l /\
         p ∈ l.

(** The level a token of the first menu stands for. *)
Definition nivel_de (dado : string) : option Z :=
  if String.eqb dado "facil" then Some 1
  else if String.eqb dado "medio" then Some 2
  else if String.eqb dado "dificil" then Some 3
  else None.

(** The session [j'] and the outcome [r] of the handler after the human
    has made the move that gives session [j2]: a decided game is closed;
    otherwise the computer marks a free cell and the game is closed if
    that decides it, unless the search of the computer raised
    [ValueError], which leaves [j2]. *)
Definition turno {A} (j2 : Velha.t) (r : res A) (j' : Velha.t) : Prop :=
  if String.eqb (Velhus.resultado (Velha.estado j2)) "?" then
    (j' = j2 /\ r = Raise ValueError) \/
    (exists (p : Z) (agora : float),
       p ∈ Velhus.jogadas_possiveis (Velha.estado j2) /\
       j' = verificada (jogada j2 agora (Z.to_nat p) (Velha.computador j2)))
  else j' = terminada j2.

(** What a handler leaves: a well-formed session, and no exception but
    the permitted ones. *)
Definition final {A} (amb : Ambiente) (k : Z) (r : res A) (j : Velha.t)
  : Prop :=
  boa k j /\ forall e, r = Raise e -> permitida amb e.

(** * Properties *)

(** ** Indexing *)

Lemma indice_nat (n k : nat) :
  Py.indice n (Z.of_nat k) = if decide (k < n)%nat then Some k else None.
Proof.
  unfold Py.indice.
  destruct (Z.leb_spec 0 (Z.of_nat k)); [|lia].
  destruct (Z.ltb_spec (Z.of_nat k) (Z.of_nat n)), (decide (k < n)%nat);
    try lia; [|done].
  by rewrite Nat2Z.id.
Qed.

Lemma indice_bound (n : nat) (i : Z) (k : nat) :
  Py.indice n i = Some k -> (k < n)%nat.
Proof.
  unfold Py.indice.
  destruct (Z.leb_spec 0 i).
  - destruct (Z.ltb_spec i (Z.of_nat n)); [|done].
    intros [= <-]. lia.
  - destruct (Z.leb_spec (- Z.of_nat n) i); [|done].
    intros [= <-]. lia.
Qed.

Lemma getitem_nat {A} (l : list A) (k : nat) (x : A) :
  Py.getitem l (Z.of_nat k) = Ok x <-> l !! k = Some x.
Proof.
  unfold Py.getitem. rewrite indice_nat.
  destruct (decide (k < length l)%nat) as [Hk|Hk].
  - destruct (l !! k) eqn:E; split; congruence.
  - rewrite lookup_ge_None_2 by lia. split; congruence.
Qed.

Lemma enumerate_de_elem {A} (l : list A) (s i : Z) (x : A) :
  (i, x) ∈ Py.enumerate_de s l <->
  exists k : nat, i = s + Z.of_nat k /\ l !! k = Some x.
Proof.
  revert s. induction l as [|y l IH]; intros s; simpl.
  - split; [by intros ?%elem_of_nil | by intros (k & _ & ?)].
  - rewrite elem_of_cons, IH. split.
    + intros [[= -> ->] | (k & -> & Hk)].
      * exists 0%nat. split; [lia | done].
      * exists (S k). split; [lia | done].
    + intros ([|k] & -> & Hk); simpl in Hk.
      * left. injection Hk as ->. f_equal. lia.
      * right. exists k. split; [lia | done].
Qed.

Lemma posicoes_de_elem (fonte : list string) (c : string) (i : Z) :
  i ∈ posicoes_de fonte c <->
  exists k : nat, i = Z.of_nat k /\ fonte !! k = Some c.
Proof.
  unfold posicoes_de, Py.enumerate.
  rewrite list_elem_of_fmap. split.
  - intros ([j x] & -> & Hin). apply list_elem_of_filter in Hin as [Hc Hin].
    apply enumerate_de_elem in Hin as (k & -> & Hk). simpl in *.
    apply Is_true_true, String.eqb_eq in Hc. subst x.
    exists k. split; [lia | done].
  - intros (k & -> & Hk). exists (Z.of_nat k, c). split; [done|].
    apply list_elem_of_filter. split.
    + simpl. apply Is_true_true, String.eqb_refl.
    + apply enumerate_de_elem. exists k. split; [lia | done].
Qed.

Lemma posicoes_de_getitem (fonte : list string) (c : string) (i : Z) :
  i ∈ posicoes_de fonte c <-> 0 <= i /\ Py.getitem fonte i = Ok c.
Proof.
  rewrite posicoes_de_elem. split.
  - intros (k & -> & Hk). split; [lia | by apply getitem_nat].
  - intros [Hi Hg]. exists (Z.to_nat i).
    rewrite <- (Z2Nat.id i) in Hg by done.
    apply getitem_nat in Hg. split; [lia | done].
Qed.

(** ** The grid: moves *)

Lemma joga_ocupada (estado : list string) (posicao : Z) (jogador c : string) :
  Py.getitem estado posicao = Ok c -> c <> " "%string ->
  Velhus.joga estado posicao jogador = (Raise ValueError, estado).
Proof.
  unfold Velhus.joga. intros -> Hc. apply String.eqb_neq in Hc. by rewrite Hc.
Qed.

Lemma joga_livre (estado : list string) (posicao : Z) (jogador : string) :
  Py.getitem estado posicao = Ok " "%string ->
  exists k : nat,
    Py.indice (length estado) posicao = Some k /\
    Velhus.joga estado posicao jogador = (Ok tt, <[k := jogador]> estado).
Proof.
  unfold Velhus.joga. intros Hg. rewrite Hg. simpl.
  unfold Py.getitem, Py.setitem in *.
  destruct (Py.indice (length estado) posicao) as [k|]; [|done].
  by exists k.
Qed.

(** C7. [Velhus.joga] on a cell that is not free raises [ValueError] and
    leaves the grid as it was; on a free cell it succeeds, writes the
    player's symbol in that cell and leaves every other cell as it was. *)
Theorem joga_ocupada_ou_livre (estado : list string) (posicao : Z)
        (jogador : string) :
  (forall c, Py.getitem estado posicao = Ok c -> c <> " "%string ->
             Velhus.joga estado posicao jogador = (Raise ValueError, estado)) /\
  (Py.getitem estado posicao = Ok " "%string ->
   exists (k : nat) (estado' : list string),
     Py.indice (length estado) posicao = Some k /\
     Velhus.joga estado posicao jogador = (Ok tt, estado') /\
     length estado' = length estado /\
     estado' !! k = Some jogador /\
     forall k' : nat, k' <> k -> estado' !! k' = estado !! k').
Proof.
  split; [intros c; apply joga_ocupada|].
  intros Hg. destruct (joga_livre estado posicao jogador Hg) as (k & Ek & Hj).
  exists k, (<[k := jogador]> estado).
  pose proof (indice_bound _ _ _ Ek) as Hk.
  repeat split; try done.
  - apply length_insert.
  - by apply list_lookup_insert_eq.
  - intros k' Hne. by apply list_lookup_insert_ne.
Qed.

Lemma joga_ocupada_ou_livre_witness :
  Velhus.joga ["X"; " "]%string 0 "O" = (Raise ValueError, ["X"; " "]%string) /\
  exists (k : nat) (estado' : list string),
    Py.indice 2 (-1) = Some k /\
    Velhus.joga ["X"; " "]%string (-1) "O" = (Ok tt, estado') /\
    length estado' = 2%nat /\
    estado' !! k = Some "O"%string /\
    forall k' : nat, k' <> k -> estado' !! k' = ["X"; " "]%string !! k'.
Proof.
  split.
  - apply (proj1 (joga_ocupada_ou_livre ["X"; " "]%string 0 "O") "X"%string).
    + reflexivity.
    + discriminate.
  - apply (proj2 (joga_ocupada_ou_livre ["X"; " "]%string (-1) "O")).
    reflexivity.
Defined.

(** ** The grid: who holds which cell *)

(** C8. On a grid of 9 cells each free, X or O, the free positions, the
    positions of X and the positions of O are pairwise disjoint and
    together are the indices 0 to 8. *)
Theorem posicoes_particao (estado : list string) :
  length estado = 9%nat ->
  Forall celula_valida estado ->
  let livres := Velhus.jogadas_possiveis estado in
  let jX := fst (Velhus.posicoes_por_jogador estado) in
  let jO := snd (Velhus.posicoes_por_jogador estado) in
  (forall i : Z, (i ∈ livres \/ i ∈ jX \/ i ∈ jO) <-> 0 <= i < 9) /\
  (forall i : Z, ~ (i ∈ livres /\ i ∈ jX)) /\
  (forall i : Z, ~ (i ∈ livres /\ i ∈ jO)) /\
  (forall i : Z, ~ (i ∈ jX /\ i ∈ jO)).
Proof.
  intros Hlen Hval. simpl. unfold Velhus.jogadas_possiveis.
  assert (Hdisj : forall c d : string,
             c <> d ->
             forall i : Z,
               ~ (i ∈ posicoes_de estado c /\ i ∈ posicoes_de estado d)).
  { intros c d Hne i [(k & -> & Hk)%posicoes_de_elem (k' & Hkk & Hk')%posicoes_de_elem].
    apply Nat2Z.inj in Hkk. subst k'. congruence. }
  split; [|repeat split; apply Hdisj; discriminate].
  intros i. rewrite !posicoes_de_elem. split.
  - intros [(k & -> & Hk) | [(k & -> & Hk) | (k & -> & Hk)]];
      apply lookup_lt_Some in Hk; lia.
  - intros Hi.
    destruct (lookup_lt_is_Some_2 estado (Z.to_nat i)) as [c Hc]; [lia|].
    rewrite Forall_forall in Hval.
    destruct (Hval c) as [-> | [-> | ->]].
    { by eapply list_elem_of_lookup_2. }
    all: [> left | right; left | right; right];
      exists (Z.to_nat i); (split; [lia | done]).
Qed.

Lemma posicoes_particao_witness :
  let estado := ["X"; "O"; " "; " "; "X"; " "; "O"; " "; " "]%string in
  let livres := Velhus.jogadas_possiveis estado in
  let jX := fst (Velhus.posicoes_por_jogador estado) in
  let jO := snd (Velhus.posicoes_por_jogador estado) in
  (forall i : Z, (i ∈ livres \/ i ∈ jX \/ i ∈ jO) <-> 0 <= i < 9) /\
  (forall i : Z, ~ (i ∈ livres /\ i ∈ jX)) /\
  (forall i : Z, ~ (i ∈ livres /\ i ∈ jO)) /\
  (forall i : Z, ~ (i ∈ jX /\ i ∈ jO)).
Proof.
  apply (posicoes_particao ["X"; "O"; " "; " "; "X"; " "; "O"; " "; " "]%string).
  - reflexivity.
  - repeat (apply List.Forall_cons; [unfold celula_valida; auto|]).
    apply List.Forall_nil.
Defined.

(** ** The grid: outcome *)

Lemma GANHANTES_nao_negativos (p : gset Z) (i : Z) :
  p ∈ Velhus.GANHANTES -> i ∈ p -> 0 <= i.
Proof.
  unfold Velhus.GANHANTES. rewrite list_elem_of_fmap.
  intros (l & -> & Hl) Hi. apply elem_of_list_to_set in Hi.
  repeat (apply elem_of_cons in Hl as [-> | Hl];
          [repeat (apply elem_of_cons in Hi as [-> | Hi]; [lia|]);
           by apply elem_of_nil in Hi|]).
  by apply elem_of_nil in Hl.
Qed.

Lemma diferenca_vazia (p s : gset Z) :
  Nat.eqb (size (p ∖ s)) 0 = true <-> forall i : Z, i ∈ p -> i ∈ s.
Proof.
  rewrite Nat.eqb_eq, size_empty_iff. split.
  - intros H i Hi. destruct (decide (i ∈ s)) as [|Hn]; [done|].
    exfalso. apply (not_elem_of_empty (C := gset Z) i), H.
    by apply elem_of_difference.
  - intros H. apply elem_of_equiv_empty. intros i [Hi Hn]%elem_of_difference.
    by apply Hn, H.
Qed.

Lemma ganhou_vence (estado : list string) (s jogador : string) :
  Velhus.ganhou (posicoes_de estado s) jogador = true <-> vence estado s.
Proof.
  unfold Velhus.ganhou, vence. rewrite existsb_exists.
  split; intros (p & Hp & H); exists p.
  - apply list_elem_of_In in Hp. split; [done|]. intros i Hi.
    rewrite diferenca_vazia in H. specialize (H i Hi).
    apply elem_of_list_to_set, posicoes_de_getitem in H. tauto.
  - split; [by apply list_elem_of_In|].
    apply diferenca_vazia. intros i Hi.
    apply elem_of_list_to_set, posicoes_de_getitem.
    split; [by eapply GANHANTES_nao_negativos | by apply H].
Qed.

Lemma ganhou_nao_vence (estado : list string) (s jogador : string) :
  Velhus.ganhou (posicoes_de estado s) jogador = false <-> ~ vence estado s.
Proof.
  rewrite <- (ganhou_vence estado s jogador).
  destruct (Velhus.ganhou _ _); split; congruence.
Qed.

(** C4. [resultado] is ["X"] exactly when X holds a winning line; ["O"]
    exactly when O holds one and X none (X is looked at first, so a grid
    where both hold a line yields ["X"]); ["*"] exactly when no move is
    left and neither holds a line; ["?"] in the remaining case. The grids
    [X,X,X,_,O,O,_,_,_], [X,O,X,O,X,O,O,X,O] and the empty one yield
    ["X"], ["*"] and ["?"]. *)
Theorem resultado_correto :
  (forall estado : list string,
     (Velhus.resultado estado = "X"%string <-> vence estado "X") /\
     (Velhus.resultado estado = "O"%string <->
      vence estado "O" /\ ~ vence estado "X") /\
     (Velhus.resultado estado = "*"%string <->
      Velhus.jogadas_possiveis estado = [] /\
      ~ vence estado "X" /\ ~ vence estado "O") /\
     (Velhus.resultado estado = "?"%string <->
      Velhus.jogadas_possiveis estado <> [] /\
      ~ vence estado "X" /\ ~ vence estado "O") /\
     (vence estado "X" -> vence estado "O" ->
      Velhus.resultado estado = "X"%string)) /\
  Velhus.resultado ["X"; "X"; "X"; " "; "O"; "O"; " "; " "; " "]%string
  = "X"%string /\
  Velhus.resultado ["X"; "O"; "X"; "O"; "X"; "O"; "O"; "X"; "O"]%string
  = "*"%string /\
  Velhus.resultado (replicate 9 " "%string) = "?"%string.
Proof.
  split; [|by vm_compute].
  intros estado. unfold Velhus.resultado, Velhus.posicoes_por_jogador.
  destruct (Velhus.ganhou (posicoes_de estado "X") "X") eqn:EX.
  { apply ganhou_vence in EX. intuition (discriminate || tauto). }
  apply ganhou_nao_vence in EX.
  destruct (Velhus.ganhou (posicoes_de estado "O") "O") eqn:EO.
  { apply ganhou_vence in EO. intuition (discriminate || tauto). }
  apply ganhou_nao_vence in EO.
  destruct (Velhus.jogadas_possiveis estado) eqn:EJ; simpl;
    intuition (discriminate || tauto).
Qed.

Lemma resultado_correto_witness :
  Velhus.resultado ["X"; "X"; "X"; "O"; "O"; "O"; " "; " "; " "]%string
  = "X"%string.
Proof.
  pose proof (proj1 resultado_correto
                    ["X"; "X"; "X"; "O"; "O"; "O"; " "; " "; " "]%string)
    as (HX & _ & _ & _ & Hambos).
  apply Hambos.
  - apply HX. reflexivity.
  - apply (ganhou_vence _ "O" "O"). vm_compute. reflexivity.
Defined.

(** ** Best score *)

Lemma fold_max_spec (r : list Z) (x : Z) :
  fold_left Z.max r x ∈ x :: r /\
  forall v : Z, v ∈ x :: r -> v <= fold_left Z.max r x.
Proof.
  revert x. induction r as [|y r IH]; intros x; simpl.
  - split; [apply list_elem_of_here|]. intros v ->%list_elem_of_singleton. lia.
  - destruct (IH (Z.max x y)) as [Hin Hub]. split.
    + apply elem_of_cons in Hin as [Hin | Hin].
      * rewrite Hin. destruct (Z.max_spec x y) as [[_ ->] | [_ ->]];
          [apply list_elem_of_further|]; apply list_elem_of_here.
      * by do 2 apply list_elem_of_further.
    + intros v Hv.
      assert (Hm : Z.max x y <= fold_left Z.max r (Z.max x y))
        by apply Hub, list_elem_of_here.
      apply elem_of_cons in Hv as [-> | Hv]; [lia|].
      apply elem_of_cons in Hv as [-> | Hv]; [lia|].
      by apply Hub, list_elem_of_further.
Qed.

Lemma fold_min_spec (r : list Z) (x : Z) :
  fold_left Z.min r x ∈ x :: r /\
  forall v : Z, v ∈ x :: r -> fold_left Z.min r x <= v.
Proof.
  revert x. induction r as [|y r IH]; intros x; simpl.
  - split; [apply list_elem_of_here|]. intros v ->%list_elem_of_singleton. lia.
  - destruct (IH (Z.min x y)) as [Hin Hlb]. split.
    + apply elem_of_cons in Hin as [Hin | Hin].
      * rewrite Hin. destruct (Z.min_spec x y) as [[_ ->] | [_ ->]];
          [|apply list_elem_of_further]; apply list_elem_of_here.
      * by do 2 apply list_elem_of_further.
    + intros v Hv.
      assert (Hm : fold_left Z.min r (Z.min x y) <= Z.min x y)
        by apply Hlb, list_elem_of_here.
      apply elem_of_cons in Hv as [-> | Hv]; [lia|].
      apply elem_of_cons in Hv as [-> | Hv]; [lia|].
      by apply Hlb, list_elem_of_further.
Qed.

(** C6. On a non-empty dict, [melhor] for X is the largest score and for
    O the smallest: a score of the dict that bounds all its scores. On
    {0: 5, 1: -3, 2: 5} it is 5 for X and -3 for O. *)
Theorem melhor_max_min :
  (forall result : Dict.t,
     result <> [] ->
     (exists m : Z,
        Velhus.melhor result "X" = Ok m /\
        m ∈ Dict.values result /\
        forall v : Z, v ∈ Dict.values result -> v <= m) /\
     (exists m : Z,
        Velhus.melhor result "O" = Ok m /\
        m ∈ Dict.values result /\
        forall v : Z, v ∈ Dict.values result -> m <= v)) /\
  Velhus.melhor [(0, 5); (1, -3); (2, 5)] "X" = Ok 5 /\
  Velhus.melhor [(0, 5); (1, -3); (2, 5)] "O" = Ok (-3).
Proof.
  split; [|by vm_compute].
  intros [|[k x] r] Hne; [done|].
  unfold Velhus.melhor, Dict.values. simpl. split.
  - exists (fold_left Z.max (snd <$> r) x). split; [done|]. apply fold_max_spec.
  - exists (fold_left Z.min (snd <$> r) x). split; [done|]. apply fold_min_spec.
Qed.

Lemma melhor_max_min_witness :
  (exists m : Z,
     Velhus.melhor [(4, 2); (7, 9)] "X" = Ok m /\
     m ∈ Dict.values [(4, 2); (7, 9)] /\
     forall v : Z, v ∈ Dict.values [(4, 2); (7, 9)] -> v <= m) /\
  (exists m : Z,
     Velhus.melhor [(4, 2); (7, 9)] "O" = Ok m /\
     m ∈ Dict.values [(4, 2); (7, 9)] /\
     forall v : Z, v ∈ Dict.values [(4, 2); (7, 9)] -> m <= v).
Proof.
  apply (proj1 melhor_max_min [(4, 2); (7, 9)]). discriminate.
Defined.

(** ** Score dicts *)

Lemma get_set_eq (d : Dict.t) (k v : Z) : Dict.get (Dict.set d k v) k = Some v.
Proof.
  induction d as [|[k' v'] d IH]; simpl.
  - by rewrite Z.eqb_refl.
  - destruct (Z.eqb_spec k' k) as [->|Hne]; simpl.
    + by rewrite Z.eqb_refl.
    + by destruct (Z.eqb_spec k' k).
Qed.

Lemma get_set_ne (d : Dict.t) (k k' v : Z) :
  k <> k' -> Dict.get (Dict.set d k v) k' = Dict.get d k'.
Proof.
  intros Hne. induction d as [|[k0 v0] d IH]; simpl.
  - by destruct (Z.eqb_spec k k').
  - destruct (Z.eqb_spec k0 k) as [->|Hne0]; simpl.
    + by destruct (Z.eqb_spec k k').
    + by rewrite IH.
Qed.

(** ** The search: unfolding [proxima] *)

Section Passo.

Variables (jogador : string) (estado : list string) (nivel nmax : Z).

Lemma passo_pontos recursa (possivel : Z) (result : Dict.t) :
  Velhus.passo recursa jogador estado nivel nmax possivel result
  = regista (pontos jogador estado nivel nmax recursa possivel) possivel result.
Proof.
  unfold Velhus.passo, pontos.
  destruct (Velhus.joga _ _ _) as [[[]|e] j]; [|done].
  destruct (String.eqb (Velhus.resultado j) "X"); [done|].
  destruct (String.eqb (Velhus.resultado j) "O"); [done|]. simpl.
  destruct (String.eqb (Velhus.resultado j) "?" && (nivel <? nmax)); [|done].
  destruct (recursa _ _ _) as [[|kv lresult]|e]; [done| |done]. simpl.
  by destruct (Velhus.melhor _ _).
Qed.

Lemma pontos_ext recursa1 recursa2 (possivel : Z) :
  (nivel < nmax ->
   forall j outro, recursa1 j outro (nivel + 1) = recursa2 j outro (nivel + 1)) ->
  pontos jogador estado nivel nmax recursa1 possivel = pontos jogador estado nivel nmax recursa2 possivel.
Proof.
  intros H. unfold pontos.
  destruct (Velhus.joga _ _ _) as [[[]|e] j]; [|done].
  destruct (String.eqb (Velhus.resultado j) "X"); [done|].
  destruct (String.eqb (Velhus.resultado j) "O"); [done|].
  destruct (Z.ltb_spec nivel nmax).
  - by rewrite H.
  - by rewrite andb_false_r.
Qed.

Lemma percorre_ext recursa1 recursa2 (possiveis : list Z) (result : Dict.t) :
  (nivel < nmax ->
   forall j outro, recursa1 j outro (nivel + 1) = recursa2 j outro (nivel + 1)) ->
  Velhus.percorre (Velhus.passo recursa1 jogador estado nivel nmax)
                  possiveis result
  = Velhus.percorre (Velhus.passo recursa2 jogador estado nivel nmax)
                    possiveis result.
Proof.
  intros H. revert result.
  induction possiveis as [|p l IH]; intros result; simpl; [done|].
  rewrite !passo_pontos, (pontos_ext recursa1 recursa2 p H).
  destruct (regista _ _ _); [apply IH | done].
Qed.

(** Once the loop has recorded a score for a move, or meets the move,
    its result holds that score for the move. *)
Lemma percorre_get recursa (possiveis : list Z) (result result' : Dict.t)
      (possivel v : Z) :
  Velhus.percorre (Velhus.passo recursa jogador estado nivel nmax)
                  possiveis result = Ok result' ->
  pontos jogador estado nivel nmax recursa possivel = Ok (Some v) ->
  possivel ∈ possiveis \/ Dict.get result possivel = Some v ->
  Dict.get result' possivel = Some v.
Proof.
  intros Hper Hp. revert result Hper.
  induction possiveis as [|q l IH]; intros result Hper Hin; simpl in Hper.
  - destruct Hin as [Hin|Hin]; [by apply elem_of_nil in Hin|]. congruence.
  - rewrite passo_pontos in Hper.
    destruct (regista _ _ _) as [r1|] eqn:Er; [|done].
    apply (IH r1 Hper).
    destruct (decide (q = possivel)) as [->|Hne].
    + right. rewrite Hp in Er. simpl in Er. injection Er as <-.
      apply get_set_eq.
    + destruct Hin as [Hin|Hin];
        [apply elem_of_cons in Hin as [Heq|Hin]; [congruence|by left]|].
      right. unfold regista in Er.
      destruct (pontos jogador estado nivel nmax recursa q) as [[w|]|]; simplify_eq; [|done].
      by rewrite get_set_ne.
Qed.

Lemma percorre_ok recursa (possiveis : list Z) (result : Dict.t) :
  (forall p, p ∈ possiveis -> exists o, pontos jogador estado nivel nmax recursa p = Ok o) ->
  exists result',
    Velhus.percorre (Velhus.passo recursa jogador estado nivel nmax)
                    possiveis result = Ok result'.
Proof.
  revert result.
  induction possiveis as [|q l IH]; intros result H; simpl; [by eexists|].
  rewrite passo_pontos.
  destruct (H q) as [o Ho]; [apply list_elem_of_here|].
  rewrite Ho. destruct o as [v|]; simpl; apply IH;
    intros p Hp; apply H; by apply list_elem_of_further.
Qed.

Lemma percorre_levanta recursa (possiveis : list Z) (result : Dict.t)
      (e : excecao) :
  Velhus.percorre (Velhus.passo recursa jogador estado nivel nmax)
                  possiveis result = Raise e ->
  exists p, p ∈ possiveis /\
            pontos jogador estado nivel nmax recursa p = Raise e.
Proof.
  revert result.
  induction possiveis as [|q l IH]; intros result; simpl; [done|].
  rewrite passo_pontos.
  destruct (pontos jogador estado nivel nmax recursa q) as [[v|]|e'] eqn:Eq;
    simpl.
  - intros (p & Hp & H)%IH. exists p. split; [by apply list_elem_of_further|done].
  - intros (p & Hp & H)%IH. exists p. split; [by apply list_elem_of_further|done].
  - intros [= ->]. exists q. split; [apply list_elem_of_here | done].
Qed.

End Passo.

Lemma proxima_ate_bastante (nmax : Z) (l1 l2 : nat) :
  forall (self_estado : list string) (jogador : string) (estado : list string)
         (nivel : Z),
    (Z.to_nat (nmax - nivel) <= l1)%nat ->
    (Z.to_nat (nmax - nivel) <= l2)%nat ->
    Velhus.proxima_ate l1 self_estado jogador estado nivel nmax
    = Velhus.proxima_ate l2 self_estado jogador estado nivel nmax.
Proof.
  revert l2. induction l1 as [|l1 IH]; intros [|l2] se jog est nivel H1 H2;
    simpl; apply percorre_ext; intros Hlt j outro; try lia.
  apply IH; lia.
Qed.

(** [proxima] satisfies the recursive equation of the method. *)
Lemma proxima_eq (self_estado : list string) (jogador : string)
      (estado : list string) (nivel nmax : Z) :
  Velhus.proxima self_estado jogador estado nivel nmax
  = Velhus.percorre
      (Velhus.passo (fun j outro n => Velhus.proxima j outro j n nmax)
                    jogador estado nivel nmax)
      (Velhus.jogadas_possiveis self_estado) Dict.vazio.
Proof.
  unfold Velhus.proxima at 1.
  destruct (Z.to_nat (nmax - nivel)) as [|l] eqn:El; simpl;
    apply percorre_ext; intros Hlt j outro; [lia|].
  unfold Velhus.proxima. apply proxima_ate_bastante; lia.
Qed.

Lemma melhor_nao_vazio (kv : Z * Z) (d : Dict.t) (jogador : string) :
  exists v : Z, Velhus.melhor (kv :: d) jogador = Ok v.
Proof.
  unfold Velhus.melhor. destruct (String.eqb jogador "X"); by eexists.
Qed.

Lemma init_nao_vazio (estado : list string) (i : Z) (c : string) :
  i ∈ posicoes_de estado c -> Velhus.init estado = estado.
Proof.
  intros (k & _ & Hk)%posicoes_de_elem. by destruct estado.
Qed.

(** A possible move can be played. *)
Lemma joga_possivel (estado : list string) (possivel : Z) (jogador : string) :
  possivel ∈ Velhus.jogadas_possiveis estado ->
  exists estado',
    Velhus.joga (Velhus.init estado) possivel jogador = (Ok tt, estado').
Proof.
  intros Hin. rewrite (init_nao_vazio _ _ _ Hin).
  apply posicoes_de_getitem in Hin as [_ Hg].
  destruct (joga_livre estado possivel jogador Hg) as (k & _ & He').
  by eexists.
Qed.

Lemma pontos_total (jogador : string) (estado : list string) (nivel nmax : Z)
      recursa (possivel : Z) :
  (nivel < nmax ->
   forall j outro, exists r : Dict.t, recursa j outro (nivel + 1) = Ok r) ->
  possivel ∈ Velhus.jogadas_possiveis estado ->
  exists o, pontos jogador estado nivel nmax recursa possivel = Ok o.
Proof.
  intros Hrec Hp. unfold pontos.
  destruct (joga_possivel estado possivel jogador Hp) as [e' ->].
  destruct (String.eqb (Velhus.resultado e') "X"); [by eexists|].
  destruct (String.eqb (Velhus.resultado e') "O"); [by eexists|].
  destruct (Z.ltb_spec nivel nmax) as [Hlt|Hge];
    [|rewrite andb_false_r; by eexists].
  destruct (String.eqb (Velhus.resultado e') "?"); simpl; [|by eexists].
  destruct (Hrec Hlt e' (Velhus.alterna jogador)) as [[|kv lresult] ->];
    [by eexists|].
  destruct (melhor_nao_vazio kv lresult (Velhus.alterna jogador)) as [v ->].
  by eexists.
Qed.

(** Called on the grid of the instance itself, as every call of the
    program is, [proxima] returns a dict. *)
Lemma proxima_total (nmax : Z) (n : nat) :
  forall (estado : list string) (jogador : string) (nivel : Z),
    Z.to_nat (nmax - nivel) = n ->
    exists result, Velhus.proxima estado jogador estado nivel nmax = Ok result.
Proof.
  induction n as [|n IH]; intros estado jogador nivel Hn;
    rewrite proxima_eq; apply percorre_ok; intros p Hp;
    apply pontos_total; try done; intros Hlt j outro; [lia|].
  apply IH. lia.
Qed.

Lemma joga_excecao (estado : list string) (posicao : Z) (jogador : string)
      (e : excecao) (estado' : list string) :
  Velhus.joga estado posicao jogador = (Raise e, estado') ->
  e = ValueError \/ e = IndexError.
Proof.
  unfold Velhus.joga, Py.getitem, Py.setitem.
  destruct (Py.indice _ _) as [k|]; [|intros [= <- _]; by right].
  destruct (estado !! k) as [c|]; [|intros [= <- _]; by right].
  destruct (String.eqb c " "); [done|]. intros [= <- _]. by left.
Qed.

(** Whatever grid it is called on, [proxima] stays within the depth
    [nmax - nivel]: the only exceptions it can raise are those of
    [joga]. *)
Lemma proxima_excecao (nmax : Z) (n : nat) :
  forall (self_estado : list string) (jogador : string) (estado : list string)
         (nivel : Z) (e : excecao),
    Z.to_nat (nmax - nivel) = n ->
    Velhus.proxima self_estado jogador estado nivel nmax = Raise e ->
    e = ValueError \/ e = IndexError.
Proof.
  induction n as [|n IH]; intros se jogador estado nivel e Hn;
    rewrite proxima_eq; intros (p & _ & Hp)%percorre_levanta;
    unfold pontos in Hp;
    destruct (Velhus.joga _ _ _) as [[[]|e'] j] eqn:Ej;
    try (injection Hp as ->; by eapply joga_excecao);
    destruct (String.eqb (Velhus.resultado j) "X"); try done;
    destruct (String.eqb (Velhus.resultado j) "O"); try done;
    (destruct (Z.ltb_spec nivel nmax);
     [|by rewrite andb_false_r in Hp]); [lia|].
  destruct (String.eqb (Velhus.resultado j) "?"); simpl in Hp; [|done].
  destruct (Velhus.proxima j _ j _ _) as [[|kv lresult]|e'] eqn:Erec; [done| |].
  - by destruct (melhor_nao_vazio kv lresult (Velhus.alterna jogador)) as [v Hv];
      rewrite Hv in Hp.
  - injection Hp as ->. eapply (IH j _ j (nivel + 1)); [lia | done].
Qed.

(** ** The search: scores *)

(** C5. When a possible move leads to a grid that [resultado] gives as
    won, [proxima] returns a dict that holds for this move [10 - nivel]
    if X has won and [-(10 - nivel)] if O has. *)
Theorem proxima_pontua_vitoria (estado : list string) (jogador : string)
        (nivel nmax possivel : Z) (estado' : list string) :
  possivel ∈ Velhus.jogadas_possiveis estado ->
  Velhus.joga (Velhus.init estado) possivel jogador = (Ok tt, estado') ->
  exists result : Dict.t,
    Velhus.proxima estado jogador estado nivel nmax = Ok result /\
    (Velhus.resultado estado' = "X"%string ->
     Dict.get result possivel = Some (10 - nivel)) /\
    (Velhus.resultado estado' = "O"%string ->
     Dict.get result possivel = Some (- (10 - nivel))).
Proof.
  intros Hin Hj.
  destruct (proxima_total nmax _ estado jogador nivel eq_refl) as [result Hr].
  exists result. split; [done|].
  rewrite proxima_eq in Hr.
  split; intros Hres; eapply percorre_get; eauto;
    unfold pontos; rewrite Hj, Hres; reflexivity.
Qed.

Lemma proxima_pontua_vitoria_witness :
  exists result : Dict.t,
    Velhus.proxima ["X"; "X"; " "; "O"; "O"; " "; " "; " "; " "]%string "X"
                   ["X"; "X"; " "; "O"; "O"; " "; " "; " "; " "]%string 0 2
    = Ok result /\
    (Velhus.resultado ["X"; "X"; "X"; "O"; "O"; " "; " "; " "; " "]%string
     = "X"%string ->
     Dict.get result 2 = Some (10 - 0)) /\
    (Velhus.resultado ["X"; "X"; "X"; "O"; "O"; " "; " "; " "; " "]%string
     = "O"%string ->
     Dict.get result 2 = Some (- (10 - 0))).
Proof.
  apply (proxima_pontua_vitoria
           ["X"; "X"; " "; "O"; "O"; " "; " "; " "; " "]%string "X" 0 2 2).
  - vm_compute. apply list_elem_of_here.
  - reflexivity.
Defined.

(** C10. With [nivel < nmax], when a possible move leads to an undecided
    grid and the search from that grid, for the other player one level
    down, returns an empty dict, [proxima] returns a dict that holds
    score 0 for the move. *)
Theorem proxima_recursao_vazia (estado : list string) (jogador : string)
        (nivel nmax possivel : Z) (estado' : list string) :
  nivel < nmax ->
  possivel ∈ Velhus.jogadas_possiveis estado ->
  Velhus.joga (Velhus.init estado) possivel jogador = (Ok tt, estado') ->
  Velhus.resultado estado' = "?"%string ->
  Velhus.proxima estado' (Velhus.alterna jogador) estado' (nivel + 1) nmax
  = Ok Dict.vazio ->
  exists result : Dict.t,
    Velhus.proxima estado jogador estado nivel nmax = Ok result /\
    Dict.get result possivel = Some 0.
Proof.
  intros Hlt Hin Hj Hres Hrec.
  destruct (proxima_total nmax _ estado jogador nivel eq_refl) as [result Hr].
  exists result. split; [done|].
  rewrite proxima_eq in Hr.
  eapply percorre_get; eauto.
  unfold pontos. rewrite Hj, Hres, Hrec. simpl.
  by destruct (Z.ltb_spec nivel nmax); [|lia].
Qed.

Lemma proxima_recursao_vazia_witness :
  exists result : Dict.t,
    Velhus.proxima (replicate 9 " "%string) "X" (replicate 9 " "%string) 0 1
    = Ok result /\
    Dict.get result 0 = Some 0.
Proof.
  apply (proxima_recursao_vazia
           (replicate 9 " "%string) "X" 0 1 0
           ["X"; " "; " "; " "; " "; " "; " "; " "; " "]%string).
  - lia.
  - vm_compute. apply list_elem_of_here.
  - reflexivity.
  - reflexivity.
  - reflexivity.
Defined.

(** ** The search: best moves *)

(** C2. On [X,X,_,_,O,_,_,_,_] with O to move and depth 2, the best moves
    are the single move 2, which blocks the top row. *)
Theorem melhor_jogada_bloqueia :
  Velhus.melhor_jogada ["X"; "X"; " "; " "; "O"; " "; " "; " "; " "]%string "O"
                       ["X"; "X"; " "; " "; "O"; " "; " "; " "; " "]%string 2
  = Ok [2].
Proof. by vm_compute. Qed.

(** [melhor_jogada] takes the best score before it looks at the dict:
    on an empty dict it raises the [ValueError] of [max] and [min]. *)
Lemma melhor_jogada_vazio (self_estado : list string) (jogador : string)
      (estado : list string) (dmax : Z) :
  Velhus.proxima self_estado jogador estado 0 dmax = Ok Dict.vazio ->
  Velhus.melhor_jogada self_estado jogador estado dmax = Raise ValueError.
Proof.
  intros H. unfold Velhus.melhor_jogada, Velhus.melhor. rewrite H. simpl.
  by destruct (String.eqb jogador "X").
Qed.

(** C1, as the code has it. With one free cell whose filling draws the
    game, [proxima] returns an empty dict and [melhor_jogada] raises
    [ValueError] instead of returning an empty list. Play reaches this
    grid: a new user picks the highest level and O, then answers the
    computer with cells 5, 3, 4 and 8; the handler of the last of these
    moves, which leaves the ninth move to the computer, ends with that
    exception. *)
Theorem melhor_jogada_vazio_levanta :
  let estado := ["X"; "X"; "O"; "O"; "O"; "X"; "X"; "O"; " "]%string in
  Velhus.proxima estado "X" estado 0 9 = Ok Dict.vazio /\
  Velhus.melhor_jogada estado "X" estado 9 = Raise ValueError /\
  Velhus.melhor_jogada estado "X" estado 2 = Raise ValueError /\
  (let r := corre ["dificil"; "O"; "5"; "3"; "4"; "8"]%string in
   fst r = Raise ValueError /\
   (Velha.estado <$> partidas (snd r) !! 7) = Some estado).
Proof. by vm_compute. Qed.

(** ** The registry: idle sweep *)

Lemma com_partidas_id (w : Mundo) : com_partidas w (partidas w) = w.
Proof. by destruct w. Qed.

Lemma apaga_spec (u : Z) (amb : Ambiente) (w : Mundo) :
  Partidas.apaga u amb w = (Ok tt, com_partidas w (delete u (partidas w))).
Proof.
  unfold Partidas.apaga, liga, le_partidas, muda_partidas, ret.
  case_bool_decide as H; [done|].
  rewrite delete_id, com_partidas_id; [done|].
  by apply eq_None_not_Some.
Qed.

Lemma para_cada_apaga (l : list Z) (amb : Ambiente) (w : Mundo) :
  Partidas.para_cada Partidas.apaga l amb w
  = (Ok tt, com_partidas w (foldl (fun m u => delete u m) (partidas w) l)).
Proof.
  revert w. induction l as [|u l IH]; intros w; simpl.
  - by rewrite com_partidas_id.
  - unfold liga. rewrite apaga_spec, IH. by destruct w.
Qed.

Lemma lookup_foldl_delete (l : list Z) (m : gmap Z Velha.t) (u : Z) :
  foldl (fun m u => delete u m) m l !! u
  = if decide (u ∈ l) then None else m !! u.
Proof.
  revert m. induction l as [|v l IH]; intros m; simpl.
  - destruct (decide (u ∈ [])) as [H|]; [by apply elem_of_nil in H | done].
  - rewrite IH.
    destruct (decide (u ∈ l)), (decide (u ∈ v :: l)) as [H|H];
      try done; rewrite elem_of_cons in H.
    + tauto.
    + destruct H as [->|]; [apply lookup_delete_eq | done].
    + apply lookup_delete_ne. naive_solver.
Qed.

Lemma a_remover_spec (agora : float) (l : list (Z * Velha.t)) (acc : list Z) :
  fold_left
    (fun a_remover up =>
       if PrimFloat.ltb Partidas.TIMEOUT
            (PrimFloat.sub agora (Velha.ultima_jogada (snd up)))
       then a_remover ++ [fst up] else a_remover) l acc
  = acc ++ (fst <$> filter (fun up => antiga agora (snd up)) l).
Proof.
  revert acc. induction l as [|[u p] l IH]; intros acc; simpl.
  - by rewrite app_nil_r.
  - change (PrimFloat.ltb Partidas.TIMEOUT
                          (PrimFloat.sub agora (Velha.ultima_jogada p)))
      with (antiga agora p).
    rewrite IH, filter_cons. simpl.
    destruct (antiga agora p); simpl; [|done].
    by rewrite <- app_assoc.
Qed.

(** C9. The sweep reads the clock once and returns; afterwards the
    registry holds exactly the sessions it held that are not old at the
    time read: those idle for more than 900 seconds are gone, the others
    are as they were. A session idle for 901 seconds is removed; one idle
    for 1 second, and one idle for exactly 900 seconds, stay. *)
Theorem limpa_antigas_remove_antigas :
  (forall (amb : Ambiente) (w : Mundo),
     exists w' : Mundo,
       Partidas.limpa_antigas amb w = (Ok tt, w') /\
       forall u : Z,
         partidas w' !! u
         = match partidas w !! u with
           | Some p =>
               if antiga (relogio amb (interacoes w)) p then None else Some p
           | None => None
           end) /\
  (let w := {| partidas := {[ 1 := Velha.init 4099%float 1;
                              2 := Velha.init 4999%float 2;
                              3 := Velha.init 4100%float 3 ]};
               interacoes := 0; chamadas := [] |} in
   let w' := snd (Partidas.limpa_antigas ambiente_calmo w) in
   partidas w' !! 1 = None /\
   partidas w' !! 2 = Some (Velha.init 4999%float 2) /\
   partidas w' !! 3 = Some (Velha.init 4100%float 3)).
Proof.
  split; [|by vm_compute].
  intros amb w. eexists. split.
  - unfold Partidas.limpa_antigas, liga, time_time, le_partidas.
    rewrite para_cada_apaga. reflexivity.
  - intros u. simpl. rewrite lookup_foldl_delete, a_remover_spec. simpl.
    set (agora := relogio amb (interacoes w)).
    destruct (partidas w !! u) as [p|] eqn:Eu.
    + destruct (antiga agora p) eqn:Ea.
      * rewrite decide_True; [done|].
        apply list_elem_of_fmap. exists (u, p). split; [done|].
        apply list_elem_of_filter. split; [simpl; by rewrite Ea|].
        by apply elem_of_map_to_list.
      * rewrite decide_False; [done|].
        intros ([u' p'] & -> & [Hp' Hin]%list_elem_of_filter)%list_elem_of_fmap.
        apply elem_of_map_to_list in Hin. simpl in *.
        rewrite Eu in Hin. injection Hin as <-. by rewrite Ea in Hp'.
    + rewrite decide_False; [done|].
      intros ([u' p'] & -> & [_ Hin]%list_elem_of_filter)%list_elem_of_fmap.
      apply elem_of_map_to_list in Hin. simpl in *. congruence.
Qed.

(** ** The controller: starting over *)

Lemma novo_jogo_spec (jogo : Velha.t) (amb : Ambiente) (w : Mundo) :
  Partidas.novo_jogo jogo amb w
  = (Ok (recomecada (relogio amb (interacoes w)) jogo),
     {| partidas :=
          <[Velha.user_id jogo := recomecada (relogio amb (interacoes w)) jogo]>
            (partidas w);
        interacoes := S (interacoes w);
        chamadas := chamadas w |}).
Proof.
  unfold Partidas.novo_jogo, liga. rewrite apaga_spec.
  unfold Partidas.pega_jogo, liga, le_partidas. simpl.
  rewrite lookup_delete_eq. simpl.
  unfold recomecada, ret, com_partidas, avanca. simpl.
  by rewrite insert_insert_eq, insert_delete_eq.
Qed.

(** What [reply_markup] leaves in the registry when it shows one of the
    two menus: the identifier of the message sent, if the session had
    none and the message went out. *)
Lemma reply_markup_menu (k : Z) (jogo : Velha.t) (c : Z) (amb : Ambiente)
      (w : Mundo) :
  Velha.tela jogo = 0 \/ Velha.tela jogo = 1 ->
  partidas (snd (JogoDaVelha.reply_markup k jogo (Some c) amb w))
  = match Velha.message jogo, falha amb (interacoes w) with
    | None, None =>
        <[k := Velha.com_message jogo (Some (identificador amb (interacoes w)))]>
          (partidas w)
    | _, _ => partidas w
    end.
Proof.
  intros Ht. unfold JogoDaVelha.reply_markup.
  assert (Hc : exists mm,
             (if Velha.tela jogo =? 0
              then Ok (Velha.nivel_de_dificuldade jogo,
                       "Jogo da Velha - Escolha o nível de dificuldade"%string)
              else if Velha.tela jogo =? 1
              then Ok (Velha.tipo_jogador jogo,
                       "X sempre joga primeiro. Você quer jogar como X ou O?"%string)
              else if Velha.tela jogo =? 2
              then match Velha.constroi_grelha jogo with
                   | Ok g => Ok (g, if String.eqb (Velha.mensagem jogo) ""
                                    then "Jogo da Velha"%string
                                    else Velha.mensagem jogo)
                   | Raise e => Raise e
                   end
              else Raise UnboundLocalError) = Ok mm).
  { destruct Ht as [-> | ->]; simpl; by eexists. }
  destruct Hc as [mm ->].
  destruct (Velha.message jogo) as [h|];
    unfold liga, de_res, ret, sendMessage, editMessageText, tenta, liga,
      chama, guarda, muda_partidas; simpl.
  - destruct (falha amb (interacoes w)) as [e|]; simpl; [|done].
    by case_bool_decide.
  - by destruct (falha amb (interacoes w)) as [e|].
Qed.

(** The handler on a user whose session is in the registry. *)
Lemma callback_query_conhecido (amb : Ambiente) (w : Mundo)
      (msg : JogoDaVelha.Msg) (jogo : Velha.t) :
  partidas w !! JogoDaVelha.from_id msg = Some jogo ->
  JogoDaVelha.callback_query msg amb w
  = (if Velha.tela jogo =? 0 then
       guarda (JogoDaVelha.from_id msg)
              (JogoDaVelha.configura_dificuldade
                 jogo (JogoDaVelha.query_data msg)) ;;;
       JogoDaVelha.reply_markup
         (JogoDaVelha.from_id msg)
         (JogoDaVelha.configura_dificuldade jogo (JogoDaVelha.query_data msg))
         (Some (JogoDaVelha.chat_id msg)) ;;; ret tt
     else if Velha.tela jogo =? 1 then
       guarda (JogoDaVelha.from_id msg)
              (JogoDaVelha.configura_primeiro_jogador
                 jogo (JogoDaVelha.query_data msg)) ;;;
       jogo' <- (if String.eqb
                      (Velha.computador
                         (JogoDaVelha.configura_primeiro_jogador
                            jogo (JogoDaVelha.query_data msg))) "X"
                 then JogoDaVelha.joga_pelo_computador
                        (JogoDaVelha.from_id msg)
                        (JogoDaVelha.configura_primeiro_jogador
                           jogo (JogoDaVelha.query_data msg))
                 else ret (JogoDaVelha.configura_primeiro_jogador
                             jogo (JogoDaVelha.query_data msg))) ;;
       JogoDaVelha.reply_markup (JogoDaVelha.from_id msg) jogo'
                                (Some (JogoDaVelha.chat_id msg)) ;;; ret tt
     else if String.eqb (JogoDaVelha.query_data msg) "recomecar" then
       novo <- Partidas.novo_jogo jogo ;;
       JogoDaVelha.reply_markup (Velha.user_id novo) novo
                                (Some (JogoDaVelha.chat_id msg)) ;;; ret tt
     else JogoDaVelha.callback_query msg) amb w.
Proof.
  intros Hl.
  destruct (Velha.tela jogo =? 0) eqn:E0;
    [|destruct (Velha.tela jogo =? 1) eqn:E1;
      [|destruct (String.eqb (JogoDaVelha.query_data msg) "recomecar") eqn:Er;
        [|done]]];
    unfold JogoDaVelha.callback_query, JogoDaVelha.pega_jogo,
      JogoDaVelha.msg_user_id, JogoDaVelha.msg_chat_id, Partidas.pega_jogo;
    unfold liga at 1 2; unfold le_partidas; rewrite Hl; unfold ret at 1;
    rewrite E0, ?E1, ?Er; reflexivity.
Qed.

Lemma partidas_depois_ret {A} (m : M A) (amb : Ambiente) (w : Mundo) :
  partidas (snd ((m ;;; ret tt) amb w)) = partidas (snd (m amb w)).
Proof. unfold liga, ret. by destruct (m amb w) as [[a|e] w']. Qed.

Lemma guarda_presente (k : Z) (jogo : Velha.t) (amb : Ambiente) (w : Mundo) :
  partidas w !! k = Some jogo -> guarda k jogo amb w = (Ok tt, w).
Proof.
  intros H. unfold guarda, muda_partidas.
  by rewrite insert_id, com_partidas_id.
Qed.

(** C3, as the code has it. The token ["recomecar"] starts over in the
    stages Playing (2) and Finished (3): whether or not the bot call that
    follows goes through, the registry then holds for the user a session
    made anew at the time read (stage 0, empty grid, no difficulty), with
    the message handle of the old session when it had one, and otherwise
    the handle of the menu just sent; the sessions of other users stay.
    In the stages of the two menus (0 and 1) the token is no choice of
    the menu: the session stays as it was, handle apart. *)
Theorem recomecar_em_jogo (amb : Ambiente) (w : Mundo) (msg : JogoDaVelha.Msg)
        (jogo : Velha.t) :
  JogoDaVelha.query_data msg = "recomecar"%string ->
  partidas w !! JogoDaVelha.from_id msg = Some jogo ->
  Velha.user_id jogo = JogoDaVelha.from_id msg ->
  let w' := snd (JogoDaVelha.callback_query msg amb w) in
  (Velha.tela jogo = 2 \/ Velha.tela jogo = 3 ->
   exists novo : Velha.t,
     partidas w' !! JogoDaVelha.from_id msg = Some novo /\
     Velha.com_message novo None
     = Velha.init (relogio amb (interacoes w)) (JogoDaVelha.from_id msg) /\
     Velha.tela novo = 0 /\
     Velha.estado novo = replicate 9 " "%string /\
     Velha.dificuldade novo = 0 /\
     Velha.message novo
     = match Velha.message jogo, falha amb (S (interacoes w)) with
       | Some h, _ => Some h
       | None, None => Some (identificador amb (S (interacoes w)))
       | None, Some _ => None
       end /\
     forall u : Z, u <> JogoDaVelha.from_id msg ->
                   partidas w' !! u = partidas w !! u) /\
  (Velha.tela jogo = 0 \/
   Velha.tela jogo = 1 /\ Velha.computador jogo <> "X"%string ->
   exists mesmo : Velha.t,
     partidas w' !! JogoDaVelha.from_id msg = Some mesmo /\
     Velha.com_message mesmo None = Velha.com_message jogo None).
Proof.
  intros Hq Hl Hu w'. unfold w'. clear w'.
  rewrite (callback_query_conhecido amb w msg jogo Hl), Hq.
  change (JogoDaVelha.configura_dificuldade jogo "recomecar") with jogo.
  change (JogoDaVelha.configura_primeiro_jogador jogo "recomecar") with jogo.
  rewrite String.eqb_refl.
  split; intros Ht.
  - assert (Hp : forall m : M unit,
               m = (novo <- Partidas.novo_jogo jogo ;;
                    JogoDaVelha.reply_markup
                      (Velha.user_id novo) novo
                      (Some (JogoDaVelha.chat_id msg)) ;;; ret tt) ->
               partidas (snd (m amb w))
               = match Velha.message jogo, falha amb (S (interacoes w)) with
                 | None, None =>
                     <[JogoDaVelha.from_id msg :=
                         Velha.com_message
                           (Velha.init (relogio amb (interacoes w))
                                       (JogoDaVelha.from_id msg))
                           (Some (identificador amb (S (interacoes w))))]>
                       (partidas w)
                 | _, _ =>
                     <[JogoDaVelha.from_id msg :=
                         Velha.com_message
                           (Velha.init (relogio amb (interacoes w))
                                       (JogoDaVelha.from_id msg))
                           (Velha.message jogo)]>
                       (partidas w)
                 end).
    { intros m ->. unfold liga at 1.
      rewrite novo_jogo_spec, partidas_depois_ret.
      rewrite reply_markup_menu by (by left).
      unfold recomecada. simpl. rewrite Hu.
      destruct (Velha.message jogo) as [h|];
        [|destruct (falha amb (S (interacoes w))) as [e|]]; try done.
      by rewrite insert_insert_eq. }
    assert ((Velha.tela jogo =? 0) = false) as ->
        by (by destruct Ht as [-> | ->]).
    assert ((Velha.tela jogo =? 1) = false) as ->
        by (by destruct Ht as [-> | ->]).
    rewrite (Hp _ eq_refl).
    destruct (Velha.message jogo) as [h|];
      [|destruct (falha amb (S (interacoes w))) as [e|]];
      eexists; rewrite lookup_insert_eq; (repeat split; try done);
      intros u Hne; by rewrite lookup_insert_ne.
  - assert (Hm : forall m1 m2 : M unit,
               (JogoDaVelha.reply_markup
                  (JogoDaVelha.from_id msg) jogo
                  (Some (JogoDaVelha.chat_id msg)) ;;; ret tt) = m1 ->
               (guarda (JogoDaVelha.from_id msg) jogo ;;; m1) = m2 ->
               exists mesmo : Velha.t,
                 partidas (snd (m2 amb w)) !! JogoDaVelha.from_id msg
                 = Some mesmo /\
                 Velha.com_message mesmo None = Velha.com_message jogo None).
    { intros m1 m2 <- <-. unfold liga at 1.
      rewrite (guarda_presente _ _ _ _ Hl), partidas_depois_ret.
      rewrite reply_markup_menu
        by (destruct Ht as [Ht | [Ht _]]; [by left | by right]).
      destruct (Velha.message jogo) as [h|] eqn:Em;
        [|destruct (falha amb (interacoes w))];
        [by exists jogo | by exists jogo |].
      eexists. rewrite lookup_insert_eq. split; [done|].
      destruct jogo; simpl in *. by subst. }
    destruct (Velha.tela jogo =? 0) eqn:E0; [by eapply Hm|].
    assert ((Velha.tela jogo =? 1) = true) as ->.
    { destruct Ht as [H | [H _]]; by rewrite H in *. }
    assert (String.eqb (Velha.computador jogo) "X" = false) as ->.
    { destruct Ht as [H | [_ H]]; [by rewrite H in E0 | by apply String.eqb_neq]. }
    by eapply Hm.
Qed.

Lemma recomecar_em_jogo_witness :
  (exists novo : Velha.t,
     partidas (snd (JogoDaVelha.callback_query
                      (toque "recomecar") ambiente_calmo
                      {| partidas := {[ 7 := partida_quase_cheia ]};
                         interacoes := 0; chamadas := [] |}))
       !! 7 = Some novo /\
     Velha.com_message novo None = Velha.init 5000%float 7 /\
     Velha.tela novo = 0 /\
     Velha.estado novo = replicate 9 " "%string /\
     Velha.dificuldade novo = 0 /\
     Velha.message novo = Some (1, 1) /\
     forall u : Z,
       u <> 7 ->
       partidas (snd (JogoDaVelha.callback_query
                        (toque "recomecar") ambiente_calmo
                        {| partidas := {[ 7 := partida_quase_cheia ]};
                           interacoes := 0; chamadas := [] |})) !! u
       = ({[ 7 := partida_quase_cheia ]} : gmap Z Velha.t) !! u) /\
  (exists mesmo : Velha.t,
     partidas (snd (JogoDaVelha.callback_query
                      (toque "recomecar") ambiente_calmo
                      {| partidas := {[ 7 := Velha.init 4990%float 7 ]};
                         interacoes := 0; chamadas := [] |}))
       !! 7 = Some mesmo /\
     Velha.com_message mesmo None
     = Velha.com_message (Velha.init 4990%float 7) None).
Proof.
  split.
  - refine (proj1 (recomecar_em_jogo
                     ambiente_calmo
                     {| partidas := {[ 7 := partida_quase_cheia ]};
                        interacoes := 0; chamadas := [] |}
                     (toque "recomecar") partida_quase_cheia
                     eq_refl _ eq_refl) _).
    + vm_compute. reflexivity.
    + left. reflexivity.
  - refine (proj2 (recomecar_em_jogo
                     ambiente_calmo
                     {| partidas := {[ 7 := Velha.init 4990%float 7 ]};
                        interacoes := 0; chamadas := [] |}
                     (toque "recomecar") (Velha.init 4990%float 7)
                     eq_refl _ eq_refl) _).
    + vm_compute. reflexivity.
    + left. reflexivity.
Defined.

(** C3 as stated fails in the stage of the second menu. A new user picks
    the level ["medio"] and then sends ["recomecar"]: the handler returns,
    and the session is still in stage 1 with the level picked. *)
Lemma recomecar_ignorado_no_menu :
  let w1 := snd (corre ["medio"]%string) in
  let r := corre ["medio"; "recomecar"]%string in
  (Velha.tela <$> partidas w1 !! 7) = Some 1 /\
  fst r = Ok tt /\
  partidas (snd r) !! 7 = partidas w1 !! 7 /\
  (Velha.tela <$> partidas (snd r) !! 7) = Some 1 /\
  (Velha.tela <$> partidas (snd r) !! 7) <> Some 0 /\
  (Velha.dificuldade <$> partidas (snd r) !! 7) = Some 2.
Proof. vm_compute. repeat split; congruence. Qed.

(** * Further properties *)

(** ** Positions come in ascending order *)

Lemma posicoes_desde_crescente (c : string) (fonte : list string) (s : Z) :
  StronglySorted Z.lt
    (fst <$> filter (fun ic => String.eqb (snd ic) c) (Py.enumerate_de s fonte))
  /\ Forall (Z.le s)
       (fst <$> filter (fun ic => String.eqb (snd ic) c)
                       (Py.enumerate_de s fonte)).
Proof.
  revert s. induction fonte as [|x fonte IH]; intros s; simpl.
  - split; constructor.
  - destruct (IH (s + 1)) as [Hs Hle]. rewrite filter_cons. simpl.
    assert (Hle' : Forall (Z.le s)
                     (fst <$> filter (fun ic => String.eqb (snd ic) c)
                                     (Py.enumerate_de (s + 1) fonte))).
    { eapply Forall_impl; [exact Hle|]. simpl. intros; lia. }
    destruct (decide (String.eqb x c)); simpl; [|done].
    split.
    + constructor; [done|].
      eapply Forall_impl; [exact Hle|]. simpl. intros; lia.
    + constructor; [lia | done].
Qed.

Lemma posicoes_de_ordenadas (fonte : list string) (c : string) :
  StronglySorted Z.lt (posicoes_de fonte c).
Proof. apply (posicoes_desde_crescente c fonte 0). Qed.

Lemma ordenada_NoDup (l : list Z) : StronglySorted Z.lt l -> NoDup l.
Proof.
  induction 1 as [|x l Hs IH Hx]; constructor; [|done].
  intros Hin. rewrite Forall_forall in Hx. specialize (Hx x Hin). lia.
Qed.

Lemma ordenada_sublist (l1 l2 : list Z) :
  sublist l1 l2 -> StronglySorted Z.lt l2 -> StronglySorted Z.lt l1.
Proof.
  induction 1 as [|x l1 l2 Hsub IH|x l1 l2 Hsub IH];
    intros Hs; [done| |]; apply StronglySorted_inv in Hs as [Hs Hx].
  - constructor; [by apply IH|].
    rewrite Forall_forall in *. intros y Hy. apply Hx.
    by eapply elem_of_sublist.
  - by apply IH.
Qed.

(** X1. [posicoes_de] lists the positions of a character in strictly
    ascending order, hence each once; so do [jogadas_possiveis] and both
    lists of [posicoes_por_jogador]. *)
Theorem posicoes_de_crescente (fonte : list string) (c : string) :
  StronglySorted Z.lt (posicoes_de fonte c) /\ NoDup (posicoes_de fonte c).
Proof.
  split; [|apply ordenada_NoDup]; apply posicoes_de_ordenadas.
Qed.

(** ** The moves a search records *)

Lemma chaves_set (d : Dict.t) (k v : Z) :
  chaves (Dict.set d k v)
  = if decide (k ∈ chaves d) then chaves d else chaves d ++ [k].
Proof.
  unfold chaves. induction d as [|[k' v'] d IH].
  - destruct (decide (k ∈ fst <$> [])) as [H|H]; [|done].
    by apply elem_of_nil in H.
  - simpl Dict.set. destruct (Z.eqb_spec k' k) as [->|Hne].
    + destruct (decide (k ∈ fst <$> (k, v') :: d)) as [H|H]; [done|].
      exfalso. apply H. apply list_elem_of_here.
    + rewrite !fmap_cons, IH. simpl.
      destruct (decide (k ∈ fst <$> d)) as [Hin|Hnin],
               (decide (k ∈ k' :: (fst <$> d))) as [H|H]; try done.
      * exfalso. apply H. by apply list_elem_of_further.
      * apply elem_of_cons in H as [->|H]; done.
Qed.

Lemma get_elem (d : Dict.t) (k v : Z) : Dict.get d k = Some v -> (k, v) ∈ d.
Proof.
  induction d as [|[k' v'] d IH]; simpl; [done|].
  destruct (Z.eqb_spec k' k) as [->|Hne].
  - intros [= ->]. apply list_elem_of_here.
  - intros H. apply list_elem_of_further. by apply IH.
Qed.

Lemma elem_get (d : Dict.t) (k v : Z) :
  NoDup (chaves d) -> (k, v) ∈ d -> Dict.get d k = Some v.
Proof.
  unfold chaves. induction d as [|[k' v'] d IH]; simpl; intros Hnd Hin.
  - by apply elem_of_nil in Hin.
  - apply NoDup_cons in Hnd as [Hk' Hnd].
    apply elem_of_cons in Hin as [[= -> ->]|Hin].
    + by rewrite Z.eqb_refl.
    + destruct (Z.eqb_spec k' k) as [->|Hne]; [|by apply IH].
      exfalso. apply Hk'. apply list_elem_of_fmap. by exists (k, v).
Qed.

Section Chaves.

Variables (jogador : string) (estado : list string) (nivel nmax : Z).
Variable recursa : list string -> string -> Z -> res Dict.t.

(** The loop adds to the dict, in the order of the loop, the moves it
    records a score for. *)
Lemma percorre_chaves (possiveis : list Z) (result result' : Dict.t) :
  Velhus.percorre (Velhus.passo recursa jogador estado nivel nmax)
                  possiveis result = Ok result' ->
  (forall p, p ∈ possiveis -> p ∉ chaves result) ->
  NoDup possiveis ->
  chaves result'
  = chaves result
    ++ filter (fun p => pontuada jogador estado nivel nmax recursa p) possiveis.
Proof.
  revert result.
  induction possiveis as [|q l IH]; intros result Hper Hfora Hnd;
    simpl in Hper.
  - injection Hper as <-. by rewrite filter_nil, app_nil_r.
  - rewrite passo_pontos in Hper.
    apply NoDup_cons in Hnd as [Hq Hnd].
    destruct (pontos jogador estado nivel nmax recursa q) as [[v|]|e] eqn:Eq;
      simpl in Hper; [| |done].
    + rewrite filter_cons_True by (unfold pontuada; by rewrite Eq).
      rewrite (IH _ Hper); [|..|done].
      * rewrite chaves_set, decide_False
          by (apply Hfora, list_elem_of_here).
        by rewrite <- app_assoc.
      * intros p Hp. rewrite chaves_set, decide_False
          by (apply Hfora, list_elem_of_here).
        rewrite elem_of_app, list_elem_of_singleton.
        intros [Hin| ->]; [|done].
        by apply (Hfora p); [apply list_elem_of_further|].
    + rewrite filter_cons_False by (unfold pontuada; rewrite Eq; intros []).
      apply (IH _ Hper); [|done].
      intros p Hp. by apply Hfora, list_elem_of_further.
Qed.

End Chaves.

(** The dict [proxima] returns holds exactly the possible moves of the
    instance that get a score, in ascending order. *)
Lemma proxima_chaves (self_estado : list string) (jogador : string)
      (estado : list string) (nivel nmax : Z) (result : Dict.t) :
  Velhus.proxima self_estado jogador estado nivel nmax = Ok result ->
  chaves result
  = filter (fun p => pontuada jogador estado nivel nmax
                              (fun j outro n => Velhus.proxima j outro j n nmax)
                              p)
           (Velhus.jogadas_possiveis self_estado).
Proof.
  rewrite proxima_eq. intros H.
  apply percorre_chaves in H; [done| |].
  - intros p _. apply not_elem_of_nil.
  - apply ordenada_NoDup, posicoes_de_ordenadas.
Qed.

Lemma proxima_chaves_ordenadas (self_estado : list string) (jogador : string)
      (estado : list string) (nivel nmax : Z) (result : Dict.t) :
  Velhus.proxima self_estado jogador estado nivel nmax = Ok result ->
  StronglySorted Z.lt (chaves result) /\
  forall p, p ∈ chaves result -> p ∈ Velhus.jogadas_possiveis self_estado.
Proof.
  intros H. rewrite (proxima_chaves _ _ _ _ _ _ H). split.
  - eapply ordenada_sublist; [apply sublist_filter; apply _|].
    apply posicoes_de_ordenadas.
  - by intros p [_ Hp]%list_elem_of_filter.
Qed.

Lemma melhor_em_values (result : Dict.t) (jogador : string) (m : Z) :
  Velhus.melhor result jogador = Ok m -> m ∈ Dict.values result.
Proof.
  unfold Velhus.melhor, Dict.values.
  destruct result as [|[k x] r]; simpl; [by destruct (String.eqb _ _)|].
  destruct (String.eqb jogador "X"); intros [= <-].
  - apply fold_max_spec.
  - apply fold_min_spec.
Qed.

(** The list [melhor_jogada] returns holds exactly the moves that have
    the best score in the dict of [proxima]. *)
Lemma melhor_jogada_sse (self_estado : list string) (jogador : string)
      (estado : list string) (dmax : Z) (melhores : list Z) :
  Velhus.melhor_jogada self_estado jogador estado dmax = Ok melhores ->
  exists (result : Dict.t) (m : Z),
    Velhus.proxima self_estado jogador estado 0 dmax = Ok result /\
    Velhus.melhor result jogador = Ok m /\
    melhores = fst <$> filter (fun pr => snd pr =? m) (Dict.items result) /\
    (forall p, p ∈ melhores <-> Dict.get result p = Some m).
Proof.
  unfold Velhus.melhor_jogada.
  destruct (Velhus.proxima _ _ _ _ _) as [result|] eqn:Er; [|done].
  destruct (Velhus.melhor result jogador) as [m|] eqn:Em; [|done].
  intros [= <-]. exists result, m.
  destruct (proxima_chaves_ordenadas _ _ _ _ _ _ Er) as [Hs _].
  split; [done|]. split; [done|]. split; [done|].
  intros p. rewrite list_elem_of_fmap. split.
  - intros ([k v] & -> & [Hv Hin]%list_elem_of_filter). simpl in *.
    apply Is_true_true, Z.eqb_eq in Hv. subst v.
    by apply elem_get; [apply ordenada_NoDup|].
  - intros Hg. exists (p, m). split; [done|].
    apply list_elem_of_filter. split; [|by apply get_elem].
    simpl. by rewrite Z.eqb_refl.
Qed.

(** X2. When [melhor_jogada] returns, the list it returns is not empty,
    is in strictly ascending order, holds only moves possible on the grid
    of the instance, and holds exactly the moves whose score in the dict
    of [proxima] is the best score for the player. *)
Theorem melhor_jogada_correta (self_estado : list string) (jogador : string)
        (estado : list string) (dmax : Z) (melhores : list Z) :
  Velhus.melhor_jogada self_estado jogador estado dmax = Ok melhores ->
  exists (result : Dict.t) (m : Z),
    Velhus.proxima self_estado jogador estado 0 dmax = Ok result /\
    Velhus.melhor result jogador = Ok m /\
    melhores <> [] /\
    StronglySorted Z.lt melhores /\
    (forall p, p ∈ melhores -> p ∈ Velhus.jogadas_possiveis self_estado) /\
    (forall p, p ∈ melhores <-> Dict.get result p = Some m).
Proof.
  intros (result & m & Er & Em & Hl & Hiff)%melhor_jogada_sse.
  exists result, m.
  destruct (proxima_chaves_ordenadas _ _ _ _ _ _ Er) as [Hs Hsub].
  split; [done|]. split; [done|].
  split; [|split; [|split; [|exact Hiff]]].
  - apply melhor_em_values in Em.
    apply list_elem_of_fmap in Em as ([k v] & -> & Hin).
    intros Hnil.
    assert (Hk : k ∈ melhores).
    { apply Hiff. by apply elem_get; [apply ordenada_NoDup|]. }
    rewrite Hnil in Hk. by apply elem_of_nil in Hk.
  - eapply ordenada_sublist; [|exact Hs].
    rewrite Hl. unfold chaves. apply fmap_sublist, sublist_filter.
  - intros p Hp. apply Hsub. apply Hiff, get_elem in Hp.
    apply list_elem_of_fmap. by exists (p, m).
Qed.

Lemma melhor_jogada_correta_witness :
  exists (result : Dict.t) (m : Z),
    Velhus.proxima ["X"; "X"; " "; " "; "O"; " "; " "; " "; " "]%string "O"
                   ["X"; "X"; " "; " "; "O"; " "; " "; " "; " "]%string 0 2
    = Ok result /\
    Velhus.melhor result "O" = Ok m /\
    [2] <> [] /\
    StronglySorted Z.lt [2] /\
    (forall p, p ∈ [2] ->
               p ∈ Velhus.jogadas_possiveis
                     ["X"; "X"; " "; " "; "O"; " "; " "; " "; " "]%string) /\
    (forall p, p ∈ [2] <-> Dict.get result p = Some m).
Proof.
  apply (melhor_jogada_correta
           ["X"; "X"; " "; " "; "O"; " "; " "; " "; " "]%string "O"
           ["X"; "X"; " "; " "; "O"; " "; " "; " "; " "]%string 2 [2]).
  vm_compute. reflexivity.
Defined.

(** ** When the search finds nothing *)

Lemma resultado_quatro (estado : list string) :
  Velhus.resultado estado = "X"%string \/ Velhus.resultado estado = "O"%string \/
  Velhus.resultado estado = "*"%string \/ Velhus.resultado estado = "?"%string.
Proof.
  unfold Velhus.resultado, Velhus.posicoes_por_jogador.
  destruct (Velhus.ganhou _ "X"); [by left|].
  destruct (Velhus.ganhou _ "O"); [by right; left|].
  destruct (negb _); [right; right; by left | by repeat right].
Qed.

Lemma filter_vazio {A} (P : A -> Prop) `{forall x, Decision (P x)} (l : list A) :
  filter P l = [] <-> forall x, x ∈ l -> ~ P x.
Proof.
  induction l as [|y l IH].
  - split; [intros _ x Hx; by apply elem_of_nil in Hx | done].
  - rewrite filter_cons. destruct (decide (P y)) as [Hy|Hy].
    + split; [done|]. intros Hall. exfalso.
      by apply (Hall y); [apply list_elem_of_here|].
    + rewrite IH. split.
      * intros Hall x [->|Hx]%elem_of_cons; [done | by apply Hall].
      * intros Hall x Hx. by apply Hall, list_elem_of_further.
Qed.

(** On its own grid and above the last level, the loop leaves out a
    possible move exactly when the move draws the game. *)
Lemma pontuada_empate (estado : list string) (jogador : string)
      (nivel nmax possivel : Z) (estado' : list string) :
  nivel < nmax ->
  Velhus.joga (Velhus.init estado) possivel jogador = (Ok tt, estado') ->
  pontuada jogador estado nivel nmax
           (fun j outro n => Velhus.proxima j outro j n nmax) possivel = false
  <-> Velhus.resultado estado' = "*"%string.
Proof.
  intros Hlt Hj. unfold pontuada, pontos. rewrite Hj.
  destruct (resultado_quatro estado') as [-> | [-> | [-> | ->]]]; simpl;
    try done.
  destruct (Z.ltb_spec nivel nmax); [|lia].
  destruct (proxima_total nmax _ estado' (Velhus.alterna jogador) (nivel + 1)
                          eq_refl) as [[|kv lresult] ->]; [done|].
  by destruct (melhor_nao_vazio kv lresult (Velhus.alterna jogador)) as [v ->].
Qed.

(** X3. With a depth of at least 1, [melhor_jogada] on the grid of the
    instance raises [ValueError] exactly when every possible move draws
    the game (in particular when no move is possible); in every other
    case it returns a list. *)
Theorem melhor_jogada_levanta_sse_empate (estado : list string)
        (jogador : string) (dmax : Z) :
  0 < dmax ->
  (Velhus.melhor_jogada estado jogador estado dmax = Raise ValueError <->
   forall (p : Z) (estado' : list string),
     p ∈ Velhus.jogadas_possiveis estado ->
     Velhus.joga (Velhus.init estado) p jogador = (Ok tt, estado') ->
     Velhus.resultado estado' = "*"%string) /\
  (Velhus.melhor_jogada estado jogador estado dmax = Raise ValueError \/
   exists melhores : list Z,
     Velhus.melhor_jogada estado jogador estado dmax = Ok melhores).
Proof.
  intros Hd.
  destruct (proxima_total dmax _ estado jogador 0 eq_refl) as [result Hr].
  pose proof (proxima_chaves _ _ _ _ _ _ Hr) as Hch.
  assert (Hvazio : result = [] <->
                   forall (p : Z) (estado' : list string),
                     p ∈ Velhus.jogadas_possiveis estado ->
                     Velhus.joga (Velhus.init estado) p jogador = (Ok tt, estado') ->
                     Velhus.resultado estado' = "*"%string).
  { transitivity (chaves result = []).
    { unfold chaves. by destruct result. }
    rewrite Hch, filter_vazio. split.
    - intros Hall p e' Hp Hj. apply (pontuada_empate _ _ 0 dmax p e' Hd Hj).
      specialize (Hall p Hp). by destruct (pontuada _ _ _ _ _ _).
    - intros Hall p Hp.
      destruct (joga_possivel estado p jogador Hp) as [e' Hj].
      rewrite (proj2 (pontuada_empate _ _ 0 dmax p e' Hd Hj) (Hall p e' Hp Hj)).
      intros []. }
  unfold Velhus.melhor_jogada. rewrite Hr.
  destruct result as [|kv result].
  - unfold Velhus.melhor. simpl.
    destruct (String.eqb jogador "X"); (split; [|by left]);
      (split; [intros _; by apply Hvazio | done]).
  - destruct (melhor_nao_vazio kv result jogador) as [m ->].
    split; [|right; by eexists].
    split; [done|]. intros Hall. by apply Hvazio in Hall.
Qed.

Lemma melhor_jogada_levanta_sse_empate_witness :
  (Velhus.melhor_jogada ["X"; "X"; "O"; "O"; "O"; "X"; "X"; "O"; " "]%string "X"
                        ["X"; "X"; "O"; "O"; "O"; "X"; "X"; "O"; " "]%string 9
   = Raise ValueError <->
   forall (p : Z) (estado' : list string),
     p ∈ Velhus.jogadas_possiveis
           ["X"; "X"; "O"; "O"; "O"; "X"; "X"; "O"; " "]%string ->
     Velhus.joga
       (Velhus.init ["X"; "X"; "O"; "O"; "O"; "X"; "X"; "O"; " "]%string)
       p "X" = (Ok tt, estado') ->
     Velhus.resultado estado' = "*"%string) /\
  (Velhus.melhor_jogada ["X"; "X"; "O"; "O"; "O"; "X"; "X"; "O"; " "]%string "X"
                        ["X"; "X"; "O"; "O"; "O"; "X"; "X"; "O"; " "]%string 9
   = Raise ValueError \/
   exists melhores : list Z,
     Velhus.melhor_jogada
       ["X"; "X"; "O"; "O"; "O"; "X"; "X"; "O"; " "]%string "X"
       ["X"; "X"; "O"; "O"; "O"; "X"; "X"; "O"; " "]%string 9
     = Ok melhores).
Proof.
  apply (melhor_jogada_levanta_sse_empate
           ["X"; "X"; "O"; "O"; "O"; "X"; "X"; "O"; " "]%string "X" 9).
  lia.
Defined.

(** ** Bounds on the scores *)

Lemma values_set (d : Dict.t) (k v v' : Z) :
  v' ∈ Dict.values (Dict.set d k v) -> v' = v \/ v' ∈ Dict.values d.
Proof.
  unfold Dict.values. induction d as [|[k0 v0] d IH]; simpl.
  - intros ->%list_elem_of_singleton. by left.
  - destruct (Z.eqb_spec k0 k) as [->|Hne]; simpl;
      rewrite !elem_of_cons; [tauto|].
    intros [->|H]; [tauto|]. destruct (IH H); tauto.
Qed.

Lemma percorre_values (jogador : string) (estado : list string)
      (nivel nmax : Z) recursa (possiveis : list Z) (result result' : Dict.t)
      (v : Z) :
  Velhus.percorre (Velhus.passo recursa jogador estado nivel nmax)
                  possiveis result = Ok result' ->
  v ∈ Dict.values result' ->
  v ∈ Dict.values result \/
  exists p, p ∈ possiveis /\
            pontos jogador estado nivel nmax recursa p = Ok (Some v).
Proof.
  revert result. induction possiveis as [|q l IH]; intros result Hper Hv;
    simpl in Hper.
  - injection Hper as <-. by left.
  - rewrite passo_pontos in Hper.
    destruct (pontos jogador estado nivel nmax recursa q) as [[w|]|e] eqn:Eq;
      simpl in Hper; [| |done].
    + destruct (IH _ Hper Hv) as [Hin|(p & Hp & Hpp)].
      * apply values_set in Hin as [->|Hin]; [|by left].
        right. exists q. split; [apply list_elem_of_here | done].
      * right. exists p. split; [by apply list_elem_of_further | done].
    + destruct (IH _ Hper Hv) as [Hin|(p & Hp & Hpp)]; [by left|].
      right. exists p. split; [by apply list_elem_of_further | done].
Qed.

(** No score goes beyond the scores of a win at the level of the call. *)
Lemma proxima_limites (nmax : Z) (n : nat) :
  forall (self_estado : list string) (jogador : string) (estado : list string)
         (nivel : Z) (result : Dict.t) (v : Z),
    Z.to_nat (nmax - nivel) = n ->
    nivel <= 10 -> nmax <= 10 ->
    Velhus.proxima self_estado jogador estado nivel nmax = Ok result ->
    v ∈ Dict.values result ->
    - (10 - nivel) <= v <= 10 - nivel.
Proof.
  induction n as [|n IH]; intros se jogador estado nivel result v Hn Hniv Hmax;
    rewrite proxima_eq; intros Hper Hv;
    (destruct (percorre_values _ _ _ _ _ _ _ _ _ Hper Hv)
      as [Hin|(p & _ & Hp)]; [by apply elem_of_nil in Hin|]);
    unfold pontos in Hp;
    destruct (Velhus.joga _ _ _) as [[[]|e'] j]; try done;
    (destruct (String.eqb (Velhus.resultado j) "X");
     [injection Hp as <-; lia|]);
    (destruct (String.eqb (Velhus.resultado j) "O");
     [injection Hp as <-; lia|]);
    (destruct (Z.ltb_spec nivel nmax);
     [|by rewrite andb_false_r in Hp]); [lia|].
  destruct (String.eqb (Velhus.resultado j) "?"); simpl in Hp; [|done].
  destruct (Velhus.proxima j _ j _ _) as [[|kv lresult]|] eqn:Erec;
    [injection Hp as <-; lia| |done].
  destruct (Velhus.melhor _ _) as [m|] eqn:Em; [|done].
  injection Hp as <-. apply melhor_em_values in Em.
  assert (- (10 - (nivel + 1)) <= m <= 10 - (nivel + 1)); [|lia].
  eapply (IH j _ j (nivel + 1)); eauto; lia.
Qed.

(** X4. With levels up to 10, every score of the dict that [proxima]
    returns on the grid of the instance lies between [-(10 - nivel)] and
    [10 - nivel]. *)
Theorem proxima_pontos_limitados (estado : list string) (jogador : string)
        (nivel nmax : Z) :
  nivel <= 10 -> nmax <= 10 ->
  exists result : Dict.t,
    Velhus.proxima estado jogador estado nivel nmax = Ok result /\
    forall v : Z, v ∈ Dict.values result ->
                  - (10 - nivel) <= v <= 10 - nivel.
Proof.
  intros Hniv Hmax.
  destruct (proxima_total nmax _ estado jogador nivel eq_refl) as [result Hr].
  exists result. split; [done|]. intros v Hv.
  by eapply proxima_limites.
Qed.

Lemma proxima_pontos_limitados_witness :
  exists result : Dict.t,
    Velhus.proxima ["X"; "X"; " "; " "; "O"; " "; " "; " "; " "]%string "O"
                   ["X"; "X"; " "; " "; "O"; " "; " "; " "; " "]%string 0 9
    = Ok result /\
    forall v : Z, v ∈ Dict.values result -> - (10 - 0) <= v <= 10 - 0.
Proof.
  apply (proxima_pontos_limitados
           ["X"; "X"; " "; " "; "O"; " "; " "; " "; " "]%string "O" 0 9); lia.
Defined.

(** ** The search takes a win *)

Lemma get_fora (d : Dict.t) (k : Z) : k ∉ chaves d -> Dict.get d k = None.
Proof.
  intros Hk. destruct (Dict.get d k) as [v|] eqn:E; [|done].
  exfalso. apply Hk. apply get_elem in E.
  apply list_elem_of_fmap. by exists (k, v).
Qed.

(** The dict of [proxima] holds for each possible move what one turn of
    the loop records for it. *)
Lemma proxima_get (self_estado : list string) (jogador : string)
      (estado : list string) (nivel nmax : Z) (result : Dict.t) (p : Z)
      (o : option Z) :
  Velhus.proxima self_estado jogador estado nivel nmax = Ok result ->
  p ∈ Velhus.jogadas_possiveis self_estado ->
  pontos jogador estado nivel nmax
         (fun j outro n => Velhus.proxima j outro j n nmax) p = Ok o ->
  Dict.get result p = o.
Proof.
  intros Hr Hp Ho. destruct o as [v|].
  - rewrite proxima_eq in Hr. eapply percorre_get; eauto.
  - apply get_fora. rewrite (proxima_chaves _ _ _ _ _ _ Hr).
    intros [Hpt _]%list_elem_of_filter. unfold pontuada in Hpt.
    by rewrite Ho in Hpt.
Qed.

(** Below level 10, a move has the score of a win by X, or by O, exactly
    when it wins the game for X, or for O, at once. *)
Lemma pontos_vitoria_sse (estado : list string) (jogador : string)
      (nivel nmax : Z) (result : Dict.t) (p : Z) (estado' : list string) :
  nivel < 10 -> nmax <= 10 ->
  Velhus.proxima estado jogador estado nivel nmax = Ok result ->
  p ∈ Velhus.jogadas_possiveis estado ->
  Velhus.joga (Velhus.init estado) p jogador = (Ok tt, estado') ->
  (Dict.get result p = Some (10 - nivel) <->
   Velhus.resultado estado' = "X"%string) /\
  (Dict.get result p = Some (- (10 - nivel)) <->
   Velhus.resultado estado' = "O"%string).
Proof.
  intros Hniv Hmax Hr Hp Hj.
  destruct (pontos_total jogador estado nivel nmax
              (fun j outro n => Velhus.proxima j outro j n nmax) p) as [o Ho];
    [|done|].
  { intros _ j outro. by eapply proxima_total. }
  rewrite (proxima_get _ _ _ _ _ _ _ _ Hr Hp Ho).
  unfold pontos in Ho. rewrite Hj in Ho.
  destruct (resultado_quatro estado') as [Hres | [Hres | [Hres | Hres]]];
    rewrite Hres in *; simpl in Ho.
  - injection Ho as <-. split; split; try done. intros [=]. lia.
  - injection Ho as <-. split; split; try done. intros [=]. lia.
  - injection Ho as <-. split; split; done.
  - assert (Hlim : forall v, o = Some v ->
                             - (10 - (nivel + 1)) <= v <= 10 - (nivel + 1)).
    { destruct (Z.ltb_spec nivel nmax); [|by injection Ho as <-].
      destruct (Velhus.proxima estado' _ estado' _ _)
        as [[|kv lresult]|] eqn:Erec; [injection Ho as <-| |done].
      - intros v [= <-]. lia.
      - destruct (Velhus.melhor _ _) as [m|] eqn:Em; [|done].
        injection Ho as <-. intros v [= <-].
        apply melhor_em_values in Em.
        eapply (proxima_limites nmax _ estado' _ estado' (nivel + 1));
          eauto; lia. }
    split; split; try done; intros ->;
      specialize (Hlim _ eq_refl); lia.
Qed.

Lemma melhor_extremo (result : Dict.t) (jogador : string) (nivel : Z) :
  (forall v : Z, v ∈ Dict.values result -> - (10 - nivel) <= v <= 10 - nivel) ->
  pontos_de_vitoria jogador nivel ∈ Dict.values result ->
  Velhus.melhor result jogador = Ok (pontos_de_vitoria jogador nivel).
Proof.
  unfold pontos_de_vitoria, Velhus.melhor, Dict.values.
  intros Hlim Hin. destruct result as [|[k x] r]; [by apply elem_of_nil in Hin|].
  rewrite fmap_cons in Hlim, Hin |- *. cbn [Py.max Py.min snd] in *.
  destruct (String.eqb jogador "X"); f_equal.
  - destruct (fold_max_spec (snd <$> r) x) as [Hm Hub].
    specialize (Hub _ Hin). specialize (Hlim _ Hm). lia.
  - destruct (fold_min_spec (snd <$> r) x) as [Hm Hlb].
    specialize (Hlb _ Hin). specialize (Hlim _ Hm). lia.
Qed.

(** The search at level [nivel] when some move wins at once: it returns a
    dict, the best score is that of a win at that level, and the moves with
    that score are those that win at once. *)
Lemma proxima_vitoria_imediata (estado : list string) (jogador : string)
      (nivel dmax : Z) (p0 : Z) :
  jogador = "X"%string \/ jogador = "O"%string ->
  0 <= nivel < 10 ->
  dmax <= 10 ->
  vitoria_imediata estado jogador p0 ->
  exists result : Dict.t,
    Velhus.proxima estado jogador estado nivel dmax = Ok result /\
    Velhus.melhor result jogador = Ok (pontos_de_vitoria jogador nivel) /\
    forall p : Z,
      Dict.get result p = Some (pontos_de_vitoria jogador nivel)
      <-> vitoria_imediata estado jogador p.
Proof.
  intros Hjog Hniv Hmax Hwin.
  destruct (proxima_total dmax _ estado jogador nivel eq_refl) as [result Hr].
  assert (Hsse : forall p,
             Dict.get result p = Some (pontos_de_vitoria jogador nivel)
             <-> vitoria_imediata estado jogador p).
  { intros p. unfold vitoria_imediata. split.
    - intros Hg.
      assert (Hp : p ∈ Velhus.jogadas_possiveis estado).
      { eapply proxima_chaves_ordenadas; [exact Hr|].
        apply get_elem in Hg. apply list_elem_of_fmap. by eexists (p, _). }
      split; [done|].
      destruct (joga_possivel estado p jogador Hp) as [e' Hj].
      exists e'. split; [done|].
      destruct (pontos_vitoria_sse _ _ nivel dmax _ _ _
                                   ltac:(lia) Hmax Hr Hp Hj)
        as [HX HO].
      unfold pontos_de_vitoria in Hg.
      destruct Hjog as [-> | ->]; simpl in Hg; [by apply HX | by apply HO].
    - intros (Hp & e' & Hj & Hres).
      destruct (pontos_vitoria_sse _ _ nivel dmax _ _ _
                                   ltac:(lia) Hmax Hr Hp Hj)
        as [HX HO].
      unfold pontos_de_vitoria.
      destruct Hjog as [-> | ->]; simpl; [by apply HX | by apply HO]. }
  exists result. split; [done|]. split; [|done].
  apply melhor_extremo.
  - intros v Hv.
    eapply (proxima_limites dmax _ estado jogador estado nivel);
      [reflexivity | lia | done | exact Hr | done].
  - apply Hsse, get_elem in Hwin.
    apply list_elem_of_fmap. by eexists (p0, _).
Qed.

Lemma melhor_jogada_ganha (estado : list string) (jogador : string)
      (dmax : Z) (p0 : Z) :
  jogador = "X"%string \/ jogador = "O"%string ->
  dmax <= 10 ->
  vitoria_imediata estado jogador p0 ->
  match Velhus.melhor_jogada estado jogador estado dmax with
  | Ok melhores =>
      forall p : Z, p ∈ melhores <-> vitoria_imediata estado jogador p
  | Raise _ => False
  end.
Proof.
  intros Hjog Hmax Hwin.
  destruct (proxima_vitoria_imediata _ _ 0 _ _ Hjog ltac:(lia) Hmax Hwin)
    as (result & Hr & Hm & Hsse).
  destruct (Velhus.melhor_jogada estado jogador estado dmax)
    as [melhores|e] eqn:Emj.
  - intros p.
    destruct (melhor_jogada_sse _ _ _ _ _ Emj)
      as (result' & m & Hr' & Hm' & _ & Hiff).
    rewrite Hr in Hr'. injection Hr' as <-.
    rewrite Hm in Hm'. injection Hm' as <-.
    by rewrite Hiff.
  - unfold Velhus.melhor_jogada in Emj. by rewrite Hr, Hm in Emj.
Qed.

(** X5. When some possible move wins the game at once for the player (X
    or O) and the depth is at most 10, [melhor_jogada] on the grid of the
    instance returns exactly the moves that win at once. *)
Theorem melhor_jogada_vitoria_imediata (estado : list string)
        (jogador : string) (dmax : Z) (p0 : Z) :
  jogador = "X"%string \/ jogador = "O"%string ->
  dmax <= 10 ->
  vitoria_imediata estado jogador p0 ->
  exists melhores : list Z,
    Velhus.melhor_jogada estado jogador estado dmax = Ok melhores /\
    forall p : Z, p ∈ melhores <-> vitoria_imediata estado jogador p.
Proof.
  intros Hjog Hmax Hwin.
  pose proof (melhor_jogada_ganha _ _ _ _ Hjog Hmax Hwin) as H.
  destruct (Velhus.melhor_jogada estado jogador estado dmax)
    as [melhores|e]; [|done].
  by exists melhores.
Qed.

Lemma melhor_jogada_vitoria_imediata_witness :
  exists melhores : list Z,
    Velhus.melhor_jogada ["X"; "X"; " "; "O"; "O"; " "; " "; " "; " "]%string "O"
                         ["X"; "X"; " "; "O"; "O"; " "; " "; " "; " "]%string 9
    = Ok melhores /\
    forall p : Z,
      p ∈ melhores <->
      vitoria_imediata ["X"; "X"; " "; "O"; "O"; " "; " "; " "; " "]%string
                       "O" p.
Proof.
  apply (melhor_jogada_vitoria_imediata
           ["X"; "X"; " "; "O"; "O"; " "; " "; " "; " "]%string "O" 9 5).
  - right. reflexivity.
  - lia.
  - split.
    + vm_compute. apply list_elem_of_further, list_elem_of_here.
    + eexists. split; reflexivity.
Defined.

(** ** The registry: looking a session up *)

(** X6. [pega_jogo] returns the session of the user, which the registry
    holds afterwards; it leaves every session the registry held as it
    was, and touches no other key; asked again, whatever the outside
    answers, it returns the same session and changes nothing. *)
Theorem pega_jogo_estavel (user_id : Z) (amb amb' : Ambiente) (w : Mundo) :
  exists (jogo : Velha.t) (w1 : Mundo),
    Partidas.pega_jogo user_id amb w = (Ok jogo, w1) /\
    partidas w1 !! user_id = Some jogo /\
    partidas w ⊆ partidas w1 /\
    delete user_id (partidas w1) = delete user_id (partidas w) /\
    Partidas.pega_jogo user_id amb' w1 = (Ok jogo, w1).
Proof.
  unfold Partidas.pega_jogo, liga, le_partidas.
  destruct (partidas w !! user_id) as [jogo|] eqn:El.
  - exists jogo, w. unfold ret. by rewrite El.
  - eexists _, _. split; [reflexivity|]. simpl.
    rewrite lookup_insert_eq. repeat split; try done.
    + by apply insert_subseteq.
    + by rewrite delete_insert_eq.
Qed.

(** ** The keyboard of the grid *)

(** X7. For a session with a grid of 9 cells [constroi_grelha] returns
    four rows; the button at place [i] of the first three rows, read
    row after row, shows cell [i] and carries the digit that
    [callback_query] reads back as position [i]; the last row is the
    button to start over. *)
Theorem constroi_grelha_botoes (v : Velha.t) :
  length (Velha.estado v) = 9%nat ->
  exists l1 l2 l3 : list (string * string),
    Velha.constroi_grelha v
    = Ok [l1; l2; l3; [("Recomeçar"%string, "recomecar"%string)]] /\
    forall i : nat,
      (i < 9)%nat ->
      exists c d : string,
        (l1 ++ l2 ++ l3) !! i = Some (c, d) /\
        Velha.estado v !! i = Some c /\
        option_map (fun n => n - 1) (JogoDaVelha.digito d) = Some (Z.of_nat i).
Proof.
  destruct v as [estado ? ? ? ? ? ? ? ?]. simpl. intros Hlen.
  do 9 (destruct estado as [|? estado]; [done|]).
  destruct estado; [|done].
  eexists _, _, _. split; [reflexivity|].
  intros i Hi.
  do 9 (destruct i as [|i]; [eexists _, _; by repeat split|]). lia.
Qed.

Lemma constroi_grelha_botoes_witness :
  exists l1 l2 l3 : list (string * string),
    Velha.constroi_grelha partida_quase_cheia
    = Ok [l1; l2; l3; [("Recomeçar"%string, "recomecar"%string)]] /\
    forall i : nat,
      (i < 9)%nat ->
      exists c d : string,
        (l1 ++ l2 ++ l3) !! i = Some (c, d) /\
        Velha.estado partida_quase_cheia !! i = Some c /\
        option_map (fun n => n - 1) (JogoDaVelha.digito d) = Some (Z.of_nat i).
Proof.
  apply (constroi_grelha_botoes partida_quase_cheia). reflexivity.
Defined.

(** ** A message after the game is over *)

(** X8. When a user whose session is in the stage Finished (3) sends a
    chat message, [chat_handler] ends with [UnboundLocalError]:
    [reply_markup] has no menu for that stage. Nothing is sent and the
    world stays as it was. *)
Theorem chat_handler_terminada (msg : JogoDaVelha.Msg) (amb : Ambiente)
        (w : Mundo) (jogo : Velha.t) :
  partidas w !! JogoDaVelha.from_id msg = Some jogo ->
  Velha.tela jogo = 3 ->
  JogoDaVelha.chat_handler msg amb w = (Raise UnboundLocalError, w).
Proof.
  intros Hl Ht.
  unfold JogoDaVelha.chat_handler, JogoDaVelha.pega_jogo,
    JogoDaVelha.msg_user_id, Partidas.pega_jogo, liga, le_partidas.
  rewrite Hl. unfold ret at 1. unfold JogoDaVelha.reply_markup.
  rewrite Ht. simpl.
  by destruct (Velha.message jogo).
Qed.

Lemma chat_handler_terminada_witness :
  JogoDaVelha.chat_handler
    (toque "")
    ambiente_calmo
    {| partidas := {[ 7 := Velha.com_tela partida_quase_cheia 3 ]};
       interacoes := 0; chamadas := [] |}
  = (Raise UnboundLocalError,
     {| partidas := {[ 7 := Velha.com_tela partida_quase_cheia 3 ]};
        interacoes := 0; chamadas := [] |}).
Proof.
  apply (chat_handler_terminada
           (toque "") ambiente_calmo
           {| partidas := {[ 7 := Velha.com_tela partida_quase_cheia 3 ]};
              interacoes := 0; chamadas := [] |}
           (Velha.com_tela partida_quase_cheia 3)).
  - vm_compute. reflexivity.
  - reflexivity.
Defined.

(** ** Effects on one session *)

Section Efeitos.

Variable amb : Ambiente.
Variable k : Z.

Lemma efeito_ret {A} (jogo : Velha.t) (a : A) (Q : res A -> Velha.t -> Prop) :
  Q (Ok a) jogo -> efeito amb k jogo (ret a) Q.
Proof. intros HQ w Hl. exists jogo. simpl. by rewrite insert_id. Qed.

Lemma efeito_levanta {A} (jogo : Velha.t) (e : excecao)
      (Q : res A -> Velha.t -> Prop) :
  Q (Raise e) jogo -> efeito amb k jogo (levanta e) Q.
Proof. intros HQ w Hl. exists jogo. simpl. by rewrite insert_id. Qed.

Lemma efeito_de_res {A} (jogo : Velha.t) (r : res A)
      (Q : res A -> Velha.t -> Prop) :
  Q r jogo -> efeito amb k jogo (de_res r) Q.
Proof. destruct r; [apply efeito_ret | apply efeito_levanta]. Qed.

Lemma efeito_liga {A B} (jogo : Velha.t) (m : M A) (f : A -> M B)
      (Q1 : res A -> Velha.t -> Prop) (Q2 : res B -> Velha.t -> Prop) :
  efeito amb k jogo m Q1 ->
  (forall a j1, Q1 (Ok a) j1 -> efeito amb k j1 (f a) Q2) ->
  (forall e j1, Q1 (Raise e) j1 -> Q2 (Raise e) j1) ->
  efeito amb k jogo (liga m f) Q2.
Proof.
  intros Hm Hf He w Hl. destruct (Hm w Hl) as (j1 & Hp1 & HQ1).
  unfold liga. destruct (m amb w) as [[a|e] w1]; simpl in *.
  - destruct (Hf a j1 HQ1 w1) as (j2 & Hp2 & HQ2).
    { by rewrite Hp1, lookup_insert_eq. }
    exists j2. split; [|done]. by rewrite Hp2, Hp1, insert_insert_eq.
  - exists j1. split; [done | by apply He].
Qed.

Lemma efeito_consequencia {A} (jogo : Velha.t) (m : M A)
      (Q1 Q2 : res A -> Velha.t -> Prop) :
  efeito amb k jogo m Q1 ->
  (forall r j, Q1 r j -> Q2 r j) ->
  efeito amb k jogo m Q2.
Proof.
  intros Hm HQ w Hl. destruct (Hm w Hl) as (j1 & Hp1 & HQ1).
  exists j1. split; [done | by apply HQ].
Qed.

Lemma efeito_guarda (jogo jogo' : Velha.t) (Q : res unit -> Velha.t -> Prop) :
  Q (Ok tt) jogo' -> efeito amb k jogo (guarda k jogo') Q.
Proof. intros HQ w Hl. by exists jogo'. Qed.

Lemma efeito_time_time (jogo : Velha.t) (Q : res float -> Velha.t -> Prop) :
  (forall t, Q (Ok t) jogo) -> efeito amb k jogo time_time Q.
Proof. intros HQ w Hl. exists jogo. simpl. by rewrite insert_id. Qed.

Lemma efeito_random_choice (jogo : Velha.t) (l : list Z)
      (Q : res Z -> Velha.t -> Prop) :
  l <> [] ->
  (forall p, p ∈ l -> Q (Ok p) jogo) ->
  efeito amb k jogo (random_choice l) Q.
Proof.
  intros Hne HQ w Hl. exists jogo. destruct l as [|x l]; [done|].
  unfold random_choice. cbn [fst snd avanca partidas].
  rewrite insert_id by done. split; [done|].
  apply HQ, list_elem_of_In, nth_In.
  apply Nat.mod_upper_bound. simpl. lia.
Qed.

Lemma efeito_chama (jogo : Velha.t) (c : Chamada)
      (Q : res nat -> Velha.t -> Prop) :
  (forall n, Q (Ok n) jogo) ->
  (forall e n, falha amb n = Some e -> Q (Raise e) jogo) ->
  efeito amb k jogo (chama c) Q.
Proof.
  intros HOk HE w Hl. exists jogo. unfold chama.
  destruct (falha amb (interacoes w)) as [e|] eqn:Ef; simpl;
    rewrite insert_id by done; (split; [done|]).
  - by eapply HE.
  - apply HOk.
Qed.

Lemma efeito_sendMessage (jogo : Velha.t) (c : Z) (texto : string)
      (markup : Velha.Markup) (Q : res (Z * Z) -> Velha.t -> Prop) :
  (forall ident, Q (Ok ident) jogo) ->
  (forall e n, falha amb n = Some e -> Q (Raise e) jogo) ->
  efeito amb k jogo (sendMessage c texto markup) Q.
Proof.
  intros HOk HE. unfold sendMessage.
  eapply efeito_liga with (Q1 := fun r j => j = jogo /\
                                 forall e, r = Raise e ->
                                           exists n, falha amb n = Some e).
  - apply efeito_chama; [done|]. intros e n Hf. split; [done|].
    intros e' [= <-]. by exists n.
  - intros n j1 [-> _] w Hl. exists jogo. simpl. by rewrite insert_id.
  - intros e j1 [-> He]. destruct (He e eq_refl) as [n Hn]. by eapply HE.
Qed.

Lemma efeito_editMessageText (jogo : Velha.t) (ident : option (Z * Z))
      (texto : string) (markup : Velha.Markup)
      (Q : res unit -> Velha.t -> Prop) :
  Q (Ok tt) jogo ->
  (forall e n, falha amb n = Some e -> Q (Raise e) jogo) ->
  efeito amb k jogo (editMessageText ident texto markup) Q.
Proof.
  intros HOk HE. unfold editMessageText.
  eapply efeito_liga with (Q1 := fun r j => j = jogo /\
                                 forall e, r = Raise e ->
                                           exists n, falha amb n = Some e).
  - apply efeito_chama; [done|]. intros e n Hf. split; [done|].
    intros e' [= <-]. by exists n.
  - intros n j1 [-> _]. by apply efeito_ret.
  - intros e j1 [-> He]. destruct (He e eq_refl) as [n Hn]. by eapply HE.
Qed.

Lemma efeito_answerCallbackQuery (jogo : Velha.t) (query_id : Z)
      (texto : string) (Q : res unit -> Velha.t -> Prop) :
  Q (Ok tt) jogo ->
  (forall e n, falha amb n = Some e -> Q (Raise e) jogo) ->
  efeito amb k jogo (answerCallbackQuery query_id texto) Q.
Proof.
  intros HOk HE. unfold answerCallbackQuery.
  eapply efeito_liga with (Q1 := fun r j => j = jogo /\
                                 forall e, r = Raise e ->
                                           exists n, falha amb n = Some e).
  - apply efeito_chama; [done|]. intros e n Hf. split; [done|].
    intros e' [= <-]. by exists n.
  - intros n j1 [-> _]. by apply efeito_ret.
  - intros e j1 [-> He]. destruct (He e eq_refl) as [n Hn]. by eapply HE.
Qed.

Lemma efeito_tenta (jogo : Velha.t) (e : excecao) (m : M unit)
      (Q1 Q : res unit -> Velha.t -> Prop) :
  efeito amb k jogo m Q1 ->
  (forall j, Q1 (Ok tt) j -> Q (Ok tt) j) ->
  (forall j, Q1 (Raise e) j -> Q (Ok tt) j) ->
  (forall e' j, e' <> e -> Q1 (Raise e') j -> Q (Raise e') j) ->
  efeito amb k jogo (tenta e m) Q.
Proof.
  intros Hm HOk Hcatch Hpass w Hl. destruct (Hm w Hl) as (j1 & Hp1 & HQ1).
  exists j1. unfold tenta. destruct (m amb w) as [[[]|e'] w1]; simpl in *.
  - split; [done | by apply HOk].
  - case_bool_decide as He; simpl; (split; [done|]).
    + subst. by apply Hcatch.
    + by apply Hpass.
Qed.

End Efeitos.

(** ** Sessions stay well formed *)

Lemma forma_com_message (k : Z) (v : Velha.t) (m : option (Z * Z)) :
  forma k v -> forma k (Velha.com_message v m).
Proof. done. Qed.

Lemma boa_com_message (k : Z) (v : Velha.t) (m : option (Z * Z)) :
  boa k v -> boa k (Velha.com_message v m).
Proof. done. Qed.

Lemma boa_init (agora : float) (k : Z) : boa k (Velha.init agora k).
Proof.
  repeat split; simpl; try done; try lia.
  - repeat (apply List.Forall_cons; [unfold celula_valida; auto|]).
    apply List.Forall_nil.
  - left. done.
Qed.

Lemma init_nove (estado : list string) :
  length estado = 9%nat -> Velhus.init estado = estado.
Proof. by destruct estado. Qed.

Lemma resultado_indeciso_possiveis (estado : list string) :
  Velhus.resultado estado = "?"%string -> Velhus.jogadas_possiveis estado <> [].
Proof.
  unfold Velhus.resultado, Velhus.posicoes_por_jogador.
  destruct (Velhus.ganhou _ "X"); [done|].
  destruct (Velhus.ganhou _ "O"); [done|].
  by destruct (Velhus.jogadas_possiveis estado).
Qed.

Lemma constroi_grelha_ok (v : Velha.t) :
  length (Velha.estado v) = 9%nat ->
  exists g : Velha.Markup, Velha.constroi_grelha v = Ok g.
Proof.
  destruct v as [estado ? ? ? ? ? ? ? ?]. simpl. intros Hlen.
  do 9 (destruct estado as [|? estado]; [done|]).
  destruct estado; [|done]. by eexists.
Qed.

(** The session after a move of [jog] on the free cell [n]. *)
Lemma Velha_joga_possivel (agora : float) (v : Velha.t) (p : Z) (jog : string) :
  p ∈ Velhus.jogadas_possiveis (Velha.estado v) ->
  Velha.joga agora v p jog
  = (Ok true,
     Velha.com_mensagem
       (Velha.com_estado (Velha.com_ultima_jogada v agora)
                         (<[Z.to_nat p := jog]> (Velha.estado v)))
       "OK").
Proof.
  intros (n & -> & Hn)%posicoes_de_elem.
  unfold Velha.joga, Py.getitem, Py.setitem. simpl.
  rewrite indice_nat, decide_True by (by eapply lookup_lt_Some).
  rewrite Hn. simpl. by rewrite Nat2Z.id.
Qed.

Lemma digito_limites (s : string) (d : Z) :
  JogoDaVelha.digito s = Some d -> 0 <= d <= 9.
Proof.
  unfold JogoDaVelha.digito. destruct s as [|c [|? ?]]; try done.
  destruct (Z.leb_spec 48 (Z.of_N (Ascii.N_of_ascii c)));
    destruct (Z.leb_spec (Z.of_N (Ascii.N_of_ascii c)) 57);
    simpl; try done.
  intros [= <-]. lia.
Qed.

(** On a grid of 9 cells and a position from -9 to 8, [Velha.joga]
    returns: [True] with the move made, or [False] with the grid as it
    was. *)
Lemma Velha_joga_casos (agora : float) (v : Velha.t) (p : Z) (jog : string) :
  length (Velha.estado v) = 9%nat ->
  -9 <= p <= 8 ->
  (exists n : nat,
     (n < 9)%nat /\ Velha.estado v !! n = Some " "%string /\
     Velha.joga agora v p jog
     = (Ok true,
        Velha.com_mensagem
          (Velha.com_estado (Velha.com_ultima_jogada v agora)
                            (<[n := jog]> (Velha.estado v)))
          "OK")) \/
  Velha.joga agora v p jog
  = (Ok false,
     Velha.com_mensagem (Velha.com_ultima_jogada v agora)
                        "Você já jogou nesta posição, escolha outra").
Proof.
  intros Hlen Hp. unfold Velha.joga, Py.getitem, Py.setitem. simpl.
  rewrite Hlen.
  destruct (Py.indice 9 p) as [n|] eqn:En.
  - pose proof (indice_bound _ _ _ En) as Hn.
    destruct (lookup_lt_is_Some_2 (Velha.estado v) n) as [c Hc]; [lia|].
    rewrite Hc. destruct (String.eqb_spec c " ") as [->|Hne]; [|by right].
    left. by exists n.
  - exfalso. unfold Py.indice in En.
    destruct (Z.leb_spec 0 p).
    + destruct (Z.ltb_spec p (Z.of_nat 9)); [done | lia].
    + destruct (Z.leb_spec (- Z.of_nat 9) p); [done | lia].
Qed.

(** A move of X or O on a free cell keeps the shape of a session that
    is being played. *)
Lemma forma_jogada (k : Z) (v : Velha.t) (agora : float) (n : nat)
      (jog : string) :
  forma k v -> Velha.tela v = 2 ->
  jog = "X"%string \/ jog = "O"%string ->
  forma k (Velha.com_mensagem
             (Velha.com_estado (Velha.com_ultima_jogada v agora)
                               (<[n := jog]> (Velha.estado v)))
             "OK").
Proof.
  intros (Hu & Hlen & Hcel & Hsim & Ht & Hd0 & Hd & Hmenu) Ht2 Hjog.
  unfold forma. simpl. repeat split; try done; try lia.
  - by rewrite length_insert.
  - apply Forall_insert; [done|]. unfold celula_valida. tauto.
Qed.

Lemma simbolos_jogador (v : Velha.t) :
  simbolos v ->
  (Velha.jogador v = "X"%string \/ Velha.jogador v = "O"%string) /\
  (Velha.computador v = "X"%string \/ Velha.computador v = "O"%string).
Proof. intros [[-> ->] | [-> ->]]; tauto. Qed.

(** On its own grid, [melhor_jogada] raises nothing but [ValueError],
    and the list it returns is a non-empty list of possible moves. *)
Lemma melhor_jogada_propria (estado : list string) (jogador : string)
      (dmax : Z) :
  match Velhus.melhor_jogada estado jogador estado dmax with
  | Ok l => l <> [] /\ forall p, p ∈ l -> p ∈ Velhus.jogadas_possiveis estado
  | Raise e => e = ValueError
  end.
Proof.
  destruct (Velhus.melhor_jogada estado jogador estado dmax) as [l|e] eqn:E.
  - destruct (melhor_jogada_sse _ _ _ _ _ E) as (result & m & Er & Em & _ & Hiff).
    destruct (proxima_chaves_ordenadas _ _ _ _ _ _ Er) as [Hs Hsub].
    split.
    + apply melhor_em_values in Em.
      apply list_elem_of_fmap in Em as ([q v] & -> & Hin).
      intros ->. eapply elem_of_nil, Hiff.
      by apply elem_get; [apply ordenada_NoDup|].
    + intros p Hp. apply Hsub. apply Hiff, get_elem in Hp.
      apply list_elem_of_fmap. by exists (p, m).
  - unfold Velhus.melhor_jogada in E.
    destruct (proxima_total dmax _ estado jogador 0 eq_refl) as [result Hr].
    rewrite Hr in E. unfold Velhus.melhor in E.
    destruct result as [|kv result]; simpl in E.
    + destruct (String.eqb jogador "X"); by injection E as <-.
    + by destruct (String.eqb jogador "X").
Qed.

Section Controlador.

Variable amb : Ambiente.
Variable k : Z.

(** A session being played whose grid is decided goes to the last
    stage; this keeps its shape. *)
Lemma boa_terminada (jogo : Velha.t) (m : string) :
  forma k jogo -> Velha.tela jogo = 2 ->
  Velhus.resultado (Velha.estado jogo) <> "?"%string ->
  boa k (Velha.com_tela (Velha.com_mensagem jogo m) 3).
Proof.
  intros (Hu & Hlen & Hcel & Hsim & Ht & Hd0 & Hd & Hmenu) Ht2 Hres.
  unfold boa, forma, coerente. simpl. repeat split; try done; try lia.
Qed.

Lemma boa_indecisa (jogo : Velha.t) :
  forma k jogo -> Velha.tela jogo = 2 ->
  Velhus.resultado (Velha.estado jogo) = "?"%string ->
  boa k jogo.
Proof.
  intros Hf Ht2 Hres. split; [done|]. split; [done|]. intros Ht3. lia.
Qed.

Lemma efeito_verifica_computador
      (vez : Z -> Velha.t -> list string -> M Velha.t) (jogo : Velha.t) :
  forma k jogo -> Velha.tela jogo = 2 ->
  efeito amb k jogo (JogoDaVelha.verifica_resultado_com vez k jogo true)
         (fun r j' =>
            boa k j' /\
            (Velha.tela j' = 2 \/ Velha.tela j' = 3) /\
            Velha.estado j' = Velha.estado jogo /\
            j' = verificada jogo /\
            exists b : bool, r = Ok (b, j')).
Proof.
  intros Hf Ht2 w Hl.
  unfold JogoDaVelha.verifica_resultado_com, verificada, terminada,
    mensagem_final.
  rewrite init_nove by apply Hf.
  destruct (String.eqb_spec (Velhus.resultado (Velha.estado jogo)) "?")
    as [Hres|Hres].
  - exists jogo. simpl. rewrite insert_id by done.
    split; [done|]. split; [by apply boa_indecisa|].
    split; [by left|]. split; [done|]. split; [done | by eexists].
  - eexists. split; [reflexivity|]. simpl.
    split; [|split; [by right | split; [|split; [|by eexists]]]].
    + destruct (String.eqb _ "*"); [|destruct (String.eqb _ _)];
        by apply boa_terminada.
    + by destruct (String.eqb _ "*"); [|destruct (String.eqb _ _)].
    + by destruct (String.eqb _ "*"); [|destruct (String.eqb _ _)].
Qed.

Lemma efeito_joga_pelo_computador_escolha (jogo : Velha.t)
      (velha : option (list string)) :
  forma k jogo -> Velha.tela jogo = 2 ->
  Velhus.resultado (Velha.estado jogo) = "?"%string ->
  velha = None \/ velha = Some (Velha.estado jogo) ->
  efeito amb k jogo (JogoDaVelha.joga_pelo_computador_com k jogo velha)
         (fun r j' =>
            boa k j' /\
            (Velha.tela j' = 2 \/ Velha.tela j' = 3) /\
            match r with
            | Ok a =>
                a = j' /\
                exists p : Z,
                  (p ∈ Velhus.jogadas_possiveis (Velha.estado jogo) /\
                   escolha jogo p) /\
                  Velha.estado j'
                  = <[Z.to_nat p := Velha.computador jogo]> (Velha.estado jogo) /\
                  exists agora : float,
                    j' = verificada
                           (jogada jogo agora (Z.to_nat p)
                                   (Velha.computador jogo))
            | Raise e =>
                e = ValueError /\ j' = jogo /\
                ((length (Velhus.jogadas_possiveis (Velha.estado jogo)) =? 9)%nat
                 || (Velha.dificuldade jogo =? 1) = false /\
                 Velhus.melhor_jogada (Velha.estado jogo) (Velha.computador jogo)
                                      (Velha.estado jogo) (profundidade jogo)
                 = Raise ValueError)
            end).
Proof.
  intros Hf Ht2 Hres Hvelha.
  pose proof Hf as (Hu & Hlen & Hcel & Hsim & Ht & Hd0 & Hd & Hmenu).
  unfold JogoDaVelha.joga_pelo_computador_com.
  assert (Hv : match velha with
               | Some v => v
               | None => Velhus.init (Velha.estado jogo)
               end = Velha.estado jogo).
  { destruct Hvelha as [-> | ->]; [by apply init_nove | done]. }
  rewrite Hv.
  pose proof (resultado_indeciso_possiveis _ Hres) as Hposs.
  eapply efeito_liga
    with (Q1 := fun r j =>
                  j = jogo /\
                  match r with
                  | Ok p => p ∈ Velhus.jogadas_possiveis (Velha.estado jogo) /\
                            escolha jogo p
                  | Raise e =>
                      e = ValueError /\
                      (length (Velhus.jogadas_possiveis (Velha.estado jogo))
                       =? 9)%nat
                      || (Velha.dificuldade jogo =? 1) = false /\
                      Velhus.melhor_jogada
                        (Velha.estado jogo) (Velha.computador jogo)
                        (Velha.estado jogo) (profundidade jogo)
                      = Raise ValueError
                  end).
  - unfold escolha.
    destruct ((length (Velhus.jogadas_possiveis (Velha.estado jogo)) =? 9)%nat
              || (Velha.dificuldade jogo =? 1)) eqn:Efacil.
    { by apply efeito_random_choice. }
    assert (Hmj : efeito amb k jogo
                    (l <- de_res (Velhus.melhor_jogada
                                    (Velha.estado jogo) (Velha.computador jogo)
                                    (Velha.estado jogo) (profundidade jogo)) ;;
                     random_choice l)
                    (fun r j =>
                       j = jogo /\
                       match r with
                       | Ok p =>
                           p ∈ Velhus.jogadas_possiveis (Velha.estado jogo) /\
                           exists l : list Z,
                             Velhus.melhor_jogada
                               (Velha.estado jogo) (Velha.computador jogo)
                               (Velha.estado jogo) (profundidade jogo)
                             = Ok l /\ p ∈ l
                       | Raise e =>
                           e = ValueError /\ false = false /\
                           Velhus.melhor_jogada
                             (Velha.estado jogo) (Velha.computador jogo)
                             (Velha.estado jogo) (profundidade jogo)
                           = Raise ValueError
                       end)).
    { pose proof (melhor_jogada_propria (Velha.estado jogo)
                                        (Velha.computador jogo)
                                        (profundidade jogo)) as Hp.
      destruct (Velhus.melhor_jogada _ _ _ (profundidade jogo)) as [l|e].
      - destruct Hp as [Hne Hsub].
        eapply efeito_liga with (Q1 := fun r j => j = jogo /\ r = Ok l).
        + by apply efeito_ret.
        + intros a j1 [-> [= <-]]. apply efeito_random_choice; [done|].
          intros p Hin. split; [done|]. split; [by apply Hsub|].
          by exists a.
        + by intros e j1 [_ ?].
      - subst e.
        eapply efeito_liga
          with (Q1 := fun r j => j = jogo /\ r = Raise ValueError).
        + by apply efeito_levanta.
        + by intros a j1 [_ ?].
        + by intros e' j1 [-> [= <-]]. }
    unfold profundidade in *.
    destruct (Z.eqb_spec (Velha.dificuldade jogo) 2); [apply Hmj|].
    destruct (Z.eqb_spec (Velha.dificuldade jogo) 3); [apply Hmj|].
    exfalso. apply orb_false_iff in Efacil as [_ H1%Z.eqb_neq]. lia.
  - intros p j1 [-> [Hp Hesc]].
    eapply efeito_liga
      with (Q1 := fun r j => j = jogo /\ exists t, r = Ok t).
    + apply efeito_time_time. intros t. split; [done | by eexists].
    + intros agora j1 [-> _].
      rewrite (Velha_joga_possivel agora jogo p _ Hp).
      set (j2 := Velha.com_mensagem _ _).
      assert (Hf2 : forma k j2).
      { apply forma_jogada; [done..|]. by apply simbolos_jogador. }
      eapply efeito_liga with (Q1 := fun r j => j = j2 /\ r = Ok tt).
      * by apply efeito_guarda.
      * intros [] j1 [-> _].
        eapply efeito_liga with (Q1 := fun r j => j = j2 /\ r = Ok true).
        -- by apply efeito_ret.
        -- intros b j1 [-> _].
           eapply efeito_liga; [by apply efeito_verifica_computador| |].
           ++ intros [b' j3] j4 (Hb & Htl & He & Hver & b'' & [= -> ->]).
              apply efeito_ret.
              split; [done|]. split; [done|]. split; [done|].
              exists p. split; [done|]. split; [by rewrite He|].
              by exists agora.
           ++ by intros e j4 (_ & _ & _ & _ & b'' & ?).
        -- by intros e j1 [_ ?].
      * by intros e j1 [_ ?].
    + by intros e j1 [_ [t ?]].
  - intros e j1 [-> [-> Hfacil]]. split; [by apply boa_indecisa|]. tauto.
Qed.

Lemma efeito_joga_pelo_computador (jogo : Velha.t)
      (velha : option (list string)) :
  forma k jogo -> Velha.tela jogo = 2 ->
  Velhus.resultado (Velha.estado jogo) = "?"%string ->
  velha = None \/ velha = Some (Velha.estado jogo) ->
  efeito amb k jogo (JogoDaVelha.joga_pelo_computador_com k jogo velha)
         (fun r j' =>
            boa k j' /\
            (Velha.tela j' = 2 \/ Velha.tela j' = 3) /\
            match r with
            | Ok a =>
                a = j' /\
                exists p : Z,
                  p ∈ Velhus.jogadas_possiveis (Velha.estado jogo) /\
                  Velha.estado j'
                  = <[Z.to_nat p := Velha.computador jogo]> (Velha.estado jogo) /\
                  exists agora : float,
                    j' = verificada
                           (jogada jogo agora (Z.to_nat p)
                                   (Velha.computador jogo))
            | Raise e =>
                e = ValueError /\ j' = jogo /\
                (length (Velhus.jogadas_possiveis (Velha.estado jogo)) =? 9)%nat
                || (Velha.dificuldade jogo =? 1) = false
            end).
Proof.
  intros Hf Ht2 Hres Hvelha.
  eapply efeito_consequencia;
    [by apply efeito_joga_pelo_computador_escolha|].
  intros [a|e] j' (Hb & Ht & Hr); (split; [done|]); (split; [done|]).
  - destruct Hr as (-> & p & [Hp _] & He & Hag). split; [done|]. by exists p.
  - tauto.
Qed.

Lemma efeito_verifica_jogada (jogo : Velha.t) :
  forma k jogo -> Velha.tela jogo = 2 ->
  efeito amb k jogo (JogoDaVelha.verifica_jogada k jogo)
         (fun r j' =>
            boa k j' /\
            (Velha.tela j' = 2 \/ Velha.tela j' = 3) /\
            match r with
            | Ok a => a = j'
            | Raise e => e = ValueError
            end /\
            resposta jogo r j').
Proof.
  intros Hf Ht2.
  unfold JogoDaVelha.verifica_jogada, JogoDaVelha.verifica_resultado,
    JogoDaVelha.verifica_resultado_com, resposta.
  rewrite init_nove by apply Hf.
  destruct (String.eqb_spec (Velhus.resultado (Velha.estado jogo)) "?")
    as [Hres|Hres]; simpl negb; cbv iota.
  - eapply efeito_liga
      with (Q1 := fun r j' =>
                    boa k j' /\
                    (Velha.tela j' = 2 \/ Velha.tela j' = 3) /\
                    match r with
                    | Ok a =>
                        snd a = j' /\
                        exists (p : Z) (agora : float),
                          p ∈ Velhus.jogadas_possiveis (Velha.estado jogo) /\
                          j' = verificada
                                 (jogada jogo agora (Z.to_nat p)
                                         (Velha.computador jogo))
                    | Raise e => e = ValueError /\ j' = jogo
                    end).
    + eapply efeito_liga;
        [apply efeito_joga_pelo_computador; [done..|by right] | |].
      * intros a j1 (Hb & Ht & -> & p & Hp & _ & agora & Hj).
        apply efeito_ret. split; [done|]. split; [done|]. split; [done|].
        by exists p, agora.
      * by intros e j1 (Hb & Ht & -> & -> & _).
    + intros [b a] j1 (Hb & Ht & Ha & Hp). simpl in Ha. subst a.
      by apply efeito_ret.
    + by intros e j1 (Hb & Ht & -> & ->).
  - cbv zeta. set (j3 := Velha.com_tela _ 3).
    assert (Hb3 : boa k j3).
    { subst j3. destruct (String.eqb _ "*"); [|destruct (String.eqb _ _)];
        by apply boa_terminada. }
    assert (Hj3 : j3 = terminada jogo).
    { subst j3. unfold terminada, mensagem_final.
      by destruct (String.eqb _ "*"); [|destruct (String.eqb _ _)]. }
    eapply efeito_liga with (Q1 := fun r j' => j' = j3 /\ r = Ok (true, j3)).
    + eapply efeito_liga with (Q1 := fun r j' => j' = j3 /\ r = Ok tt).
      * by apply efeito_guarda.
      * intros [] j1 [-> _]. by apply efeito_ret.
      * by intros e j1 [_ ?].
    + intros a j1 [-> [= ->]]. apply efeito_ret.
      split; [done|]. split; [by right|]. split; [done|].
      split; [done | by eexists].
    + by intros e j1 [_ ?].
Qed.

Lemma efeito_reply_markup (jogo : Velha.t) (c : Z) :
  boa k jogo -> Velha.tela jogo <> 3 ->
  efeito amb k jogo (JogoDaVelha.reply_markup k jogo (Some c))
         (fun r j' =>
            boa k j' /\
            Velha.com_message j' None = Velha.com_message jogo None /\
            forall e, r = Raise e -> exists n, falha amb n = Some e).
Proof.
  intros Hb Ht3. pose proof Hb as [(Hu & Hlen & _ & _ & Ht & _) _].
  unfold JogoDaVelha.reply_markup. cbv zeta.
  set (conteudo := if Velha.tela jogo =? 0 then _ else _).
  assert (Hc : exists mm, conteudo = Ok mm).
  { subst conteudo.
    destruct (Z.eqb_spec (Velha.tela jogo) 0); [by eexists|].
    destruct (Z.eqb_spec (Velha.tela jogo) 1); [by eexists|].
    destruct (Z.eqb_spec (Velha.tela jogo) 2); [|lia].
    destruct (constroi_grelha_ok jogo Hlen) as [g ->]. by eexists. }
  destruct Hc as [mm ->].
  destruct (Velha.message jogo) as [h|].
  - eapply efeito_liga with (Q1 := fun r j => j = jogo /\ r = Ok mm).
    + by apply efeito_ret.
    + intros mm' j1 [-> _].
      eapply efeito_liga
        with (Q1 := fun r j =>
                      j = jogo /\
                      forall e, r = Raise e -> exists n, falha amb n = Some e).
      * eapply efeito_tenta.
        -- apply efeito_editMessageText
             with (Q := fun r j =>
                          j = jogo /\
                          forall e, r = Raise e ->
                                    exists n, falha amb n = Some e).
           ++ done.
           ++ intros e n Hn. split; [done|]. intros e' [= <-]. by exists n.
        -- done.
        -- intros j [-> _]. done.
        -- intros e' j _ H. exact H.
      * intros [] j2 [-> _]. by apply efeito_ret.
      * intros e j2 [-> He]. split; [done|]. split; [done|].
        intros e' [= <-]. by apply He.
    + by intros e j1 [_ ?].
  - eapply efeito_liga with (Q1 := fun r j => j = jogo /\ r = Ok mm).
    + by apply efeito_ret.
    + intros mm' j1 [-> _].
      eapply efeito_liga
        with (Q1 := fun r j =>
                      j = jogo /\
                      forall e, r = Raise e -> exists n, falha amb n = Some e).
      * apply efeito_sendMessage; [done|].
        intros e n Hn. split; [done|]. intros e' [= <-]. by exists n.
      * intros ident j2 [-> _].
        eapply efeito_liga
          with (Q1 := fun r j =>
                        j = Velha.com_message jogo (Some ident) /\ r = Ok tt).
        -- by apply efeito_guarda.
        -- intros [] j3 [-> _]. apply efeito_ret.
           split; [by apply boa_com_message | done].
        -- by intros e j3 [_ ?].
      * intros e j2 [-> He]. split; [done|]. split; [done|].
        intros e' [= <-]. by apply He.
    + by intros e j1 [_ ?].
Qed.

Lemma efeito_pega_jogo (jogo : Velha.t) :
  efeito amb k jogo (Partidas.pega_jogo k)
         (fun r j' => j' = jogo /\ r = Ok jogo).
Proof.
  intros w Hl. exists jogo.
  unfold Partidas.pega_jogo, liga, le_partidas. rewrite Hl. simpl.
  by rewrite insert_id.
Qed.

Lemma efeito_novo_jogo (jogo : Velha.t) :
  Velha.user_id jogo = k ->
  efeito amb k jogo (Partidas.novo_jogo jogo)
         (fun r j' => (exists agora, j' = recomecada agora jogo) /\ r = Ok j').
Proof.
  intros Hu w Hl. rewrite novo_jogo_spec. simpl. rewrite Hu.
  eexists. split; [reflexivity|]. split; [by eexists | done].
Qed.

Lemma boa_recomecada (agora : float) (jogo : Velha.t) :
  Velha.user_id jogo = k -> boa k (recomecada agora jogo).
Proof.
  intros <-. unfold recomecada. apply boa_com_message, boa_init.
Qed.

(** Once a level is chosen the session is in the second stage; any
    other token leaves it as it is. *)
Lemma boa_configura_dificuldade (jogo : Velha.t) (dado : string) :
  boa k jogo -> Velha.tela jogo = 0 ->
  boa k (JogoDaVelha.configura_dificuldade jogo dado) /\
  Velha.tela (JogoDaVelha.configura_dificuldade jogo dado) <> 3.
Proof.
  intros [(Hu & Hlen & Hcel & Hsim & Ht & Hd0 & Hd & Hmenu) [Hc2 Hc3]] Ht0.
  unfold JogoDaVelha.configura_dificuldade. cbn [existsb].
  destruct (String.eqb dado "facil"); [|destruct (String.eqb dado "medio");
    [|destruct (String.eqb dado "dificil")]];
    cbn [orb]; unfold boa, forma, coerente; simpl;
    (split; [|lia]); repeat split; try done; try lia;
    try (apply Hmenu; lia).
Qed.

Lemma resultado_branco :
  Velhus.resultado (replicate 9 " "%string) = "?"%string.
Proof. reflexivity. Qed.

(** Once a symbol is chosen the session is being played on an empty
    grid; any other token leaves it as it is. *)
Lemma boa_configura_primeiro_jogador (jogo : Velha.t) (dado : string) :
  boa k jogo -> Velha.tela jogo = 1 ->
  (JogoDaVelha.configura_primeiro_jogador jogo dado = jogo /\
   Velha.computador jogo = "O"%string) \/
  (boa k (JogoDaVelha.configura_primeiro_jogador jogo dado) /\
   Velha.tela (JogoDaVelha.configura_primeiro_jogador jogo dado) = 2 /\
   Velha.estado (JogoDaVelha.configura_primeiro_jogador jogo dado)
   = replicate 9 " "%string /\
   Velhus.resultado
     (Velha.estado (JogoDaVelha.configura_primeiro_jogador jogo dado))
   = "?"%string).
Proof.
  intros [(Hu & Hlen & Hcel & Hsim & Ht & Hd0 & Hd & Hmenu) [Hc2 Hc3]] Ht1.
  destruct Hmenu as [Hbranco Hcomp]; [lia|].
  unfold JogoDaVelha.configura_primeiro_jogador. cbn [existsb].
  destruct (String.eqb_spec dado "X") as [->|HX];
    [|destruct (String.eqb_spec dado "O") as [->|HO]]; cbn [orb];
    [right | right | by left];
    unfold boa, forma, coerente, simbolos; simpl;
      rewrite Hbranco; repeat split; try done; try lia;
      try (by rewrite <- Hbranco); try (by left); by right.
Qed.

(** One mark on the empty grid decides nothing. *)
Lemma abertura_indecisa (p : Z) :
  p ∈ Velhus.jogadas_possiveis (replicate 9 " "%string) ->
  Velhus.resultado (<[Z.to_nat p := "X"%string]> (replicate 9 " "%string))
  = "?"%string.
Proof.
  intros (n & -> & Hn)%posicoes_de_elem. rewrite Nat2Z.id.
  apply lookup_lt_Some in Hn. simpl in Hn.
  do 9 (destruct n as [|n]; [reflexivity|]). lia.
Qed.

Lemma boa_mensagem (jogo : Velha.t) (agora : float) (m : string) :
  boa k jogo -> boa k (Velha.com_mensagem (Velha.com_ultima_jogada jogo agora) m).
Proof. done. Qed.

Lemma efeito_reply_fim (jogo : Velha.t) (c : Z) :
  boa k jogo -> Velha.tela jogo <> 3 ->
  efeito amb k jogo
         (JogoDaVelha.reply_markup k jogo (Some c) ;;; ret tt)
         (final amb k).
Proof.
  intros Hb Ht. eapply efeito_liga; [by apply efeito_reply_markup| |].
  - intros a j2 [Hb2 _]. apply efeito_ret. by split.
  - intros e j2 (Hb2 & _ & He). split; [done|]. intros e' [= <-].
    right. by apply He.
Qed.

Lemma efeito_answer_fim (jogo : Velha.t) (q : Z) (texto : string) :
  boa k jogo ->
  efeito amb k jogo (answerCallbackQuery q texto) (final amb k).
Proof.
  intros Hb. apply efeito_answerCallbackQuery; [by split|].
  intros e n Hn. split; [done|]. intros e' [= <-]. right. by exists n.
Qed.

Lemma efeito_guarda_e {A} (jogo jogo' : Velha.t) (m : M A)
      (Q : res A -> Velha.t -> Prop) :
  efeito amb k jogo' m Q ->
  efeito amb k jogo (guarda k jogo' ;;; m) Q.
Proof.
  intros Hm.
  eapply efeito_liga with (Q1 := fun r j => j = jogo' /\ r = Ok tt).
  - by apply efeito_guarda.
  - by intros [] j [-> _].
  - by intros e j [_ ?].
Qed.

(** The handler of a menu choice, run on the session of its user. *)
Lemma efeito_callback_query (msg : JogoDaVelha.Msg) (jogo : Velha.t) :
  JogoDaVelha.from_id msg = k ->
  boa k jogo ->
  efeito amb k jogo (JogoDaVelha.callback_query msg) (final amb k).
Proof.
  intros Hk Hb. pose proof Hb as [Hf Hco].
  pose proof Hf as (Hu & Hlen & Hcel & Hsim & Ht & Hd0 & Hd & Hmenu).
  unfold JogoDaVelha.callback_query, JogoDaVelha.pega_jogo,
    JogoDaVelha.msg_user_id, JogoDaVelha.msg_chat_id.
  cbv zeta. rewrite Hk.
  eapply efeito_liga; [apply efeito_pega_jogo | | by intros e j1 [_ ?]].
  intros a j1 [-> [= ->]].
  destruct (Z.eqb_spec (Velha.tela jogo) 0) as [H0|H0].
  { destruct (boa_configura_dificuldade
                jogo (JogoDaVelha.query_data msg) Hb H0) as [Hb1 Ht1].
    by apply efeito_guarda_e, efeito_reply_fim. }
  destruct (Z.eqb_spec (Velha.tela jogo) 1) as [H1|H1].
  { destruct (boa_configura_primeiro_jogador
                jogo (JogoDaVelha.query_data msg) Hb H1)
      as [[Heq Hcomp] | (Hb1 & Ht2 & Hbr & Hres)].
    - rewrite Heq, Hcomp. apply efeito_guarda_e.
      eapply efeito_liga with (Q1 := fun r j => j = jogo /\ r = Ok jogo).
      + by apply efeito_ret.
      + intros a j [-> [= ->]]. apply efeito_reply_fim; [done | lia].
      + by intros e j [_ ?].
    - set (j1 := JogoDaVelha.configura_primeiro_jogador _ _) in *.
      apply efeito_guarda_e.
      eapply efeito_liga
        with (Q1 := fun r j =>
                      boa k j /\ Velha.tela j <> 3 /\
                      match r with
                      | Ok a => a = j
                      | Raise e => e = ValueError
                      end).
      + destruct (String.eqb_spec (Velha.computador j1) "X") as [HX|HX].
        * eapply efeito_consequencia.
          { apply efeito_joga_pelo_computador;
              [apply Hb1 | done | done | by left]. }
          intros r j (Hbj & Htj & Hr). split; [done|].
          destruct r as [a|e].
          -- destruct Hr as (-> & p & Hp & He & _). split; [|done].
             intros Ht3. apply Hbj in Ht3. apply Ht3.
             rewrite He, HX, Hbr. apply abertura_indecisa. by rewrite <- Hbr.
          -- destruct Hr as (-> & -> & _). split; [lia | done].
        * apply efeito_ret. split; [done|]. split; [lia | done].
      + intros a j (Hbj & Htj & ->). by apply efeito_reply_fim.
      + intros e j (Hbj & Htj & ->). split; [done|]. intros e' [= <-].
        by left. }
  destruct (String.eqb (JogoDaVelha.query_data msg) "recomecar").
  { eapply efeito_liga; [by apply efeito_novo_jogo| |].
    - intros a j ([agora ->] & [= ->]). simpl Velha.user_id. rewrite Hu.
      apply efeito_reply_fim; [by apply boa_recomecada | done].
    - by intros e j [_ ?]. }
  assert (Hresto :
            efeito amb k jogo
                   (if Velha.tela jogo =? 3
                    then answerCallbackQuery
                           (JogoDaVelha.query_id msg)
                           "Partida terminada. Escolha recomeçar para jogar de novo"
                    else ret tt)
                   (final amb k)).
  { destruct (Velha.tela jogo =? 3).
    - by apply efeito_answer_fim.
    - apply efeito_ret. by split. }
  destruct (JogoDaVelha.digito (JogoDaVelha.query_data msg)) as [d|] eqn:Ed;
    [|exact Hresto].
  destruct (Z.eqb_spec (Velha.tela jogo) 2) as [H2|H2]; [|exact Hresto].
  apply digito_limites in Ed.
  eapply efeito_liga with (Q1 := fun r j => j = jogo /\ exists t, r = Ok t).
  - apply efeito_time_time. intros t. split; [done | by eexists].
  - intros agora j [-> _].
    destruct (Velha_joga_casos agora jogo (d - 1) (Velha.jogador jogo) Hlen)
      as [(n & Hn & Hcell & ->) | ->]; [lia | |].
    + set (j2 := Velha.com_mensagem _ _).
      assert (Hf2 : forma k j2).
      { apply forma_jogada; [done..|]. by apply simbolos_jogador. }
      apply efeito_guarda_e.
      eapply efeito_liga with (Q1 := fun r j => j = j2 /\ r = Ok true).
      * by apply efeito_ret.
      * intros b j3 [-> [= ->]].
        eapply efeito_liga; [by apply efeito_verifica_jogada| |].
        -- intros a j3 (Hb3 & _ & -> & _).
           destruct (constroi_grelha_ok j3) as [g ->]; [apply Hb3|].
           eapply efeito_liga with (Q1 := fun r j => j = j3 /\ r = Ok g).
           ++ by apply efeito_ret.
           ++ intros g' j4 [-> _].
              apply efeito_editMessageText; [by split|].
              intros e m Hm. split; [done|]. intros e' [= <-].
              right. by exists m.
           ++ by intros e j4 [_ ?].
        -- intros e j3 (Hb3 & _ & -> & _). split; [done|]. intros e' [= <-].
           by left.
      * by intros e j3 [_ ?].
    + apply efeito_guarda_e.
      eapply efeito_liga with (Q1 := fun r j =>
                                       boa k j /\ r = Ok false).
      * apply efeito_ret. split; [by apply boa_mensagem | done].
      * intros b j3 [Hb3 [= ->]]. by apply efeito_answer_fim.
      * by intros e j3 [_ ?].
  - by intros e j [_ [t ?]].
Qed.

End Controlador.

(** ** Every handler keeps the registry well formed *)

(** A user unknown to the registry gets a new session, and the handler
    goes on as if the session had been there. *)
Lemma liga_pega_jogo_novo {A} (f : Velha.t -> M A) (user_id : Z)
      (amb : Ambiente) (w : Mundo) :
  partidas w !! user_id = None ->
  liga (Partidas.pega_jogo user_id) f amb w
  = liga (Partidas.pega_jogo user_id) f amb
         {| partidas :=
              <[user_id := Velha.init (relogio amb (interacoes w)) user_id]>
                (partidas w);
            interacoes := S (interacoes w);
            chamadas := chamadas w |}.
Proof.
  intros Hl. unfold Partidas.pega_jogo, le_partidas, liga. simpl.
  by rewrite Hl, lookup_insert_eq.
Qed.

Lemma registo_bom_insert (w : Mundo) (k : Z) (v : Velha.t)
      (p : gmap Z Velha.t) :
  registo_bom w -> boa k v -> p = <[k := v]> (partidas w) ->
  forall k' v', p !! k' = Some v' -> boa k' v'.
Proof.
  intros Hw Hv -> k' v'. destruct (decide (k' = k)) as [->|Hne].
  - rewrite lookup_insert_eq. by intros [= <-].
  - rewrite lookup_insert_ne by done. apply Hw.
Qed.

Lemma callback_query_final (amb : Ambiente) (w : Mundo)
      (msg : JogoDaVelha.Msg) :
  registo_bom w ->
  registo_bom (snd (JogoDaVelha.callback_query msg amb w)) /\
  forall e, fst (JogoDaVelha.callback_query msg amb w) = Raise e ->
            permitida amb e.
Proof.
  assert (Hconhecido : forall w jogo,
             registo_bom w ->
             partidas w !! JogoDaVelha.from_id msg = Some jogo ->
             registo_bom (snd (JogoDaVelha.callback_query msg amb w)) /\
             forall e, fst (JogoDaVelha.callback_query msg amb w) = Raise e ->
                       permitida amb e).
  { intros w' jogo Hw Hl.
    destruct (efeito_callback_query amb (JogoDaVelha.from_id msg) msg jogo
                                    eq_refl (Hw _ _ Hl) w' Hl)
      as (j' & Hp & Hb & He).
    split; [|done]. intros k' v'. by eapply registo_bom_insert. }
  intros Hw.
  destruct (partidas w !! JogoDaVelha.from_id msg) as [jogo|] eqn:Hl.
  { by eapply Hconhecido. }
  unfold JogoDaVelha.callback_query at 1 2.
  unfold JogoDaVelha.pega_jogo, JogoDaVelha.msg_user_id. cbv zeta.
  rewrite liga_pega_jogo_novo by done.
  eapply (Hconhecido {| partidas := _ |}).
  - intros k' v'. simpl. eapply registo_bom_insert; [done | apply boa_init | done].
  - simpl. apply lookup_insert_eq.
Qed.

Lemma chat_handler_final (amb : Ambiente) (w : Mundo) (msg : JogoDaVelha.Msg) :
  registo_bom w ->
  registo_bom (snd (JogoDaVelha.chat_handler msg amb w)).
Proof.
  assert (Hconhecido : forall w jogo,
             registo_bom w ->
             partidas w !! JogoDaVelha.from_id msg = Some jogo ->
             registo_bom (snd (JogoDaVelha.chat_handler msg amb w))).
  { intros w' jogo Hw Hl.
    assert (Hef : efeito amb (JogoDaVelha.from_id msg) jogo
                         (JogoDaVelha.chat_handler msg)
                         (fun r j => boa (JogoDaVelha.from_id msg) j)).
    { unfold JogoDaVelha.chat_handler, JogoDaVelha.pega_jogo,
        JogoDaVelha.msg_user_id, JogoDaVelha.msg_chat_id.
      eapply efeito_liga; [apply efeito_pega_jogo | | ].
      - intros a j1 [-> [= ->]].
        destruct (decide (Velha.tela jogo = 3)) as [H3|H3].
        + intros w0 Hl0. exists jogo. rewrite insert_id by done.
          split; [|by apply (Hw _ _ Hl)].
          unfold liga, JogoDaVelha.reply_markup. rewrite H3. simpl.
          by destruct (Velha.message jogo).
        + eapply efeito_consequencia;
            [apply efeito_reply_fim; [by apply (Hw _ _ Hl) | done]|].
          by intros r j [? _].
      - intros e j1 [-> _]. by apply (Hw _ _ Hl). }
    destruct (Hef w' Hl) as (j' & Hp & Hb).
    intros k' v'. by eapply registo_bom_insert. }
  intros Hw.
  destruct (partidas w !! JogoDaVelha.from_id msg) as [jogo|] eqn:Hl.
  { by eapply Hconhecido. }
  unfold JogoDaVelha.chat_handler at 1.
  unfold JogoDaVelha.pega_jogo, JogoDaVelha.msg_user_id.
  rewrite liga_pega_jogo_novo by done.
  eapply (Hconhecido {| partidas := _ |}).
  - intros k' v'. simpl. eapply registo_bom_insert; [done | apply boa_init | done].
  - simpl. apply lookup_insert_eq.
Qed.

Lemma limpa_antigas_final (amb : Ambiente) (w : Mundo) :
  registo_bom w -> registo_bom (snd (Partidas.limpa_antigas amb w)).
Proof.
  intros Hw k v. unfold Partidas.limpa_antigas, liga, time_time, le_partidas.
  rewrite para_cada_apaga. simpl. rewrite lookup_foldl_delete.
  destruct (decide _); [done | apply Hw].
Qed.

(** X9. The program starts with a well-formed registry, and each of its
    entry points ([callback_query], [chat_handler] and the sweep
    [limpa_antigas]) leaves it well formed, whatever the outside does and
    however the handler ends: every session is held under the id of its
    user, has a grid of 9 cells each free, X or O, complementary symbols
    for human and computer, a stage from 0 to 3, a level from 1 to 3 once
    the first menu is passed, an empty grid as long as a menu is shown,
    an undecided grid while it is played and a decided one once it is
    finished. *)
Theorem registo_sempre_bom :
  registo_bom mundo_inicial /\
  forall (amb : Ambiente) (w : Mundo) (msg : JogoDaVelha.Msg),
    registo_bom w ->
    registo_bom (snd (JogoDaVelha.callback_query msg amb w)) /\
    registo_bom (snd (JogoDaVelha.chat_handler msg amb w)) /\
    registo_bom (snd (Partidas.limpa_antigas amb w)).
Proof.
  split; [by intros k v Hl|].
  intros amb w msg Hw. split; [by apply callback_query_final|].
  split; [by apply chat_handler_final | by apply limpa_antigas_final].
Qed.

Lemma registo_sempre_bom_witness :
  registo_bom (snd (JogoDaVelha.callback_query
                      (toque "medio") ambiente_calmo mundo_inicial)) /\
  registo_bom (snd (JogoDaVelha.chat_handler
                      (toque "medio") ambiente_calmo mundo_inicial)) /\
  registo_bom (snd (Partidas.limpa_antigas ambiente_calmo mundo_inicial)).
Proof.
  apply (proj2 registo_sempre_bom ambiente_calmo mundo_inicial (toque "medio")).
  apply (proj1 registo_sempre_bom).
Defined.

Lemma registo_bom_quase_cheia :
  registo_bom {| partidas := {[ 7 := partida_quase_cheia ]};
                 interacoes := 0; chamadas := [] |}.
Proof.
  intros k v Hl. simpl in Hl. apply lookup_singleton_Some in Hl as [<- <-].
  unfold boa, forma, coerente, simbolos. simpl.
  repeat split; try done; try lia.
  - repeat (apply List.Forall_cons; [unfold celula_valida; auto|]).
    apply List.Forall_nil.
  - by right.
Qed.



(** ** The menus and the moves, one by one *)

Lemma liga_guarda {A} (k : Z) (jogo : Velha.t) (m : M A) (amb : Ambiente)
      (w : Mundo) :
  (guarda k jogo ;;; m) amb w
  = m amb (com_partidas w (<[k := jogo]> (partidas w))).
Proof. reflexivity. Qed.

Lemma configura_dificuldade_nivel (jogo : Velha.t) (dado : string) :
  JogoDaVelha.configura_dificuldade jogo dado
  = match nivel_de dado with
    | Some n => Velha.com_tela (Velha.com_dificuldade jogo n) 1
    | None => jogo
    end.
Proof.
  unfold JogoDaVelha.configura_dificuldade, nivel_de. cbn [existsb].
  by destruct (String.eqb dado "facil"), (String.eqb dado "medio"),
    (String.eqb dado "dificil").
Qed.

(** X11. In the stage of the first menu (0), the tokens ["facil"],
    ["medio"] and ["dificil"] set the level to 1, 2 and 3 and move the
    session to the stage of the second menu (1); any other token leaves
    the session as it was. Either way nothing else of the session changes
    but its message handle, and no other session is touched. *)
Theorem callback_query_escolhe_nivel (amb : Ambiente) (w : Mundo)
        (msg : JogoDaVelha.Msg) (jogo : Velha.t) :
  partidas w !! JogoDaVelha.from_id msg = Some jogo ->
  Velha.tela jogo = 0 ->
  exists j' : Velha.t,
    partidas (snd (JogoDaVelha.callback_query msg amb w))
      !! JogoDaVelha.from_id msg = Some j' /\
    delete (JogoDaVelha.from_id msg)
           (partidas (snd (JogoDaVelha.callback_query msg amb w)))
    = delete (JogoDaVelha.from_id msg) (partidas w) /\
    Velha.com_message j' None
    = Velha.com_message
        (match nivel_de (JogoDaVelha.query_data msg) with
         | Some n => Velha.com_tela (Velha.com_dificuldade jogo n) 1
         | None => jogo
         end)
        None.
Proof.
  intros Hl Ht0.
  set (j1 := match nivel_de (JogoDaVelha.query_data msg) with
             | Some n => Velha.com_tela (Velha.com_dificuldade jogo n) 1
             | None => jogo
             end).
  assert (Ht1 : Velha.tela j1 = 0 \/ Velha.tela j1 = 1).
  { subst j1. destruct (nivel_de _); [by right | by left]. }
  assert (Hp : partidas (snd (JogoDaVelha.callback_query msg amb w))
               = match Velha.message j1, falha amb (interacoes w) with
                 | None, None =>
                     <[JogoDaVelha.from_id msg :=
                         Velha.com_message
                           j1 (Some (identificador amb (interacoes w)))]>
                       (partidas w)
                 | _, _ => <[JogoDaVelha.from_id msg := j1]> (partidas w)
                 end).
  { rewrite (callback_query_conhecido amb w msg jogo Hl), Ht0.
    change (0 =? 0) with true. cbv iota.
    rewrite configura_dificuldade_nivel. fold j1.
    rewrite liga_guarda, partidas_depois_ret, reply_markup_menu by done.
    simpl. destruct (Velha.message j1); [done|].
    destruct (falha amb (interacoes w)); [done|].
    by rewrite insert_insert_eq. }
  rewrite Hp.
  destruct (Velha.message j1) as [h|] eqn:Em;
    [|destruct (falha amb (interacoes w))];
    eexists; rewrite lookup_insert_eq, delete_insert_eq;
    (split; [done|]); (split; [done|]); done.
Qed.

Lemma callback_query_escolhe_nivel_witness :
  exists j' : Velha.t,
    partidas (snd (JogoDaVelha.callback_query
                     (toque "dificil") ambiente_calmo
                     {| partidas := {[ 7 := Velha.init 4990%float 7 ]};
                        interacoes := 0; chamadas := [] |}))
      !! 7 = Some j' /\
    delete 7 (partidas (snd (JogoDaVelha.callback_query
                               (toque "dificil") ambiente_calmo
                               {| partidas := {[ 7 := Velha.init 4990%float 7 ]};
                                  interacoes := 0; chamadas := [] |})))
    = delete 7 ({[ 7 := Velha.init 4990%float 7 ]} : gmap Z Velha.t) /\
    Velha.com_message j' None
    = Velha.com_message
        (Velha.com_tela (Velha.com_dificuldade (Velha.init 4990%float 7) 3) 1)
        None.
Proof.
  refine (callback_query_escolhe_nivel
            ambiente_calmo
            {| partidas := {[ 7 := Velha.init 4990%float 7 ]};
               interacoes := 0; chamadas := [] |}
            (toque "dificil") (Velha.init 4990%float 7) _ eq_refl).
  vm_compute. reflexivity.
Defined.

Lemma digito_nao_recomecar (dado : string) (d : Z) :
  JogoDaVelha.digito dado = Some d -> String.eqb dado "recomecar" = false.
Proof.
  destruct dado as [|c [|c' dado]]; try done.
  intros _. apply String.eqb_neq. intros [= _ ?].
Qed.

(** The handler on a session past the menus, for a token other than
    ["recomecar"]. *)
Lemma callback_query_depois_dos_menus (amb : Ambiente) (w : Mundo)
      (msg : JogoDaVelha.Msg) (jogo : Velha.t) :
  partidas w !! JogoDaVelha.from_id msg = Some jogo ->
  Velha.tela jogo = 2 \/ Velha.tela jogo = 3 ->
  String.eqb (JogoDaVelha.query_data msg) "recomecar" = false ->
  JogoDaVelha.callback_query msg amb w
  = match JogoDaVelha.digito (JogoDaVelha.query_data msg),
          Velha.tela jogo =? 2 with
    | Some d, true =>
        (agora <- time_time ;;
         let '(r, jogo') :=
           Velha.joga agora jogo (d - 1) (Velha.jogador jogo) in
         guarda (JogoDaVelha.from_id msg) jogo' ;;;
         jogou <- de_res r ;;
         if jogou : bool then
           jogo'' <- JogoDaVelha.verifica_jogada (JogoDaVelha.from_id msg) jogo' ;;
           grelha <- de_res (Velha.constroi_grelha jogo'') ;;
           editMessageText (Velha.message jogo'')
                           (String.append "Velha: " (Velha.mensagem jogo''))
                           grelha
         else answerCallbackQuery (JogoDaVelha.query_id msg)
                                  "Escolha outra posição") amb w
    | _, _ =>
        (if Velha.tela jogo =? 3
         then answerCallbackQuery
                (JogoDaVelha.query_id msg)
                "Partida terminada. Escolha recomeçar para jogar de novo"
         else ret tt) amb w
    end.
Proof.
  intros Hl Ht Hr.
  unfold JogoDaVelha.callback_query, JogoDaVelha.pega_jogo,
    JogoDaVelha.msg_user_id, JogoDaVelha.msg_chat_id, Partidas.pega_jogo.
  unfold liga at 1 2. unfold le_partidas. rewrite Hl. unfold ret at 1.
  assert ((Velha.tela jogo =? 0) = false) as ->
      by (by destruct Ht as [-> | ->]).
  assert ((Velha.tela jogo =? 1) = false) as ->
      by (by destruct Ht as [-> | ->]).
  rewrite Hr.
  by destruct (JogoDaVelha.digito _), (Velha.tela jogo =? 2).
Qed.

Lemma Velha_joga_ocupada (agora : float) (v : Velha.t) (p : Z)
      (jog c : string) :
  Py.getitem (Velha.estado v) p = Ok c -> c <> " "%string ->
  Velha.joga agora v p jog
  = (Ok false,
     Velha.com_mensagem (Velha.com_ultima_jogada v agora)
                        "Você já jogou nesta posição, escolha outra").
Proof.
  intros Hg Hc. unfold Velha.joga. simpl. rewrite Hg.
  apply String.eqb_neq in Hc. by rewrite Hc.
Qed.

(** X12. In the stage Playing (2), a digit that names an occupied cell
    changes nothing of the session but its message (the request to choose
    another position) and the time of its last move: the grid and the
    stage stay; the handler reads the clock, then sends the notice
    ['Escolha outra posição'] and returns, or ends with the exception of
    that call. *)
Theorem callback_query_casa_ocupada (amb : Ambiente) (w : Mundo)
        (msg : JogoDaVelha.Msg) (jogo : Velha.t) (d : Z) (c : string) :
  partidas w !! JogoDaVelha.from_id msg = Some jogo ->
  Velha.tela jogo = 2 ->
  JogoDaVelha.digito (JogoDaVelha.query_data msg) = Some d ->
  Py.getitem (Velha.estado jogo) (d - 1) = Ok c ->
  c <> " "%string ->
  JogoDaVelha.callback_query msg amb w
  = (match falha amb (S (interacoes w)) with
     | Some e => Raise e
     | None => Ok tt
     end,
     {| partidas :=
          <[JogoDaVelha.from_id msg :=
              Velha.com_mensagem
                (Velha.com_ultima_jogada jogo (relogio amb (interacoes w)))
                "Você já jogou nesta posição, escolha outra"]>
            (partidas w);
        interacoes := S (S (interacoes w));
        chamadas :=
          chamadas w
          ++ [AnswerCallbackQuery (JogoDaVelha.query_id msg)
                                  "Escolha outra posição"] |}).
Proof.
  intros Hl Ht Hd Hg Hc.
  rewrite (callback_query_depois_dos_menus amb w msg jogo Hl);
    [|by left | by eapply digito_nao_recomecar].
  rewrite Hd, Ht. change (2 =? 2) with true. cbv iota.
  unfold liga at 1. unfold time_time.
  rewrite (Velha_joga_ocupada _ _ _ _ c Hg Hc).
  unfold liga, guarda, muda_partidas, de_res, ret, answerCallbackQuery,
    liga, chama. simpl.
  by destruct (falha amb (S (interacoes w))).
Qed.

Lemma callback_query_casa_ocupada_witness :
  JogoDaVelha.callback_query
    (toque "1") ambiente_calmo
    {| partidas := {[ 7 := partida_quase_cheia ]};
       interacoes := 0; chamadas := [] |}
  = (Ok tt,
     {| partidas :=
          <[7 := Velha.com_mensagem
                   (Velha.com_ultima_jogada partida_quase_cheia 5000%float)
                   "Você já jogou nesta posição, escolha outra"]>
            {[ 7 := partida_quase_cheia ]};
        interacoes := 2;
        chamadas := [AnswerCallbackQuery 1 "Escolha outra posição"] |}).
Proof.
  refine (callback_query_casa_ocupada
            ambiente_calmo
            {| partidas := {[ 7 := partida_quase_cheia ]};
               interacoes := 0; chamadas := [] |}
            (toque "1") partida_quase_cheia 1 "X" _ eq_refl eq_refl eq_refl _).
  - vm_compute. reflexivity.
  - discriminate.
Defined.



Lemma Velha_joga_livre (agora : float) (v : Velha.t) (p : Z) (jog : string) :
  Py.getitem (Velha.estado v) p = Ok " "%string ->
  exists n : nat,
    Py.indice (length (Velha.estado v)) p = Some n /\
    Velha.estado v !! n = Some " "%string /\
    Velha.joga agora v p jog = (Ok true, jogada v agora n jog).
Proof.
  intros Hg. unfold Velha.joga. simpl. rewrite Hg. simpl.
  unfold Py.getitem, Py.setitem in *.
  destruct (Py.indice (length (Velha.estado v)) p) as [n|]; [|done].
  exists n. split; [done|]. split; [|done].
  by destruct (Velha.estado v !! n) as [c|]; [injection Hg as ->|].
Qed.

Lemma verificada_indecisa (v : Velha.t) :
  Velhus.resultado (Velha.estado v) = "?"%string -> verificada v = v.
Proof. intros H. unfold verificada. by rewrite H. Qed.

Lemma jogadas_branco (p : Z) :
  p ∈ Velhus.jogadas_possiveis (replicate 9 " "%string) -> 0 <= p < 9.
Proof.
  intros (n & -> & Hn)%posicoes_de_elem. apply lookup_lt_Some in Hn.
  simpl in Hn. lia.
Qed.

Section Transicoes.

Variable amb : Ambiente.
Variable k : Z.

(** The handler in the stage of the second menu. *)
Lemma efeito_callback_simbolo (msg : JogoDaVelha.Msg) (jogo : Velha.t) :
  JogoDaVelha.from_id msg = k ->
  boa k jogo -> Velha.tela jogo = 1 ->
  efeito amb k jogo (JogoDaVelha.callback_query msg)
         (fun r j' =>
            if String.eqb (JogoDaVelha.query_data msg) "X" then
              Velha.com_message j' None
              = Velha.com_message
                  (Velha.com_tela (Velha.com_jogadores jogo "X" "O") 2) None
            else if String.eqb (JogoDaVelha.query_data msg) "O" then
              exists (p : Z) (agora : float),
                0 <= p < 9 /\
                Velha.com_message j' None
                = Velha.com_message
                    (jogada (Velha.com_tela (Velha.com_jogadores jogo "O" "X") 2)
                            agora (Z.to_nat p) "X")
                    None
            else Velha.com_message j' None = Velha.com_message jogo None).
Proof.
  intros Hk Hb Ht1. pose proof Hb as [Hf Hco].
  pose proof Hf as (Hu & Hlen & Hcel & Hsim & Ht & Hd0 & Hd & Hmenu).
  destruct Hmenu as [Hbranco Hcomp]; [lia|].
  unfold JogoDaVelha.callback_query, JogoDaVelha.pega_jogo,
    JogoDaVelha.msg_user_id, JogoDaVelha.msg_chat_id.
  cbv zeta. rewrite Hk.
  eapply efeito_liga; [apply efeito_pega_jogo | | by intros e j1 [_ ?]].
  intros a j1 [-> [= ->]]. rewrite Ht1.
  change (1 =? 0) with false. change (1 =? 1) with true. cbv iota.
  destruct (boa_configura_primeiro_jogador
              k jogo (JogoDaVelha.query_data msg) Hb Ht1)
    as [[Heq _] | (Hb1 & Ht2 & Hbr & Hres)].
  - (* a token that is no symbol *)
    assert (HX : String.eqb (JogoDaVelha.query_data msg) "X" = false /\
                 String.eqb (JogoDaVelha.query_data msg) "O" = false).
    { unfold JogoDaVelha.configura_primeiro_jogador in Heq.
      cbn [existsb] in Heq.
      destruct (String.eqb _ "X"), (String.eqb _ "O"); try done;
        apply (f_equal Velha.tela) in Heq; simpl in Heq; lia. }
    destruct HX as [-> ->]. rewrite Heq, Hcomp.
    apply efeito_guarda_e.
    eapply efeito_liga with (Q1 := fun r j => j = jogo /\ r = Ok jogo).
    + by apply efeito_ret.
    + intros a j [-> [= ->]].
      eapply efeito_liga; [apply efeito_reply_markup; [done | lia] | |].
      * intros a j (_ & He & _). by apply efeito_ret.
      * by intros e j (_ & He & _).
    + by intros e j [_ ?].
  - set (j1 := JogoDaVelha.configura_primeiro_jogador _ _) in *.
    assert (Hj1 : (String.eqb (JogoDaVelha.query_data msg) "X" = true /\
                   j1 = Velha.com_tela (Velha.com_jogadores jogo "X" "O") 2) \/
                  (String.eqb (JogoDaVelha.query_data msg) "X" = false /\
                   String.eqb (JogoDaVelha.query_data msg) "O" = true /\
                   j1 = Velha.com_tela (Velha.com_jogadores jogo "O" "X") 2)).
    { subst j1. unfold JogoDaVelha.configura_primeiro_jogador in *.
      cbn [existsb] in *.
      destruct (String.eqb_spec (JogoDaVelha.query_data msg) "X") as [->|HX].
      - by left.
      - destruct (String.eqb_spec (JogoDaVelha.query_data msg) "O") as [->|HO].
        + right. by repeat split.
        + simpl in Ht2. lia. }
    apply efeito_guarda_e.
    destruct Hj1 as [[-> Hj1] | (-> & -> & Hj1)].
    + (* the human plays X: the computer waits *)
      assert (String.eqb (Velha.computador j1) "X" = false) as ->
          by (by rewrite Hj1).
      eapply efeito_liga with (Q1 := fun r j => j = j1 /\ r = Ok j1).
      * by apply efeito_ret.
      * intros a j [-> [= ->]].
        eapply efeito_liga; [apply efeito_reply_markup; [done | lia] | |].
        -- intros a j (_ & He & _). apply efeito_ret. by rewrite He, Hj1.
        -- intros e j (_ & He & _). by rewrite He, Hj1.
      * by intros e j [_ ?].
    + (* the human plays O: the computer opens *)
      assert (HcX : Velha.computador j1 = "X"%string) by (by rewrite Hj1).
      rewrite HcX. simpl String.eqb. cbv iota.
      eapply efeito_liga
        with (Q1 := fun r j =>
                      boa k j /\ Velha.tela j = 2 /\ r = Ok j /\
                      exists (p : Z) (agora : float),
                        0 <= p < 9 /\ j = jogada j1 agora (Z.to_nat p) "X").
      * eapply efeito_consequencia.
        { apply efeito_joga_pelo_computador;
            [apply Hb1 | done | done | by left]. }
        intros r j (Hbj & Htj & Hr). destruct r as [a|e].
        -- destruct Hr as (-> & p & Hp & He & agora & Hj).
           rewrite HcX, Hbr in *.
           rewrite verificada_indecisa in Hj.
           2:{ simpl. rewrite Hbr. by apply abertura_indecisa. }
           split; [done|]. split; [by rewrite Hj|]. split; [done|].
           exists p, agora. split; [by apply jogadas_branco | done].
        -- exfalso. destruct Hr as (_ & _ & Hfacil).
           rewrite Hbr in Hfacil. by vm_compute in Hfacil.
      * intros a j (Hbj & Htj & [= ->] & p & agora & Hp & Hj).
        eapply efeito_liga; [apply efeito_reply_markup; [done | lia] | |].
        -- intros a j' (_ & He & _). apply efeito_ret.
           exists p, agora. split; [done|]. by rewrite He, Hj, Hj1.
        -- intros e j' (_ & He & _).
           exists p, agora. split; [done|]. by rewrite He, Hj, Hj1.
      * by intros e j (_ & _ & ? & _).
Qed.

End Transicoes.

(** The handler in the stage Playing, on a digit that names a free
    cell. *)
Lemma efeito_callback_jogada (amb : Ambiente) (k : Z)
      (msg : JogoDaVelha.Msg) (jogo : Velha.t) (d : Z) :
  JogoDaVelha.from_id msg = k ->
  boa k jogo -> Velha.tela jogo = 2 ->
  JogoDaVelha.digito (JogoDaVelha.query_data msg) = Some d ->
  Py.getitem (Velha.estado jogo) (d - 1) = Ok " "%string ->
  efeito amb k jogo (JogoDaVelha.callback_query msg)
         (fun r j' =>
            exists (n : nat) (agora : float),
              Py.indice 9 (d - 1) = Some n /\
              turno (jogada jogo agora n (Velha.jogador jogo)) r j').
Proof.
  intros Hk Hb Ht2 Hd Hg. pose proof Hb as [Hf Hco].
  pose proof Hf as (Hu & Hlen & Hcel & Hsim & Ht & Hd0 & Hdif & Hmenu).
  unfold JogoDaVelha.callback_query, JogoDaVelha.pega_jogo,
    JogoDaVelha.msg_user_id, JogoDaVelha.msg_chat_id.
  cbv zeta. rewrite Hk.
  eapply efeito_liga; [apply efeito_pega_jogo | | by intros e j1 [_ ?]].
  intros a j1 [-> [= ->]]. rewrite Ht2.
  change (2 =? 0) with false. change (2 =? 1) with false.
  change (2 =? 2) with true.
  rewrite (digito_nao_recomecar _ _ Hd), Hd. cbv iota.
  eapply efeito_liga with (Q1 := fun r j => j = jogo /\ exists t, r = Ok t).
  - apply efeito_time_time. intros t. split; [done | by eexists].
  - intros agora j [-> _].
    destruct (Velha_joga_livre agora jogo (d - 1) (Velha.jogador jogo) Hg)
      as (n & Hn & Hcell & ->).
    rewrite Hlen in Hn.
    set (j2 := jogada jogo agora n (Velha.jogador jogo)).
    assert (Hf2 : forma k j2).
    { apply forma_jogada; [done..|]. by apply simbolos_jogador. }
    apply efeito_guarda_e.
    eapply efeito_liga with (Q1 := fun r j => j = j2 /\ r = Ok true).
    + by apply efeito_ret.
    + intros b j3 [-> [= ->]].
      eapply efeito_liga; [by apply efeito_verifica_jogada| |].
      * intros a j3 (Hb3 & _ & -> & Hresp).
        assert (Hturno : forall r : res unit, turno j2 r j3).
        { intros r. unfold turno, resposta in *.
          destruct (String.eqb _ "?"); [|apply Hresp].
          right. destruct Hresp as (p & t & Hp & Hj).
          by exists p, t. }
        destruct (constroi_grelha_ok j3) as [g ->]; [apply Hb3|].
        eapply efeito_liga with (Q1 := fun r j => j = j3 /\ r = Ok g).
        -- by apply efeito_ret.
        -- intros g' j4 [-> _].
           apply efeito_editMessageText; [by exists n, agora|].
           intros e m Hm. by exists n, agora.
        -- by intros e j4 [_ ?].
      * intros e j3 (Hb3 & _ & -> & Hresp). exists n, agora.
        split; [done|]. unfold turno, resposta in *.
        destruct (String.eqb _ "?"); [by left|].
        by destruct Hresp as [_ [? ?]].
    + by intros e j3 [_ ?].
  - by intros e j [_ [t ?]].
Qed.

(** X14. In the stage of the second menu (1) of a well-formed registry:
    on ["X"] the human gets X, the computer O, the session moves to the
    stage Playing (2) and the grid stays empty; on ["O"] the human gets
    O, the computer X, and the computer opens at once, so that the grid
    holds one X on an otherwise empty grid and the stage is Playing; any
    other token leaves the session as it was. Either way nothing else of
    the session changes but its message handle (and, with the opening,
    the message and the time of the last move), and no other session is
    touched. *)
Theorem callback_query_escolhe_simbolo (amb : Ambiente) (w : Mundo)
        (msg : JogoDaVelha.Msg) (jogo : Velha.t) :
  registo_bom w ->
  partidas w !! JogoDaVelha.from_id msg = Some jogo ->
  Velha.tela jogo = 1 ->
  exists j' : Velha.t,
    partidas (snd (JogoDaVelha.callback_query msg amb w))
      !! JogoDaVelha.from_id msg = Some j' /\
    delete (JogoDaVelha.from_id msg)
           (partidas (snd (JogoDaVelha.callback_query msg amb w)))
    = delete (JogoDaVelha.from_id msg) (partidas w) /\
    if String.eqb (JogoDaVelha.query_data msg) "X" then
      Velha.com_message j' None
      = Velha.com_message
          (Velha.com_tela (Velha.com_jogadores jogo "X" "O") 2) None
    else if String.eqb (JogoDaVelha.query_data msg) "O" then
      exists (p : Z) (agora : float),
        0 <= p < 9 /\
        Velha.com_message j' None
        = Velha.com_message
            (jogada (Velha.com_tela (Velha.com_jogadores jogo "O" "X") 2)
                    agora (Z.to_nat p) "X")
            None
    else Velha.com_message j' None = Velha.com_message jogo None.
Proof.
  intros Hw Hl Ht1.
  destruct (efeito_callback_simbolo amb (JogoDaVelha.from_id msg) msg jogo
                                    eq_refl (Hw _ _ Hl) Ht1 w Hl)
    as (j' & Hp & HQ).
  exists j'. rewrite Hp, lookup_insert_eq, delete_insert_eq. by repeat split.
Qed.

Lemma registo_bom_inicial : registo_bom mundo_inicial.
Proof. by intros k v Hl. Qed.

Lemma callback_query_escolhe_simbolo_witness :
  exists j' : Velha.t,
    partidas (snd (JogoDaVelha.callback_query
                     (toque "O") ambiente_calmo (snd (corre ["medio"]%string))))
      !! 7 = Some j' /\
    delete 7 (partidas (snd (JogoDaVelha.callback_query
                               (toque "O") ambiente_calmo
                               (snd (corre ["medio"]%string)))))
    = delete 7 (partidas (snd (corre ["medio"]%string))) /\
    exists (p : Z) (agora : float),
      0 <= p < 9 /\
      Velha.com_message j' None
      = Velha.com_message
          (jogada (Velha.com_tela
                     (Velha.com_jogadores
                        (Velha.com_message
                           (Velha.com_tela
                              (Velha.com_dificuldade (Velha.init 5000%float 7) 2)
                              1)
                           (Some (1, 1)))
                        "O" "X")
                     2)
                  agora (Z.to_nat p) "X")
          None.
Proof.
  refine (callback_query_escolhe_simbolo
            ambiente_calmo (snd (corre ["medio"]%string)) (toque "O")
            (Velha.com_message
               (Velha.com_tela
                  (Velha.com_dificuldade (Velha.init 5000%float 7) 2) 1)
               (Some (1, 1)))
            _ _ eq_refl).
  - apply (callback_query_final ambiente_calmo mundo_inicial (toque "medio")).
    apply registo_bom_inicial.
  - vm_compute. reflexivity.
Defined.

(** X15. In the stage Playing (2) of a well-formed registry, a digit
    that names a free cell makes the move of the human and then: closes
    the game (stage 3, with the message of a draw, a win or a loss of the
    human) if the move decides it; otherwise lets the computer mark one
    cell that was free and closes the game if that decides it. The one
    other outcome is that the search of the computer raises [ValueError]:
    the handler ends with it and the session holds the move of the human
    alone. No other session is touched. *)
Theorem callback_query_jogada (amb : Ambiente) (w : Mundo)
        (msg : JogoDaVelha.Msg) (jogo : Velha.t) (d : Z) :
  registo_bom w ->
  partidas w !! JogoDaVelha.from_id msg = Some jogo ->
  Velha.tela jogo = 2 ->
  JogoDaVelha.digito (JogoDaVelha.query_data msg) = Some d ->
  Py.getitem (Velha.estado jogo) (d - 1) = Ok " "%string ->
  exists (j' : Velha.t) (n : nat) (agora : float),
    partidas (snd (JogoDaVelha.callback_query msg amb w))
      !! JogoDaVelha.from_id msg = Some j' /\
    delete (JogoDaVelha.from_id msg)
           (partidas (snd (JogoDaVelha.callback_query msg amb w)))
    = delete (JogoDaVelha.from_id msg) (partidas w) /\
    Py.indice 9 (d - 1) = Some n /\
    turno (jogada jogo agora n (Velha.jogador jogo))
          (fst (JogoDaVelha.callback_query msg amb w)) j'.
Proof.
  intros Hw Hl Ht2 Hd Hg.
  destruct (efeito_callback_jogada amb (JogoDaVelha.from_id msg) msg jogo d
                                   eq_refl (Hw _ _ Hl) Ht2 Hd Hg w Hl)
    as (j' & Hp & n & agora & Hn & Hturno).
  exists j', n, agora.
  rewrite Hp, lookup_insert_eq, delete_insert_eq. by repeat split.
Qed.

Lemma callback_query_jogada_witness :
  exists (j' : Velha.t) (n : nat) (agora : float),
    partidas (snd (JogoDaVelha.callback_query
                     (toque "9") ambiente_calmo
                     {| partidas := {[ 7 := partida_quase_cheia ]};
                        interacoes := 0; chamadas := [] |}))
      !! 7 = Some j' /\
    delete 7 (partidas (snd (JogoDaVelha.callback_query
                               (toque "9") ambiente_calmo
                               {| partidas := {[ 7 := partida_quase_cheia ]};
                                  interacoes := 0; chamadas := [] |})))
    = delete 7 ({[ 7 := partida_quase_cheia ]} : gmap Z Velha.t) /\
    Py.indice 9 (9 - 1) = Some n /\
    turno (jogada partida_quase_cheia agora n "O")
          (fst (JogoDaVelha.callback_query
                  (toque "9") ambiente_calmo
                  {| partidas := {[ 7 := partida_quase_cheia ]};
                     interacoes := 0; chamadas := [] |}))
          j'.
Proof.
  refine (callback_query_jogada
            ambiente_calmo
            {| partidas := {[ 7 := partida_quase_cheia ]};
               interacoes := 0; chamadas := [] |}
            (toque "9") partida_quase_cheia 9 _ _ eq_refl eq_refl eq_refl).
  - apply registo_bom_quase_cheia.
  - vm_compute. reflexivity.
Defined.

(** ** What a move does to the grid *)

Lemma joga_sucesso (estado : list string) (posicao : Z) (jogador : string)
      (estado' : list string) :
  Velhus.joga estado posicao jogador = (Ok tt, estado') ->
  exists n : nat,
    Py.indice (length estado) posicao = Some n /\
    estado !! n = Some " "%string /\
    estado' = <[n := jogador]> estado.
Proof.
  unfold Velhus.joga, Py.getitem, Py.setitem.
  destruct (Py.indice (length estado) posicao) as [n|]; [|done].
  destruct (estado !! n) as [c|] eqn:Ec; [|done].
  destruct (String.eqb_spec c " ") as [->|]; [|done].
  intros [= <-]. by exists n.
Qed.

Lemma posicoes_de_insert (estado : list string) (n : nat) (jog c : string)
      (i : Z) :
  (n < length estado)%nat ->
  i ∈ posicoes_de (<[n := jog]> estado) c <->
  (i = Z.of_nat n /\ jog = c) \/ (i <> Z.of_nat n /\ i ∈ posicoes_de estado c).
Proof.
  intros Hn. rewrite !posicoes_de_elem. split.
  - intros (m & -> & Hm). destruct (decide (m = n)) as [->|Hne].
    + rewrite list_lookup_insert_eq in Hm by done. left.
      split; [done | congruence].
    + rewrite list_lookup_insert_ne in Hm by done. right.
      split; [lia|]. by exists m.
  - intros [[-> ->] | (Hne & m & -> & Hm)].
    + exists n. split; [done|]. by apply list_lookup_insert_eq.
    + exists m. split; [done|].
      rewrite list_lookup_insert_ne; [done|]. intros ->. lia.
Qed.

(** X16. After a successful [Velhus.joga] with a symbol other than the
    blank, at the cell the index names: the possible moves are those of
    before without that cell, and one fewer; the positions of the symbol
    played are those of before and that cell; the positions of every
    other symbol are those of before. *)
Theorem joga_posicoes (estado : list string) (posicao : Z) (jogador : string)
        (estado' : list string) :
  Velhus.joga estado posicao jogador = (Ok tt, estado') ->
  jogador <> " "%string ->
  exists n : nat,
    Py.indice (length estado) posicao = Some n /\
    (forall i : Z,
       i ∈ Velhus.jogadas_possiveis estado' <->
       i ∈ Velhus.jogadas_possiveis estado /\ i <> Z.of_nat n) /\
    (forall i : Z,
       i ∈ posicoes_de estado' jogador <->
       i ∈ posicoes_de estado jogador \/ i = Z.of_nat n) /\
    (forall (c : string) (i : Z),
       c <> " "%string -> c <> jogador ->
       (i ∈ posicoes_de estado' c <-> i ∈ posicoes_de estado c)) /\
    (length (Velhus.jogadas_possiveis estado') + 1
     = length (Velhus.jogadas_possiveis estado))%nat.
Proof.
  intros (n & Hn & Hcell & ->)%joga_sucesso Hjog. exists n.
  pose proof (lookup_lt_Some _ _ _ Hcell) as Hlt.
  assert (Hlivres : forall i : Z,
             i ∈ Velhus.jogadas_possiveis (<[n := jogador]> estado) <->
             i ∈ Velhus.jogadas_possiveis estado /\ i <> Z.of_nat n).
  { intros i. unfold Velhus.jogadas_possiveis.
    rewrite posicoes_de_insert by done. split.
    - intros [[_ ?] | [? ?]]; [done | by split].
    - intros [? ?]. by right. }
  split; [done|]. split; [done|]. split; [|split].
  - intros i. rewrite posicoes_de_insert by done. split.
    + intros [[-> _] | [_ ?]]; [by right | by left].
    + intros [Hin | ->]; [|by left]. right. split; [|done].
      intros ->. apply posicoes_de_elem in Hin as (m & Hm & Hc).
      apply Nat2Z.inj in Hm. subst m. congruence.
  - intros c i Hc Hcj. rewrite posicoes_de_insert by done. split.
    + intros [[_ ?] | [_ ?]]; [congruence | done].
    + intros Hin. right. split; [|done].
      intros ->. apply posicoes_de_elem in Hin as (m & Hm & Hc').
      apply Nat2Z.inj in Hm. subst m. congruence.
  - rewrite Nat.add_1_r.
    change (length (Z.of_nat n :: Velhus.jogadas_possiveis
                                   (<[n := jogador]> estado))
            = length (Velhus.jogadas_possiveis estado)).
    apply Permutation_length, NoDup_Permutation.
    + constructor; [rewrite Hlivres; tauto|].
      apply ordenada_NoDup, posicoes_de_ordenadas.
    + apply ordenada_NoDup, posicoes_de_ordenadas.
    + intros i. rewrite elem_of_cons, Hlivres. split.
      * intros [-> | [? _]]; [|done].
        apply posicoes_de_elem. by exists n.
      * intros Hin. destruct (decide (i = Z.of_nat n)); tauto.
Qed.

Lemma joga_posicoes_witness :
  exists n : nat,
    Py.indice 9 (-1) = Some n /\
    (forall i : Z,
       i ∈ Velhus.jogadas_possiveis
             ["X"; "O"; " "; " "; "X"; " "; "O"; " "; "O"]%string <->
       i ∈ Velhus.jogadas_possiveis
             ["X"; "O"; " "; " "; "X"; " "; "O"; " "; " "]%string /\
       i <> Z.of_nat n) /\
    (forall i : Z,
       i ∈ posicoes_de ["X"; "O"; " "; " "; "X"; " "; "O"; " "; "O"]%string "O"
       <->
       i ∈ posicoes_de ["X"; "O"; " "; " "; "X"; " "; "O"; " "; " "]%string "O"
       \/ i = Z.of_nat n) /\
    (forall (c : string) (i : Z),
       c <> " "%string -> c <> "O"%string ->
       (i ∈ posicoes_de ["X"; "O"; " "; " "; "X"; " "; "O"; " "; "O"]%string c
        <->
        i ∈ posicoes_de ["X"; "O"; " "; " "; "X"; " "; "O"; " "; " "]%string c))
    /\
    (length (Velhus.jogadas_possiveis
               ["X"; "O"; " "; " "; "X"; " "; "O"; " "; "O"]%string) + 1
     = length (Velhus.jogadas_possiveis
                 ["X"; "O"; " "; " "; "X"; " "; "O"; " "; " "]%string))%nat.
Proof.
  apply (joga_posicoes
           ["X"; "O"; " "; " "; "X"; " "; "O"; " "; " "]%string (-1) "O"
           ["X"; "O"; " "; " "; "X"; " "; "O"; " "; "O"]%string).
  - reflexivity.
  - discriminate.
Defined.

(** ** A decided grid stays decided *)

Lemma vence_insert (estado : list string) (n : nat) (jog s : string) :
  estado !! n = Some " "%string ->
  s <> " "%string ->
  vence estado s ->
  vence (<[n := jog]> estado) s.
Proof.
  intros Hcell Hs (p & Hp & Hall). exists p. split; [done|].
  intros i Hi. pose proof (GANHANTES_nao_negativos p i Hp Hi) as Hpos.
  specialize (Hall i Hi).
  destruct (Z_of_nat_complete i Hpos) as [k ->].
  apply getitem_nat in Hall. apply getitem_nat.
  rewrite list_lookup_insert_ne; [done|].
  intros <-. congruence.
Qed.

Lemma vence_insert_outro (estado : list string) (n : nat) (jog s : string) :
  (n < length estado)%nat ->
  jog <> s ->
  vence (<[n := jog]> estado) s ->
  vence estado s.
Proof.
  intros Hn Hjog (p & Hp & Hall). exists p. split; [done|].
  intros i Hi. pose proof (GANHANTES_nao_negativos p i Hp Hi) as Hpos.
  specialize (Hall i Hi).
  assert (Hin : i ∈ posicoes_de (<[n := jog]> estado) s)
    by by apply posicoes_de_getitem.
  rewrite posicoes_de_insert in Hin by done.
  destruct Hin as [[_ ?] | [_ Hin]]; [done|].
  by apply posicoes_de_getitem in Hin as [_ ?].
Qed.

Lemma resultado_X (estado : list string) :
  Velhus.resultado estado = "X"%string <-> vence estado "X".
Proof.
  unfold Velhus.resultado, Velhus.posicoes_por_jogador.
  destruct (Velhus.ganhou (posicoes_de estado "X") "X") eqn:EX.
  - apply ganhou_vence in EX. tauto.
  - apply ganhou_nao_vence in EX.
    destruct (Velhus.ganhou (posicoes_de estado "O") "O");
      [|destruct (negb _)]; split; done.
Qed.

Lemma resultado_O (estado : list string) :
  Velhus.resultado estado = "O"%string <->
  vence estado "O" /\ ~ vence estado "X".
Proof.
  unfold Velhus.resultado, Velhus.posicoes_por_jogador.
  destruct (Velhus.ganhou (posicoes_de estado "X") "X") eqn:EX.
  - apply ganhou_vence in EX. split; [done | tauto].
  - apply ganhou_nao_vence in EX.
    destruct (Velhus.ganhou (posicoes_de estado "O") "O") eqn:EO.
    + apply ganhou_vence in EO. tauto.
    + apply ganhou_nao_vence in EO.
      destruct (negb _); (split; [done | tauto]).
Qed.

Lemma resultado_empate_cheio (estado : list string) :
  Velhus.resultado estado = "*"%string -> Velhus.jogadas_possiveis estado = [].
Proof.
  unfold Velhus.resultado, Velhus.posicoes_por_jogador.
  destruct (Velhus.ganhou _ _); [done|].
  destruct (Velhus.ganhou _ _); [done|].
  by destruct (Velhus.jogadas_possiveis estado).
Qed.

(** X17. [Velhus.joga] only writes to a blank cell, so a move that
    succeeds never undoes a line: a symbol that holds a winning line before
    the move holds it after. For [resultado] this gives: a grid on which a
    move succeeds is not a draw; a grid won by X stays won by X; a grid won
    by O stays won by O unless the move is an X that completes a line,
    which turns the result into X (X is looked at first); and so a grid
    that is undecided after a move was undecided before it. *)
Theorem joga_resultado_decidido (estado : list string) (posicao : Z)
        (jogador : string) (estado' : list string) :
  Velhus.joga estado posicao jogador = (Ok tt, estado') ->
  (forall s : string, s <> " "%string -> vence estado s -> vence estado' s) /\
  Velhus.resultado estado <> "*"%string /\
  (Velhus.resultado estado = "X"%string ->
   Velhus.resultado estado' = "X"%string) /\
  (Velhus.resultado estado = "O"%string ->
   Velhus.resultado estado' = "O"%string \/
   jogador = "X"%string /\ Velhus.resultado estado' = "X"%string) /\
  (Velhus.resultado estado' = "?"%string ->
   Velhus.resultado estado = "?"%string).
Proof.
  intros (n & Hn & Hcell & ->)%joga_sucesso.
  pose proof (lookup_lt_Some _ _ _ Hcell) as Hlt.
  assert (Hfica : forall s : string,
             s <> " "%string -> vence estado s ->
             vence (<[n := jogador]> estado) s)
    by (intros s; by apply vence_insert).
  assert (Hlivre : Velhus.resultado estado <> "*"%string).
  { intros Hcheio%resultado_empate_cheio.
    assert (Hin : Z.of_nat n ∈ Velhus.jogadas_possiveis estado)
      by (apply posicoes_de_elem; by exists n).
    rewrite Hcheio in Hin. by apply elem_of_nil in Hin. }
  assert (HX : Velhus.resultado estado = "X"%string ->
               Velhus.resultado (<[n := jogador]> estado) = "X"%string).
  { rewrite !resultado_X. by apply Hfica. }
  assert (HO : Velhus.resultado estado = "O"%string ->
               Velhus.resultado (<[n := jogador]> estado) = "O"%string \/
               jogador = "X"%string /\
               Velhus.resultado (<[n := jogador]> estado) = "X"%string).
  { intros [HvO HnX]%resultado_O.
    destruct (Velhus.resultado (<[n := jogador]> estado) =? "X")%string
      eqn:EX.
    - apply String.eqb_eq in EX. right. split; [|done].
      destruct (decide (jogador = "X"%string)) as [|Hne]; [done|].
      exfalso. apply HnX. apply resultado_X in EX.
      by apply (vence_insert_outro estado n jogador).
    - apply String.eqb_neq in EX. left. apply resultado_O.
      split; [by apply Hfica|]. by rewrite <- resultado_X. }
  repeat split; [done | done | done | done |].
  intros Hind.
  destruct (resultado_quatro estado) as [H | [H | [H | H]]]; [| | done | done].
  - apply HX in H. congruence.
  - apply HO in H as [H | [_ H]]; congruence.
Qed.

Lemma joga_resultado_decidido_witness :
  (forall s : string,
     s <> " "%string ->
     vence ["O"; "O"; "O"; "X"; "X"; " "; " "; " "; " "]%string s ->
     vence ["O"; "O"; "O"; "X"; "X"; "X"; " "; " "; " "]%string s) /\
  Velhus.resultado ["O"; "O"; "O"; "X"; "X"; " "; " "; " "; " "]%string
  <> "*"%string /\
  (Velhus.resultado ["O"; "O"; "O"; "X"; "X"; " "; " "; " "; " "]%string
   = "X"%string ->
   Velhus.resultado ["O"; "O"; "O"; "X"; "X"; "X"; " "; " "; " "]%string
   = "X"%string) /\
  (Velhus.resultado ["O"; "O"; "O"; "X"; "X"; " "; " "; " "; " "]%string
   = "O"%string ->
   Velhus.resultado ["O"; "O"; "O"; "X"; "X"; "X"; " "; " "; " "]%string
   = "O"%string \/
   "X"%string = "X"%string /\
   Velhus.resultado ["O"; "O"; "O"; "X"; "X"; "X"; " "; " "; " "]%string
   = "X"%string) /\
  (Velhus.resultado ["O"; "O"; "O"; "X"; "X"; "X"; " "; " "; " "]%string
   = "?"%string ->
   Velhus.resultado ["O"; "O"; "O"; "X"; "X"; " "; " "; " "; " "]%string
   = "?"%string).
Proof.
  apply (joga_resultado_decidido
           ["O"; "O"; "O"; "X"; "X"; " "; " "; " "; " "]%string 5 "X").
  vm_compute. reflexivity.
Defined.

(** ** The move of the computer *)

(** X18. [joga_pelo_computador] on a well-formed session being played:
    when it returns, the computer has marked one cell, drawn from the
    free cells if the grid was empty or the level is 1, and from the list
    [melhor_jogada] returns with depth 2 at level 2 and depth 9 at level 3
    otherwise, and the game is closed if that move decides it. It raises
    nothing but [ValueError], and that only when [melhor_jogada] raised it,
    leaving the session as it was. No other session is touched. *)
Theorem joga_pelo_computador_escolhe (amb : Ambiente) (w : Mundo) (k : Z)
        (jogo : Velha.t) :
  partidas w !! k = Some jogo ->
  boa k jogo ->
  Velha.tela jogo = 2 ->
  exists j' : Velha.t,
    partidas (snd (JogoDaVelha.joga_pelo_computador k jogo amb w))
    = <[k := j']> (partidas w) /\
    match fst (JogoDaVelha.joga_pelo_computador k jogo amb w) with
    | Ok a =>
        a = j' /\
        exists (p : Z) (agora : float),
          p ∈ Velhus.jogadas_possiveis (Velha.estado jogo) /\
          escolha jogo p /\
          j' = verificada (jogada jogo agora (Z.to_nat p)
                                  (Velha.computador jogo))
    | Raise e =>
        e = ValueError /\ j' = jogo /\
        2 <= Velha.dificuldade jogo /\
        length (Velhus.jogadas_possiveis (Velha.estado jogo)) <> 9%nat /\
        Velhus.melhor_jogada (Velha.estado jogo) (Velha.computador jogo)
                             (Velha.estado jogo) (profundidade jogo)
        = Raise ValueError
    end.
Proof.
  intros Hl [Hf [Hind _]] Ht2.
  destruct (efeito_joga_pelo_computador_escolha
              amb k jogo None Hf Ht2 (Hind Ht2) (or_introl eq_refl) w Hl)
    as (j' & Hpart & _ & _ & Hr).
  exists j'. split; [done|].
  unfold JogoDaVelha.joga_pelo_computador.
  destruct (fst (JogoDaVelha.joga_pelo_computador_com k jogo None amb w))
    as [a|e].
  - destruct Hr as (-> & p & [Hp Hesc] & _ & agora & Hj).
    split; [done|]. by exists p, agora.
  - destruct Hr as (-> & -> & [Hn9%Nat.eqb_neq Hd1%Z.eqb_neq]%orb_false_iff
                    & Hmj).
    split; [done|]. split; [done|].
    destruct Hf as (_ & _ & _ & _ & _ & _ & Hd & _).
    split; [lia|]. by split.
Qed.

Lemma joga_pelo_computador_escolhe_witness :
  exists j' : Velha.t,
    partidas (snd (JogoDaVelha.joga_pelo_computador
                     7 partida_quase_cheia ambiente_calmo
                     {| partidas := {[ 7 := partida_quase_cheia ]};
                        interacoes := 0; chamadas := [] |}))
    = <[7 := j']> ({[ 7 := partida_quase_cheia ]} : gmap Z Velha.t) /\
    match fst (JogoDaVelha.joga_pelo_computador
                 7 partida_quase_cheia ambiente_calmo
                 {| partidas := {[ 7 := partida_quase_cheia ]};
                    interacoes := 0; chamadas := [] |}) with
    | Ok a =>
        a = j' /\
        exists (p : Z) (agora : float),
          p ∈ Velhus.jogadas_possiveis (Velha.estado partida_quase_cheia) /\
          escolha partida_quase_cheia p /\
          j' = verificada (jogada partida_quase_cheia agora (Z.to_nat p)
                                  (Velha.computador partida_quase_cheia))
    | Raise e =>
        e = ValueError /\ j' = partida_quase_cheia /\
        2 <= Velha.dificuldade partida_quase_cheia /\
        length (Velhus.jogadas_possiveis (Velha.estado partida_quase_cheia))
        <> 9%nat /\
        Velhus.melhor_jogada (Velha.estado partida_quase_cheia)
                             (Velha.computador partida_quase_cheia)
                             (Velha.estado partida_quase_cheia)
                             (profundidade partida_quase_cheia)
        = Raise ValueError
    end.
Proof.
  refine (joga_pelo_computador_escolhe
            ambiente_calmo
            {| partidas := {[ 7 := partida_quase_cheia ]};
               interacoes := 0; chamadas := [] |}
            7 partida_quase_cheia _ _ eq_refl).
  - vm_compute. reflexivity.
  - apply (registo_bom_quase_cheia 7). vm_compute. reflexivity.
Defined.

(** X19. At the levels 2 and 3, on a well-formed session being played
    whose grid is not empty: when some free cell wins the game at once for
    the computer, [joga_pelo_computador] returns, the cell it has marked is
    one that wins at once, and the game is closed with the message of a
    loss of the human. *)
Theorem joga_pelo_computador_ganha (amb : Ambiente) (w : Mundo) (k : Z)
        (jogo : Velha.t) (p0 : Z) :
  partidas w !! k = Some jogo ->
  boa k jogo ->
  Velha.tela jogo = 2 ->
  2 <= Velha.dificuldade jogo ->
  length (Velhus.jogadas_possiveis (Velha.estado jogo)) <> 9%nat ->
  vitoria_imediata (Velha.estado jogo) (Velha.computador jogo) p0 ->
  exists (j' : Velha.t) (p : Z) (agora : float),
    fst (JogoDaVelha.joga_pelo_computador k jogo amb w) = Ok j' /\
    partidas (snd (JogoDaVelha.joga_pelo_computador k jogo amb w))
    = <[k := j']> (partidas w) /\
    vitoria_imediata (Velha.estado jogo) (Velha.computador jogo) p /\
    j' = terminada (jogada jogo agora (Z.to_nat p) (Velha.computador jogo)) /\
    Velha.tela j' = 3 /\
    Velha.mensagem j' = "Você perdeu!"%string.
Proof.
  intros Hl [Hf [Hind _]] Ht2 Hd2 Hn9 Hwin.
  pose proof Hf as (_ & Hlen & _ & Hsim & _ & _ & Hd & _).
  assert (Hcomp : Velha.computador jogo = "X"%string \/
                  Velha.computador jogo = "O"%string)
    by (destruct Hsim as [[_ ?] | [_ ?]]; tauto).
  assert (Hprof : profundidade jogo <= 10)
    by (unfold profundidade; destruct (_ =? _); lia).
  pose proof (melhor_jogada_ganha _ _ _ _ Hcomp Hprof Hwin) as Hmj.
  destruct (efeito_joga_pelo_computador_escolha
              amb k jogo None Hf Ht2 (Hind Ht2) (or_introl eq_refl) w Hl)
    as (j' & Hpart & _ & _ & Hr).
  unfold JogoDaVelha.joga_pelo_computador.
  destruct (fst (JogoDaVelha.joga_pelo_computador_com k jogo None amb w))
    as [a|e].
  - destruct Hr as (-> & p & [Hp Hesc] & _ & agora & Hj).
    unfold escolha in Hesc.
    rewrite (proj2 (Nat.eqb_neq _ _) Hn9) in Hesc.
    rewrite (proj2 (Z.eqb_neq _ _)) in Hesc by lia.
    destruct Hesc as (l & El & Hin). rewrite El in Hmj.
    apply Hmj in Hin.
    assert (Hfim : Velhus.resultado
                     (<[Z.to_nat p := Velha.computador jogo]>
                        (Velha.estado jogo))
                   = Velha.computador jogo).
    { destruct Hin as (_ & e' & Hj' & Hres).
      rewrite init_nove in Hj' by done.
      apply joga_sucesso in Hj' as (n & Hn & _ & ->).
      apply posicoes_de_elem in Hp as (m & -> & _).
      rewrite indice_nat in Hn. destruct (decide _); [|done].
      injection Hn as <-. by rewrite Nat2Z.id. }
    assert (Hj2 : j' = terminada (jogada jogo agora (Z.to_nat p)
                                         (Velha.computador jogo))).
    { rewrite Hj. unfold verificada. cbn [jogada Velha.estado Velha.com_mensagem
                                            Velha.com_estado].
      rewrite Hfim. by destruct Hcomp as [-> | ->]. }
    exists j', p, agora. split; [done|]. split; [done|]. split; [done|].
    split; [done|]. rewrite Hj2. split; [done|].
    unfold terminada, mensagem_final.
    cbn [jogada Velha.estado Velha.jogador Velha.mensagem Velha.com_mensagem
           Velha.com_estado Velha.com_tela Velha.com_ultima_jogada].
    rewrite Hfim.
    by destruct Hsim as [[-> ->] | [-> ->]].
  - destruct Hr as (_ & _ & _ & Hraise). by rewrite Hraise in Hmj.
Qed.

Lemma joga_pelo_computador_ganha_witness :
  exists (j' : Velha.t) (p : Z) (agora : float),
    fst (JogoDaVelha.joga_pelo_computador
           7 partida_quase_cheia ambiente_calmo
           {| partidas := {[ 7 := partida_quase_cheia ]};
              interacoes := 0; chamadas := [] |})
    = Ok j' /\
    partidas (snd (JogoDaVelha.joga_pelo_computador
                     7 partida_quase_cheia ambiente_calmo
                     {| partidas := {[ 7 := partida_quase_cheia ]};
                        interacoes := 0; chamadas := [] |}))
    = <[7 := j']> ({[ 7 := partida_quase_cheia ]} : gmap Z Velha.t) /\
    vitoria_imediata (Velha.estado partida_quase_cheia)
                     (Velha.computador partida_quase_cheia) p /\
    j' = terminada (jogada partida_quase_cheia agora (Z.to_nat p)
                           (Velha.computador partida_quase_cheia)) /\
    Velha.tela j' = 3 /\
    Velha.mensagem j' = "Você perdeu!"%string.
Proof.
  refine (joga_pelo_computador_ganha
            ambiente_calmo
            {| partidas := {[ 7 := partida_quase_cheia ]};
               interacoes := 0; chamadas := [] |}
            7 partida_quase_cheia 6 _ _ eq_refl _ _ _).
  - vm_compute. reflexivity.
  - apply (registo_bom_quase_cheia 7). vm_compute. reflexivity.
  - simpl. lia.
  - vm_compute. lia.
  - split.
    + vm_compute. apply list_elem_of_here.
    + eexists. split; reflexivity.
Defined.

(** ** The search: moves that hand the opponent the game *)

Lemma melhor_limite (result : Dict.t) (jogador : string) (m v : Z) :
  Velhus.melhor result jogador = Ok m ->
  v ∈ Dict.values result ->
  if String.eqb jogador "X" then v <= m else m <= v.
Proof.
  unfold Velhus.melhor, Dict.values.
  destruct result as [|[k x] r]; [intros _ Hin; by apply elem_of_nil in Hin|].
  rewrite fmap_cons. cbn [Py.max Py.min snd].
  destruct (String.eqb jogador "X"); intros [= <-] Hin.
  - by apply fold_max_spec.
  - by apply fold_min_spec.
Qed.

(** A move that leaves the opponent a win at once has the score of that
    win, one level down. *)
Lemma pontos_deixa_vitoria (estado : list string) (jogador : string)
      (dmax p : Z) :
  jogador = "X"%string \/ jogador = "O"%string ->
  1 <= dmax <= 10 ->
  deixa_vitoria estado jogador p ->
  pontos jogador estado 0 dmax
         (fun j outro n => Velhus.proxima j outro j n dmax) p
  = Ok (Some (pontos_de_vitoria (Velhus.alterna jogador) 1)).
Proof.
  intros Hjog Hd (Hp & e' & Hj & Hres & q & Hq).
  assert (Houtro : Velhus.alterna jogador = "X"%string \/
                   Velhus.alterna jogador = "O"%string)
    by (destruct Hjog as [-> | ->]; [by right | by left]).
  destruct (proxima_vitoria_imediata
              e' (Velhus.alterna jogador) 1 dmax q Houtro
              ltac:(lia) ltac:(lia) Hq)
    as (lresult & Hl & Hm & Hsse).
  unfold pontos. rewrite Hj, Hres.
  cbn [String.eqb Ascii.eqb Bool.eqb andb].
  rewrite (proj2 (Z.ltb_lt 0 dmax)) by lia.
  change (0 + 1) with 1. rewrite Hl.
  destruct lresult as [|kv lresult].
  - apply Hsse in Hq. done.
  - by rewrite Hm.
Qed.

(** A safe move has a score, which is not that of a win of the opponent
    one level down and lies on the side of the player from it. *)
Lemma pontos_segura (estado : list string) (jogador : string) (dmax p : Z) :
  jogador = "X"%string \/ jogador = "O"%string ->
  1 <= dmax <= 10 ->
  segura estado jogador p ->
  exists v : Z,
    pontos jogador estado 0 dmax
           (fun j outro n => Velhus.proxima j outro j n dmax) p
    = Ok (Some v) /\
    if String.eqb jogador "X" then - 9 < v else v < 9.
Proof.
  intros Hjog Hd (Hp & e' & Hj & Hseg).
  unfold pontos. rewrite Hj.
  destruct Hseg as [Hres | [Hres Hnao]]; rewrite Hres.
  { destruct Hjog as [-> | ->]; cbn [String.eqb Ascii.eqb Bool.eqb];
      eexists; (split; [reflexivity|]); lia. }
  cbn [String.eqb Ascii.eqb Bool.eqb andb].
  rewrite (proj2 (Z.ltb_lt 0 dmax)) by lia.
  change (0 + 1) with 1.
  destruct (proxima_total dmax _ e' (Velhus.alterna jogador) 1 eq_refl)
    as [lresult Hl].
  rewrite Hl. destruct lresult as [|kv lresult].
  { exists 0. split; [done|]. destruct (String.eqb jogador "X"); lia. }
  destruct (melhor_nao_vazio kv lresult (Velhus.alterna jogador)) as [m Hm].
  rewrite Hm. exists m. split; [done|].
  pose proof (melhor_em_values _ _ _ Hm) as Hin.
  pose proof (proxima_limites dmax _ e' (Velhus.alterna jogador) e' 1 _ m
                              eq_refl ltac:(lia) ltac:(lia) Hl Hin) as Hlim.
  assert (Hne : m <> pontos_de_vitoria (Velhus.alterna jogador) 1).
  { intros Heq. apply list_elem_of_fmap in Hin as ([q v] & Hv & Hin).
    simpl in Hv. subst v.
    destruct (proxima_chaves_ordenadas _ _ _ _ _ _ Hl) as [Hs Hsub].
    assert (Hq : q ∈ Velhus.jogadas_possiveis e').
    { apply Hsub. apply list_elem_of_fmap. by exists (q, m). }
    apply elem_get in Hin; [|by apply ordenada_NoDup].
    destruct (joga_possivel e' q (Velhus.alterna jogador) Hq) as [e'' Hj'].
    destruct (pontos_vitoria_sse _ _ 1 dmax _ _ _
                                 ltac:(lia) ltac:(lia) Hl Hq Hj')
      as [HX HO].
    apply (Hnao q). split; [done|]. exists e''. split; [done|].
    rewrite Heq in Hin. unfold pontos_de_vitoria in Hin.
    destruct Hjog as [-> | ->]; simpl in Hin |- *;
      [by apply HO | by apply HX]. }
  unfold pontos_de_vitoria in Hne.
  destruct Hjog as [-> | ->]; simpl in Hne |- *; lia.
Qed.

(** With a safe move at hand the search returns, and none of the moves it
    returns leaves the opponent a win at once. *)
Lemma melhor_jogada_segura (estado : list string) (jogador : string)
      (dmax p1 : Z) :
  jogador = "X"%string \/ jogador = "O"%string ->
  1 <= dmax <= 10 ->
  segura estado jogador p1 ->
  match Velhus.melhor_jogada estado jogador estado dmax with
  | Ok melhores =>
      forall p : Z, p ∈ melhores -> ~ deixa_vitoria estado jogador p
  | Raise _ => False
  end.
Proof.
  intros Hjog Hd Hseg.
  destruct (proxima_total dmax _ estado jogador 0 eq_refl) as [result Hr].
  destruct (pontos_segura _ _ dmax _ Hjog Hd Hseg) as (v1 & Hv1 & Hlado).
  pose proof (proxima_get _ _ _ _ _ _ _ _ Hr (proj1 Hseg) Hv1) as Hg1.
  assert (Hin1 : v1 ∈ Dict.values result).
  { apply get_elem in Hg1. apply list_elem_of_fmap. by exists (p1, v1). }
  destruct result as [|kv result]; [by apply elem_of_nil in Hin1|].
  destruct (melhor_nao_vazio kv result jogador) as [m Hm].
  pose proof (melhor_limite _ _ _ _ Hm Hin1) as Hlim.
  destruct (Velhus.melhor_jogada estado jogador estado dmax)
    as [melhores|e] eqn:Emj.
  - intros p Hp Hdeixa.
    destruct (melhor_jogada_sse _ _ _ _ _ Emj)
      as (result' & m' & Hr' & Hm' & _ & Hiff).
    rewrite Hr in Hr'. injection Hr' as <-.
    rewrite Hm in Hm'. injection Hm' as <-.
    apply Hiff in Hp.
    pose proof (pontos_deixa_vitoria _ _ dmax _ Hjog Hd Hdeixa) as Hpd.
    pose proof (proxima_get _ _ _ _ _ _ _ _ Hr (proj1 Hdeixa) Hpd) as Hgp.
    rewrite Hp in Hgp. injection Hgp as ->.
    unfold pontos_de_vitoria in Hlim, Hlado.
    destruct Hjog as [-> | ->]; simpl in Hlim, Hlado; lia.
  - unfold Velhus.melhor_jogada in Emj. by rewrite Hr, Hm in Emj.
Qed.

(** X20. With a depth between 1 and 10, when the player (X or O) has a
    safe move (one that wins the game, or leaves it undecided and the
    opponent no move that wins at once), [melhor_jogada] on the grid of the
    instance returns a list, and no move of the list leaves the opponent a
    move that wins at once: the search blocks whenever blocking is
    possible. *)
Theorem melhor_jogada_defende (estado : list string) (jogador : string)
        (dmax p1 : Z) :
  jogador = "X"%string \/ jogador = "O"%string ->
  1 <= dmax <= 10 ->
  segura estado jogador p1 ->
  exists melhores : list Z,
    Velhus.melhor_jogada estado jogador estado dmax = Ok melhores /\
    forall p : Z, p ∈ melhores -> ~ deixa_vitoria estado jogador p.
Proof.
  intros Hjog Hd Hseg.
  pose proof (melhor_jogada_segura _ _ _ _ Hjog Hd Hseg) as H.
  destruct (Velhus.melhor_jogada estado jogador estado dmax)
    as [melhores|e]; [|done].
  by exists melhores.
Qed.

Lemma melhor_jogada_defende_witness :
  exists melhores : list Z,
    Velhus.melhor_jogada ["X"; "X"; " "; " "; "O"; " "; " "; " "; " "]%string "O"
                         ["X"; "X"; " "; " "; "O"; " "; " "; " "; " "]%string 2
    = Ok melhores /\
    forall p : Z,
      p ∈ melhores ->
      ~ deixa_vitoria ["X"; "X"; " "; " "; "O"; " "; " "; " "; " "]%string
                      "O" p.
Proof.
  apply (melhor_jogada_defende
           ["X"; "X"; " "; " "; "O"; " "; " "; " "; " "]%string "O" 2 2).
  - right. reflexivity.
  - lia.
  - split.
    + vm_compute. apply list_elem_of_here.
    + eexists. split; [reflexivity|]. right. split; [reflexivity|].
      intros q (Hq & e'' & Hj & Hres). vm_compute in Hq.
      repeat (apply elem_of_cons in Hq as [-> | Hq];
              [vm_compute in Hj; injection Hj as <-; vm_compute in Hres;
               discriminate Hres|]).
      by apply elem_of_nil in Hq.
Defined.

(** X21. At the levels 2 and 3, on a well-formed session being played
    whose grid is not empty: when the computer has a safe move,
    [joga_pelo_computador] returns, and the cell it has marked does not
    leave the human a move that wins at once. *)
Theorem joga_pelo_computador_defende (amb : Ambiente) (w : Mundo) (k : Z)
        (jogo : Velha.t) (p1 : Z) :
  partidas w !! k = Some jogo ->
  boa k jogo ->
  Velha.tela jogo = 2 ->
  2 <= Velha.dificuldade jogo ->
  length (Velhus.jogadas_possiveis (Velha.estado jogo)) <> 9%nat ->
  segura (Velha.estado jogo) (Velha.computador jogo) p1 ->
  exists (j' : Velha.t) (p : Z) (agora : float),
    fst (JogoDaVelha.joga_pelo_computador k jogo amb w) = Ok j' /\
    partidas (snd (JogoDaVelha.joga_pelo_computador k jogo amb w))
    = <[k := j']> (partidas w) /\
    p ∈ Velhus.jogadas_possiveis (Velha.estado jogo) /\
    ~ deixa_vitoria (Velha.estado jogo) (Velha.computador jogo) p /\
    j' = verificada (jogada jogo agora (Z.to_nat p) (Velha.computador jogo)).
Proof.
  intros Hl [Hf [Hind _]] Ht2 Hd2 Hn9 Hseg.
  pose proof Hf as (_ & Hlen & _ & Hsim & _ & _ & Hd & _).
  assert (Hcomp : Velha.computador jogo = "X"%string \/
                  Velha.computador jogo = "O"%string)
    by (destruct Hsim as [[_ ?] | [_ ?]]; tauto).
  assert (Hprof : 1 <= profundidade jogo <= 10)
    by (unfold profundidade; destruct (_ =? _); lia).
  pose proof (melhor_jogada_segura _ _ _ _ Hcomp Hprof Hseg) as Hmj.
  destruct (efeito_joga_pelo_computador_escolha
              amb k jogo None Hf Ht2 (Hind Ht2) (or_introl eq_refl) w Hl)
    as (j' & Hpart & _ & _ & Hr).
  unfold JogoDaVelha.joga_pelo_computador.
  destruct (fst (JogoDaVelha.joga_pelo_computador_com k jogo None amb w))
    as [a|e].
  - destruct Hr as (-> & p & [Hp Hesc] & _ & agora & Hj).
    unfold escolha in Hesc.
    rewrite (proj2 (Nat.eqb_neq _ _) Hn9) in Hesc.
    rewrite (proj2 (Z.eqb_neq _ _)) in Hesc by lia.
    destruct Hesc as (l & El & Hin). rewrite El in Hmj.
    exists j', p, agora. split; [done|]. split; [done|]. split; [done|].
    split; [by apply Hmj | done].
  - destruct Hr as (_ & _ & _ & Hraise). by rewrite Hraise in Hmj.
Qed.

Lemma joga_pelo_computador_defende_witness :
  exists (j' : Velha.t) (p : Z) (agora : float),
    fst (JogoDaVelha.joga_pelo_computador
           7 partida_quase_cheia ambiente_calmo
           {| partidas := {[ 7 := partida_quase_cheia ]};
              interacoes := 0; chamadas := [] |})
    = Ok j' /\
    partidas (snd (JogoDaVelha.joga_pelo_computador
                     7 partida_quase_cheia ambiente_calmo
                     {| partidas := {[ 7 := partida_quase_cheia ]};
                        interacoes := 0; chamadas := [] |}))
    = <[7 := j']> ({[ 7 := partida_quase_cheia ]} : gmap Z Velha.t) /\
    p ∈ Velhus.jogadas_possiveis (Velha.estado partida_quase_cheia) /\
    ~ deixa_vitoria (Velha.estado partida_quase_cheia)
                    (Velha.computador partida_quase_cheia) p /\
    j' = verificada (jogada partida_quase_cheia agora (Z.to_nat p)
                            (Velha.computador partida_quase_cheia)).
Proof.
  refine (joga_pelo_computador_defende
            ambiente_calmo
            {| partidas := {[ 7 := partida_quase_cheia ]};
               interacoes := 0; chamadas := [] |}
            7 partida_quase_cheia 6 _ _ eq_refl _ _ _).
  - vm_compute. reflexivity.
  - apply (registo_bom_quase_cheia 7). vm_compute. reflexivity.
  - simpl. lia.
  - vm_compute. lia.
  - split.
    + vm_compute. apply list_elem_of_here.
    + eexists. split; [reflexivity|]. left. reflexivity.
Defined.
